(** * ospurge: the purge orchestration engine

    A shallow embedding of [ospurge.py] (Python 2): the retry decorator,
    the resource classes with their [list]/[delete]/[purge]/[dump]
    methods, [perform_on_project] and the privilege elevation done by
    [main].  The OpenStack client libraries are external; they appear
    here as an abstract backend whose calls may raise and may change the
    state of the cloud. *)

From Stdlib Require Import ZArith Lia.
From stdpp Require Import base option list strings gmap pretty sorting.

Open Scope string_scope.
Open Scope Z_scope.

(** ** Constants *)

Definition RETRIES : Z := 10.
Definition TIMEOUT : Z := 5.

Definition NoSuchProject_ERROR_CODE : Z := 2.
Definition AUTHENTICATION_FAILED_ERROR_CODE : Z := 3.
Definition DeletionFailed_ERROR_CODE : Z := 4.
Definition CONNECTION_ERROR_CODE : Z := 5.
Definition NOT_AUTHORIZED : Z := 6.

(** ** Exceptions *)

(** The client libraries whose exception classes the program names. *)
Inductive library :=
| keystoneclient | neutronclient | cinderclient | novaclient
| glanceclient | ceilometerclient | swiftclient.

Inductive exn :=
(* classes defined by ospurge *)
| ResourceNotEnabled
| EndpointNotFound (service_type : string)
| InvalidEndpoint (rc : string)
| NoSuchProject (project : string)
| DeletionFailed (service_name : string)
(* classes of the client libraries *)
| LibEndpointNotFound (lib : library)
| LibInvalidEndpoint (lib : library) (message : string)
| NeutronClientException (status_code : Z)
| ConnectionError (message : string)
| Unauthorized (message : string)
| Forbidden (message : string)
| Conflict
| NotFound
(* builtins *)
| IndexError
| KeyError
| AttributeError
| UnicodeEncodeError
| SystemExit (code : Z)
| OtherException (what : string).

#[global] Instance library_eq_dec : EqDecision library.
Proof. solve_decision. Defined.
#[global] Instance exn_eq_dec : EqDecision exn.
Proof. solve_decision. Defined.

Inductive result (A : Type) :=
| Ok (a : A)
| Raise (e : exn).
Arguments Ok {A} a.
Arguments Raise {A} e.

Definition result_map {A B} (f : A -> B) (r : result A) : result B :=
  match r with
  | Ok a => Ok (f a)
  | Raise e => Raise e
  end.

(** ** Data returned by the backends *)

(** Neutron returns dictionaries, the other clients objects with
    attributes; one record holds the fields the program reads ([res_id]
    is [id], and [alarm_id] for an alarm).  A Swift container handle is
    its name: see [container_handle]. *)
Record resource := {
  res_id : string;
  name : string;
  display_name : string;
  tenant_id : string;
  owner : string;
  device_owner : string;
  device_id : string;
  volume_id : string;
  floating_ip_address : string;
  container : string
}.

Definition container_handle (cont : string) : resource :=
  {| res_id := ""; name := cont; display_name := ""; tenant_id := "";
     owner := ""; device_owner := ""; device_id := ""; volume_id := "";
     floating_ip_address := ""; container := "" |}.

Definition object_handle (cont obj : string) : resource :=
  {| res_id := ""; name := obj; display_name := ""; tenant_id := "";
     owner := ""; device_owner := ""; device_id := ""; volume_id := "";
     floating_ip_address := ""; container := cont |}.

Record Tenant := { t_id : string; t_name : string; enabled : bool }.
Record Role := { role_id : string; role_name : string }.

(** What [keystone_client.Client(...)] exposes once authenticated. *)
Record AuthInfo := {
  auth_token : string;
  auth_user_id : string;
  auth_tenant_id : string;
  auth_project_name : string;
  service_catalog : gmap string (list (gmap string string))
}.

(** ** Calls into the client libraries *)

(** Enumerations. *)
Inductive listing :=
| volume_snapshots_list
| volumes_list
| backups_list
| servers_list
| list_routers
| list_ports
| list_networks
| list_security_groups
| list_floatingips
| images_list
| alarms_list (project : string)
| get_account
| get_container (cont : string).

(** Mutations. *)
Inductive request :=
| delete_object (cont obj : string)
| delete_container (cont : string)
| volume_snapshots_delete (snap : string)
| volumes_delete (vol : string)
| backups_delete (backup : string)
| remove_gateway_router (router : string)
| delete_router (router : string)
| update_router_no_routes (router : string)
| remove_interface_router (router port : string)
| delete_port (port : string)
| delete_network (net : string)
| delete_security_group (secgroup : string)
| delete_floatingip (fip : string)
| servers_delete (server : string)
| images_update_unprotected (image : string)
| images_delete (image : string)
| alarms_delete (alarm : string).

(** Keystone. *)
Inductive keystone_call :=
| tenants_get (project : string)
| tenants_list
| tenants_update (project : string) (enable : bool)
| tenants_delete (project : string)
| roles_list
| add_user_role (user role project : string)
| remove_user_role (user role project : string).

Inductive keystone_reply :=
| NoReply
| TenantReply (t : Tenant)
| TenantsReply (ts : list Tenant)
| RolesReply (rs : list Role).

(** ** Observable events of a run

    Every call into a library is recorded with what it returned or
    raised, next to what the program logs, prints and sleeps.  [EvClass]
    records no call: it marks that the loop of [perform_on_project]
    enters its body for a class. *)

Inductive level := INFO | WARNING.

Inductive event :=
| EvAuthenticate (project : string) (r : result AuthInfo)
| EvNewClient (lib : library) (r : result unit)
| EvListing (q : listing) (r : result (list resource))
| EvRequest (q : request) (r : result unit)
| EvKeystone (c : keystone_call) (r : result keystone_reply)
| EvSleep (seconds : Z)
| EvLog (lvl : level) (msg : string)
| EvPrint (msg : string)
| EvClass (rc : string).

(** ** The backend

    Every call takes the state of the cloud and returns what the call
    returns or raises together with the state it leaves. *)
Record Backend (W : Type) := {
  authenticate : string -> W -> result AuthInfo * W;
  new_client : library -> W -> result unit * W;
  run_listing : listing -> W -> result (list resource) * W;
  run_request : request -> W -> result unit * W;
  run_tenants_get : string -> W -> result Tenant * W;
  run_tenants_list : W -> result (list Tenant) * W;
  run_tenants_update : string -> bool -> W -> result Tenant * W;
  run_tenants_delete : string -> W -> result unit * W;
  run_roles_list : W -> result (list Role) * W;
  run_add_user_role : string -> string -> string -> W -> result unit * W;
  run_remove_user_role : string -> string -> string -> W -> result unit * W;
  (* what happens to the cloud while the program sleeps *)
  elapse : Z -> W -> W
}.
Arguments authenticate {W} _ _ _.
Arguments new_client {W} _ _ _.
Arguments run_listing {W} _ _ _.
Arguments run_request {W} _ _ _.
Arguments run_tenants_get {W} _ _ _.
Arguments run_tenants_list {W} _ _.
Arguments run_tenants_update {W} _ _ _ _.
Arguments run_tenants_delete {W} _ _ _.
Arguments run_roles_list {W} _ _.
Arguments run_add_user_role {W} _ _ _ _ _.
Arguments run_remove_user_role {W} _ _ _ _ _.
Arguments elapse {W} _ _ _.

(** ** Computations: state of the cloud, exceptions, emitted events *)

Record outcome (W A : Type) := Out {
  res : result A;
  final : W;
  emitted : list event
}.
Arguments Out {W A} res final emitted.
Arguments res {W A} _.
Arguments final {W A} _.
Arguments emitted {W A} _.

Definition M (W A : Type) : Type := W -> outcome W A.

Definition ret {W A} (a : A) : M W A := fun s => Out (Ok a) s [].

Definition raise {W A} (e : exn) : M W A := fun s => Out (Raise e) s [].

Definition bind {W A B} (m : M W A) (f : A -> M W B) : M W B :=
  fun s =>
    let o := m s in
    match res o with
    | Ok a => let o' := f a (final o) in
              Out (res o') (final o') (emitted o ++ emitted o')
    | Raise e => Out (Raise e) (final o) (emitted o)
    end.

(** [try: m except e: handler e]; a [handler] answering [None] does not
    catch [e]. *)
Definition try_except {W A} (m : M W A) (handler : exn -> option (M W A))
  : M W A :=
  fun s =>
    let o := m s in
    match res o with
    | Ok a => o
    | Raise e =>
        match handler e with
        | Some h => let o' := h (final o) in
                    Out (res o') (final o') (emitted o ++ emitted o')
        | None => o
        end
    end.

Definition emit {W} (ev : event) : M W unit := fun s => Out (Ok tt) s [ev].

Notation "'let*' x := m 'in' k" := (bind m (fun x => k))
  (at level 10, x name, m at level 100, k at level 200, only parsing).
Notation "m >> k" := (bind m (fun _ => k))
  (at level 100, k at level 200, only parsing).

Definition logging_info {W} (msg : string) : M W unit := emit (EvLog INFO msg).
Definition logging_warning {W} (msg : string) : M W unit :=
  emit (EvLog WARNING msg).
Definition print {W} (msg : string) : M W unit := emit (EvPrint msg).

Definition lift_result {W A} (r : result A) : M W A := fun s => Out r s [].

(** [for x in xs: body x] *)
Fixpoint for_each {W A} (xs : list A) (body : A -> M W unit) : M W unit :=
  match xs with
  | [] => ret tt
  | x :: xs' => body x >> for_each xs' body
  end.

Definition prepend {W A} (evs : list event) (o : outcome W A) : outcome W A :=
  Out (res o) (final o) (evs ++ emitted o).

(** [except Exception] catches every class but those deriving from
    [BaseException] only. *)
Definition is_Exception (e : exn) : bool :=
  match e with
  | SystemExit _ => false
  | _ => true
  end.

(** ** Available resources classes *)

Inductive kind :=
| SwiftObjects
| SwiftContainers
| CinderSnapshots
| CinderVolumes
| CinderBackups
| NeutronRouters
| NeutronInterfaces
| NeutronPorts
| NeutronNetworks
| NeutronSecgroups
| NeutronFloatingIps
| NovaServers
| GlanceImages
| CeilometerAlarms.

#[global] Instance kind_eq_dec : EqDecision kind.
Proof. solve_decision. Defined.

Definition RESOURCES_CLASSES : list string :=
  [ "CinderSnapshots";
    "CinderBackups";
    "NovaServers";
    "NeutronFloatingIps";
    "NeutronInterfaces";
    "NeutronRouters";
    "NeutronPorts";
    "NeutronNetworks";
    "NeutronSecgroups";
    "GlanceImages";
    "SwiftObjects";
    "SwiftContainers";
    "CinderVolumes"
    (* "CeilometerAlarms" *) ].

(** [self.__class__.__name__] *)
Definition class_name (k : kind) : string :=
  match k with
  | SwiftObjects => "SwiftObjects"
  | SwiftContainers => "SwiftContainers"
  | CinderSnapshots => "CinderSnapshots"
  | CinderVolumes => "CinderVolumes"
  | CinderBackups => "CinderBackups"
  | NeutronRouters => "NeutronRouters"
  | NeutronInterfaces => "NeutronInterfaces"
  | NeutronPorts => "NeutronPorts"
  | NeutronNetworks => "NeutronNetworks"
  | NeutronSecgroups => "NeutronSecgroups"
  | NeutronFloatingIps => "NeutronFloatingIps"
  | NovaServers => "NovaServers"
  | GlanceImages => "GlanceImages"
  | CeilometerAlarms => "CeilometerAlarms"
  end.

Definition all_kinds : list kind :=
  [ SwiftObjects; SwiftContainers; CinderSnapshots; CinderVolumes;
    CinderBackups; NeutronRouters; NeutronInterfaces; NeutronPorts;
    NeutronNetworks; NeutronSecgroups; NeutronFloatingIps; NovaServers;
    GlanceImages; CeilometerAlarms ].

(** [globals()[rc]]: the class of that name, [KeyError] when there is
    none. *)
Definition globals (rc : string) : option kind :=
  List.find (fun k => String.eqb (class_name k) rc) all_kinds.

(** ** Session *)

Record Session := {
  username : string;
  password : string;
  project_id : string;
  auth_url : string;
  region_name : option string;
  insecure : bool;
  token : string;
  user_id : string;
  project_name : string;
  endpoint_type : string;
  catalog : gmap string (list (gmap string string))
}.

Definition get_endpoint (self : Session) (service_type : string)
  : result string :=
  match catalog self !! service_type with
  | None => Raise (EndpointNotFound service_type)          (* KeyError *)
  | Some endpoints =>
      match endpoints !! 0%nat with
      | None => Raise (EndpointNotFound service_type)      (* IndexError *)
      | Some endpoint =>
          match endpoint !! endpoint_type self with
          | None => Raise (EndpointNotFound service_type)  (* KeyError *)
          | Some url => Ok url
          end
      end
  end.

(** An instance of a resources class: the class and the attributes its
    methods read. *)
Record Resources := {
  cls : kind;
  self_project_id : string
}.

(** [NeutronResources._owned_resource] *)
Definition _owned_resource (self : Resources) (r : resource) : Prop :=
  tenant_id r = self_project_id self.

(** [GlanceImages._owned_resource] *)
Definition GlanceImages_owned_resource (self : Resources) (r : resource)
  : Prop :=
  owner r = self_project_id self.

(** The local function [secgroup_filter] of [NeutronSecgroups.list]. *)
Definition secgroup_filter (self : Resources) (secgroup : resource) : Prop :=
  name secgroup ≠ "default" ∧ _owned_resource self secgroup.

Definition is_router_interface (port : resource) : Prop :=
  device_owner port = "network:router_interface".

Definition is_unbound_or_compute (port : resource) : Prop :=
  device_owner port = "" ∨ String.prefix "compute:" (device_owner port) = true.

#[global] Instance _owned_resource_dec self r : Decision (_owned_resource self r).
Proof. unfold _owned_resource. apply _. Defined.
#[global] Instance GlanceImages_owned_resource_dec self r :
  Decision (GlanceImages_owned_resource self r).
Proof. unfold GlanceImages_owned_resource. apply _. Defined.
#[global] Instance secgroup_filter_dec self r : Decision (secgroup_filter self r).
Proof. unfold secgroup_filter. apply _. Defined.
#[global] Instance is_router_interface_dec r : Decision (is_router_interface r).
Proof. unfold is_router_interface. apply _. Defined.
#[global] Instance is_unbound_or_compute_dec r :
  Decision (is_unbound_or_compute r).
Proof. unfold is_unbound_or_compute. apply _. Defined.

(** The format strings of the program are byte strings and the fields
    they format are text decoded from the answers of the services.
    Python 2 encodes such a field as ASCII and raises
    [UnicodeEncodeError] when it holds a character outside ASCII.  A
    character above 127 stands for such a character here. *)
Definition is_ascii_char (c : Ascii.ascii) : bool :=
  match c with
  | Ascii.Ascii _ _ _ _ _ _ _ b7 => negb b7
  end.

Fixpoint is_ascii (s : string) : bool :=
  match s with
  | EmptyString => true
  | String c s' => is_ascii_char c && is_ascii s'
  end.

(** Formatting [fields] into a byte string, [text] being what the
    format gives when it succeeds. *)
Definition format_text (fields : list string) (text : string)
  : result string :=
  if forallb is_ascii fields then Ok text else Raise UnicodeEncodeError.

(** [resource_str], per class. *)
Definition resource_str (k : kind) (r : resource) : result string :=
  match k with
  | SwiftObjects =>
      format_text [name r; container r]
        ("object " +:+ name r +:+ " in container " +:+ container r)
  | SwiftContainers => format_text [name r] ("container " +:+ name r)
  | CinderSnapshots =>
      format_text [display_name r; res_id r]
        ("snapshot " +:+ display_name r +:+ " (id " +:+ res_id r +:+ ")")
  | CinderVolumes =>
      format_text [display_name r; res_id r]
        ("volume " +:+ display_name r +:+ " (id " +:+ res_id r +:+ ")")
  | CinderBackups =>
      format_text [name r; res_id r; volume_id r]
        ("backup " +:+ name r +:+ " (id " +:+ res_id r +:+ ") of volume "
         +:+ volume_id r)
  | NeutronRouters =>
      format_text [name r; res_id r]
        ("router " +:+ name r +:+ " (id " +:+ res_id r +:+ ")")
  | NeutronInterfaces =>
      format_text [name r; res_id r]
        ("interface " +:+ name r +:+ " (id " +:+ res_id r +:+ ")")
  | NeutronPorts =>
      format_text [name r; res_id r]
        ("port " +:+ name r +:+ " (id " +:+ res_id r +:+ ")")
  | NeutronNetworks =>
      format_text [name r; res_id r]
        ("network " +:+ name r +:+ " (id " +:+ res_id r +:+ ")")
  | NeutronSecgroups =>
      format_text [name r; res_id r]
        ("security group " +:+ name r +:+ " (id " +:+ res_id r +:+ ")")
  | NeutronFloatingIps =>
      format_text [floating_ip_address r; res_id r]
        ("floating ip " +:+ floating_ip_address r +:+ " (id " +:+ res_id r
         +:+ ")")
  | NovaServers =>
      format_text [name r; res_id r]
        ("server " +:+ name r +:+ " (id " +:+ res_id r +:+ ")")
  | GlanceImages =>
      format_text [name r; res_id r]
        ("image " +:+ name r +:+ " (id " +:+ res_id r +:+ ")")
  | CeilometerAlarms => format_text [name r] ("alarm " +:+ name r)
  end.

(** ** The program over a backend *)

Section Program.

Context {W : Type} (B : Backend W).

(** *** Calls into the libraries, recorded as events *)

Definition keystone_client_Client (project : string) : M W AuthInfo :=
  fun s => let '(r, s') := authenticate B project s in
           Out r s' [EvAuthenticate project r].

Definition client_Client (lib : library) : M W unit :=
  fun s => let '(r, s') := new_client B lib s in Out r s' [EvNewClient lib r].

Definition client_list (q : listing) : M W (list resource) :=
  fun s => let '(r, s') := run_listing B q s in Out r s' [EvListing q r].

Definition client_call (q : request) : M W unit :=
  fun s => let '(r, s') := run_request B q s in Out r s' [EvRequest q r].

Definition keystone {A} (c : keystone_call) (reply : A -> keystone_reply)
    (run : W -> result A * W) : M W A :=
  fun s => let '(r, s') := run s in Out r s' [EvKeystone c (result_map reply r)].

Definition client_tenants_get (project : string) : M W Tenant :=
  keystone (tenants_get project) TenantReply (run_tenants_get B project).

Definition client_tenants_list : M W (list Tenant) :=
  keystone tenants_list TenantsReply (run_tenants_list B).

Definition client_tenants_update (project : string) (enable : bool)
  : M W Tenant :=
  keystone (tenants_update project enable) TenantReply
           (run_tenants_update B project enable).

Definition client_tenants_delete (project : string) : M W unit :=
  keystone (tenants_delete project) (fun _ => NoReply)
           (run_tenants_delete B project).

Definition client_roles_list : M W (list Role) :=
  keystone roles_list RolesReply (run_roles_list B).

Definition client_add_user_role (user role project : string) : M W unit :=
  keystone (add_user_role user role project) (fun _ => NoReply)
           (run_add_user_role B user role project).

Definition client_remove_user_role (user role project : string) : M W unit :=
  keystone (remove_user_role user role project) (fun _ => NoReply)
           (run_remove_user_role B user role project).

Definition time_sleep (seconds : Z) : M W unit :=
  fun s => Out (Ok tt) (elapse B seconds s) [EvSleep seconds].

(** *** Decorators *)

Definition retry_message (n : Z) : string :=
  "* Deletion failed - Retrying in " +:+ pretty TIMEOUT
  +:+ " seconds - Retry count " +:+ pretty n.

(** The [while True] loop of [retry]'s wrapper; [fuel] bounds the number
    of iterations the model follows. *)
Fixpoint retry_loop {A} (service_name : string) (func : M W A)
    (fuel : nat) (n : Z) (s : W) : option (outcome W A) :=
  match fuel with
  | O => None
  | S fuel' =>
      let o := func s in
      match res o with
      | Ok a => Some o
      | Raise e =>
          if is_Exception e then
            if n =? RETRIES then
              Some (Out (Raise (DeletionFailed service_name)) (final o)
                        (emitted o))
            else
              let n := n + 1 in
              let o' :=
                (logging_info (retry_message n) >>
                 time_sleep TIMEOUT) (final o) in
              prepend (emitted o ++ emitted o')
                <$> retry_loop service_name func fuel' n (final o')
          else Some o
      end
  end.

(** [retry(service_name)(func)].  The loop leaves within [RETRIES + 1]
    iterations (lemma [retry_never_falls_back]), so the last branch is
    never taken. *)
Definition retry {A} (service_name : string) (func : M W A) : M W A :=
  fun s =>
    match retry_loop service_name func (S (Z.to_nat RETRIES)) 0 s with
    | Some o => o
    | None => Out (Raise (DeletionFailed service_name)) s []
    end.

(** *** Resources classes *)

(** [__init__], per class. *)
Definition Resources_init (k : kind) (session : Session) : M W Resources :=
  let self := {| cls := k; self_project_id := project_id session |} in
  match k with
  | SwiftObjects | SwiftContainers =>
      lift_result (get_endpoint session "object-store") >>
      client_Client swiftclient >>
      ret self
  | CinderSnapshots | CinderVolumes | CinderBackups =>
      client_Client cinderclient >> ret self
  | NeutronRouters | NeutronInterfaces | NeutronPorts | NeutronNetworks
  | NeutronSecgroups | NeutronFloatingIps =>
      client_Client neutronclient >> ret self
  | NovaServers =>
      client_Client novaclient >> ret self
  | GlanceImages =>
      lift_result (get_endpoint session "image") >>
      client_Client glanceclient >>
      ret self
  | CeilometerAlarms =>
      lift_result (get_endpoint session "metering") >>
      client_Client ceilometerclient >>
      ret self
  end.

(** [SwiftResources.list_containers] *)
Definition list_containers : M W (list string) :=
  let* containers := client_list get_account in
  ret (name <$> containers).

(** The loop of [SwiftObjects.list]. *)
Fixpoint SwiftObjects_list_loop (conts : list string)
    (swift_objects : list resource) : M W (list resource) :=
  match conts with
  | [] => ret swift_objects
  | cont :: conts' =>
      let* objs := client_list (get_container cont) in
      SwiftObjects_list_loop conts'
        (swift_objects
         ++ ((fun obj => object_handle cont (name obj)) <$> objs))%list
  end.

Definition SwiftObjects_list : M W (list resource) :=
  let* conts := list_containers in
  SwiftObjects_list_loop conts [].

Definition SwiftContainers_list : M W (list resource) :=
  let* conts := list_containers in
  ret (container_handle <$> conts).

(** [NeutronResources.list_routers] *)
Definition NeutronResources_list_routers (self : Resources)
  : M W (list resource) :=
  let* routers := client_list list_routers in
  ret (filter (_owned_resource self) routers).

Definition NeutronInterfaces_list (self : Resources) : M W (list resource) :=
  let* ports := client_list list_ports in
  let all_ports := filter is_router_interface ports in
  ret (filter (_owned_resource self) all_ports).

Definition NeutronPorts_list (self : Resources) : M W (list resource) :=
  let* ports := client_list list_ports in
  let all_ports := filter is_unbound_or_compute ports in
  ret (filter (_owned_resource self) all_ports).

Definition NeutronNetworks_list (self : Resources) : M W (list resource) :=
  let* networks := client_list list_networks in
  ret (filter (_owned_resource self) networks).

(** The handler catches [NeutronClientException] and raises it again
    unless its status code is 404; the subclasses that carry another
    status code pass through it unchanged, as they do here. *)
Definition NeutronSecgroups_list (self : Resources) : M W (list resource) :=
  try_except
    (let* sgs := client_list list_security_groups in
     ret (filter (secgroup_filter self) sgs))
    (fun err =>
       match err with
       | NeutronClientException status_code =>
           Some (if status_code =? 404 then raise ResourceNotEnabled
                 else raise err)
       | _ => None
       end).

Definition NeutronFloatingIps_list (self : Resources) : M W (list resource) :=
  let* floatingips := client_list list_floatingips in
  ret (filter (_owned_resource self) floatingips).

(** The bare [except:] catches everything; the empty string it returns
    is iterated as the empty sequence. *)
Definition GlanceImages_list (self : Resources) : M W (list resource) :=
  try_except
    (let* images := client_list images_list in
     ret (filter (GlanceImages_owned_resource self) images))
    (fun _ => Some (ret [])).

Definition CeilometerAlarms_list (self : Resources) : M W (list resource) :=
  client_list (alarms_list (self_project_id self)).

(** [self.list()] *)
Definition Resources_list (self : Resources) : M W (list resource) :=
  match cls self with
  | SwiftObjects => SwiftObjects_list
  | SwiftContainers => SwiftContainers_list
  | CinderSnapshots => client_list volume_snapshots_list
  | CinderVolumes => client_list volumes_list
  | CinderBackups => client_list backups_list
  | NeutronRouters => NeutronResources_list_routers self
  | NeutronInterfaces => NeutronInterfaces_list self
  | NeutronPorts => NeutronPorts_list self
  | NeutronNetworks => NeutronNetworks_list self
  | NeutronSecgroups => NeutronSecgroups_list self
  | NeutronFloatingIps => NeutronFloatingIps_list self
  | NovaServers => client_list servers_list
  | GlanceImages => GlanceImages_list self
  | CeilometerAlarms => CeilometerAlarms_list self
  end.

(** [Resources.delete]: the informational message only; formatting
    the resource may raise. *)
Definition Resources_base_delete (self : Resources) (r : resource)
  : M W unit :=
  let* text := lift_result (resource_str (cls self) r) in
  logging_info ("* Deleting " +:+ text +:+ ".").

(** [self.delete(resource)] *)
Definition Resources_delete (self : Resources) (r : resource) : M W unit :=
  match cls self with
  | SwiftObjects =>
      Resources_base_delete self r >>
      client_call (delete_object (container r) (name r))
  | SwiftContainers =>
      Resources_base_delete self r >>
      client_call (delete_container (name r))
  | CinderSnapshots =>
      Resources_base_delete self r >>
      client_call (volume_snapshots_delete (res_id r))
  | CinderVolumes =>
      Resources_base_delete self r >>
      client_call (volumes_delete (res_id r))
  | CinderBackups =>
      Resources_base_delete self r >>
      client_call (backups_delete (res_id r))
  | NeutronRouters =>
      Resources_base_delete self r >>
      client_call (remove_gateway_router (res_id r)) >>
      client_call (delete_router (res_id r))
  | NeutronInterfaces =>
      (if decide (device_owner r = "network:router_interface")
       then client_call (update_router_no_routes (device_id r))
       else ret tt) >>
      Resources_base_delete self r >>
      client_call (remove_interface_router (device_id r) (res_id r))
  | NeutronPorts =>
      Resources_base_delete self r >>
      client_call (delete_port (res_id r))
  | NeutronNetworks =>
      Resources_base_delete self r >>
      client_call (delete_network (res_id r))
  | NeutronSecgroups =>
      Resources_base_delete self r >>
      client_call (delete_security_group (res_id r))
  | NeutronFloatingIps =>
      Resources_base_delete self r >>
      client_call (delete_floatingip (res_id r))
  | NovaServers =>
      Resources_base_delete self r >>
      client_call (servers_delete (res_id r))
  | GlanceImages =>
      client_call (images_update_unprotected (res_id r)) >>
      Resources_base_delete self r >>
      client_call (images_delete (res_id r))
  | CeilometerAlarms =>
      Resources_base_delete self r >>
      client_call (alarms_delete (res_id r))
  end.

(** [Resources.purge] *)
Definition purge (self : Resources) : M W unit :=
  let* resources := Resources_list self in
  let c_name := class_name (cls self) in
  logging_info ("* Purging " +:+ c_name) >>
  for_each resources (fun r => retry c_name (Resources_delete self r)).

(** [Resources.dump] *)
Definition dump (self : Resources) : M W unit :=
  let* resources := Resources_list self in
  let c_name := class_name (cls self) in
  print ("* Resources type: " +:+ c_name) >>
  for_each resources
    (fun r => let* text := lift_result (resource_str (cls self) r) in
              print text) >>
  print "".

(** *** Session construction *)

Definition Session_init (username password project_id auth_url : string)
    (endpoint_type : string) (region_name : option string) (insecure : bool)
  : M W Session :=
  let* client := keystone_client_Client project_id in
  ret {| username := username; password := password;
         project_id := project_id; auth_url := auth_url;
         region_name := region_name; insecure := insecure;
         token := auth_token client; user_id := auth_user_id client;
         project_name := auth_project_name client;
         endpoint_type := endpoint_type;
         catalog := service_catalog client |}.

(** *** perform_on_project *)

(** The classes named by the first [except] clause of the loop. *)
Definition ignored_exception (e : exn) : bool :=
  match e with
  | EndpointNotFound _
  | LibEndpointNotFound keystoneclient
  | LibEndpointNotFound neutronclient
  | LibEndpointNotFound cinderclient
  | LibEndpointNotFound novaclient
  | ResourceNotEnabled => true
  | _ => false
  end.

(** The classes named by the second [except] clause; the answer is
    [e.message]. *)
Definition invalid_endpoint_exception (e : exn) : option string :=
  match e with
  | LibInvalidEndpoint ceilometerclient message
  | LibInvalidEndpoint glanceclient message => Some message
  | _ => None
  end.

(** The body of the [try] statement in the loop; [EvClass rc] marks that
    the loop body is entered for [rc]. *)
Definition process_class (session : Session) (action : string) (rc : string)
  : M W unit :=
  emit (EvClass rc) >>
  match globals rc with
  | None => raise KeyError
  | Some k =>
      let* resources := Resources_init k session in
      if decide (action = "purge") then purge resources
      else if decide (action = "dump") then dump resources
      else raise KeyError
  end.

(** One iteration of the loop over [RESOURCES_CLASSES]: the [try]
    statement with its two handlers.  It returns the new value of the
    variable [error]. *)
Definition perform_on_class (session : Session) (action : string)
    (rc : string) (error : option exn) : M W (option exn) :=
  try_except
    (process_class session action rc >> ret error)
    (fun e =>
       if ignored_exception e then
         (* If service is not in Keystone's services catalog,
            ignoring it *)
         Some (ret error)
       else
         match invalid_endpoint_exception e with
         | Some message =>
             Some (logging_warning ("Unable to connect to " +:+ rc
                                    +:+ " endpoint : " +:+ message) >>
                   ret (Some (InvalidEndpoint rc)))
         | None => None
         end).

Fixpoint perform_loop (session : Session) (action : string)
    (rcs : list string) (error : option exn) : M W (option exn) :=
  match rcs with
  | [] => ret error
  | rc :: rcs' =>
      let* error := perform_on_class session action rc error in
      perform_loop session action rcs' error
  end.

Definition perform_on_project (admin_name password project auth_url : string)
    (endpoint_type : string) (region_name : option string)
    (action : string) (insecure : bool) : M W unit :=
  let* session := Session_init admin_name password project auth_url
                               endpoint_type region_name insecure in
  let* error := perform_loop session action RESOURCES_CLASSES None in
  match error with
  | Some e => raise e
  | None => ret tt
  end.

(** *** KeystoneManager *)

Record KeystoneManager := {
  client : AuthInfo;
  admin_role_id : option string;
  tenant_info : option Tenant
}.

Definition set_tenant_info (self : KeystoneManager) (t : Tenant)
  : KeystoneManager :=
  {| client := client self; admin_role_id := admin_role_id self;
     tenant_info := Some t |}.

Definition set_admin_role_id (self : KeystoneManager) (r : string)
  : KeystoneManager :=
  {| client := client self; admin_role_id := Some r;
     tenant_info := tenant_info self |}.

Definition KeystoneManager_init (username password project auth_url : string)
    (insecure : bool) (region_name : option string) : M W KeystoneManager :=
  let* c := keystone_client_Client project in
  ret {| client := c; admin_role_id := None; tenant_info := None |}.

(** The methods that assign attributes of [self] return the manager
    they leave. *)
Definition get_project_id (self : KeystoneManager)
    (project_name_or_id : option string) : M W (string * KeystoneManager) :=
  match project_name_or_id with
  | None => ret (auth_tenant_id (client self), self)
  | Some ref =>
      let* found :=
        try_except
          (let* t := client_tenants_get ref in
           (* If it doesn't raise an 404, project_name_or_id is
              already the project's id *)
           ret (ref, set_tenant_info self t))
          (fun e =>
             match e with
             | NotFound =>
                 Some (try_except
                         (let* tenants := client_tenants_list in
                          match filter (fun x => t_name x = ref) tenants with
                          | x :: _ => ret (t_id x, self)
                          | [] => raise IndexError
                          end)
                         (fun e' =>
                            match e' with
                            | IndexError => Some (raise (NoSuchProject ref))
                            | _ => None
                            end))
             | _ => None
             end) in
      let '(project_id, self) := found in
      match tenant_info self with
      | None =>
          let* t := client_tenants_get project_id in
          ret (project_id, set_tenant_info self t)
      | Some _ => ret (project_id, self)
      end
  end.

Definition enable_project (self : KeystoneManager) (project_id : string)
  : M W KeystoneManager :=
  logging_info ("* Enabling project " +:+ project_id +:+ ".") >>
  let* t := client_tenants_update project_id true in
  ret (set_tenant_info self t).

Definition disable_project (self : KeystoneManager) (project_id : string)
  : M W KeystoneManager :=
  logging_info ("* Disabling project " +:+ project_id +:+ ".") >>
  let* t := client_tenants_update project_id false in
  ret (set_tenant_info self t).

(** [not self.admin_role_id] holds of [None] and of the empty string. *)
Definition get_admin_role_id (self : KeystoneManager)
  : M W (string * KeystoneManager) :=
  match admin_role_id self with
  | Some r =>
      if decide (r = "") then
        let* roles := client_roles_list in
        match filter (fun x => role_name x = "admin") roles with
        | x :: _ => ret (role_id x, set_admin_role_id self (role_id x))
        | [] => raise IndexError
        end
      else ret (r, self)
  | None =>
      let* roles := client_roles_list in
      match filter (fun x => role_name x = "admin") roles with
      | x :: _ => ret (role_id x, set_admin_role_id self (role_id x))
      | [] => raise IndexError
      end
  end.

Definition become_project_admin (self : KeystoneManager) (project_id : string)
  : M W KeystoneManager :=
  let user_id := auth_user_id (client self) in
  let* got := get_admin_role_id self in
  let '(admin_role_id, self) := got in
  logging_info ("* Granting role admin to user " +:+ user_id
                +:+ " on project " +:+ project_id +:+ ".") >>
  client_add_user_role user_id admin_role_id project_id >>
  ret self.

Definition undo_become_project_admin (self : KeystoneManager)
    (project_id : string) : M W KeystoneManager :=
  let user_id := auth_user_id (client self) in
  let* got := get_admin_role_id self in
  let '(admin_role_id, self) := got in
  logging_info ("* Removing role admin to user " +:+ user_id
                +:+ " on project " +:+ project_id +:+ ".") >>
  client_remove_user_role user_id admin_role_id project_id >>
  ret self.

Definition delete_project (self : KeystoneManager) (project_id : string)
  : M W unit :=
  logging_info ("* Deleting project " +:+ project_id +:+ ".") >>
  client_tenants_delete project_id.

(** *** main *)

(** The namespace [parse_args] returns. *)
Record Args := {
  verbose : bool;
  dry_run : bool;
  dont_delete_project : bool;
  arg_region_name : option string;
  arg_endpoint_type : string;
  arg_username : string;
  arg_password : string;
  admin_project : string;
  arg_auth_url : string;
  cleanup_project : option string;
  own_project : bool;
  arg_insecure : bool
}.

Definition sys_exit {A} (code : Z) : M W A := raise (SystemExit code).

(** Truth value of [args.cleanup_project]: [None] and the empty string
    are false. *)
Definition truthy (o : option string) : bool :=
  match o with
  | Some s => negb (String.eqb s "")
  | None => false
  end.

(** The two checks that end [parse_args]; [parser.error] leaves with
    status 2. *)
Definition parse_args_checks (args : Args) : M W unit :=
  (if negb (truthy (cleanup_project args) || own_project args)
   then sys_exit 2 else ret tt) >>
  (if truthy (cleanup_project args) && own_project args
   then sys_exit 2 else ret tt).

(** The inner [try] statement of the elevation, with its [else]
    clause: the answer is the new value of
    [remove_admin_role_after_purge].  After a [Conflict] the manager is
    the one from before the call: the only attribute the call may have
    assigned is the cached role id, which is not read again on that
    path. *)
Definition try_become_project_admin (keystone_manager : KeystoneManager)
    (cleanup_project_id : string) : M W (bool * KeystoneManager) :=
  try_except
    (let* km := become_project_admin keystone_manager cleanup_project_id in
     (* else: *) ret (true, km))
    (fun e =>
       match e with
       | Conflict =>
           (* user was already admin on the target project. *)
           Some (ret (false, keystone_manager))
       | _ => None
       end).

(** The first [try] statement of [main] after the manager is built: it
    resolves the project and, unless the project purged is the caller's
    own, elevates.  It returns
    [(cleanup_project_id, remove_admin_role_after_purge,
      disable_project_after_purge)] and the manager. *)
Definition elevate (args : Args) (keystone_manager : KeystoneManager)
  : M W (string * bool * bool * KeystoneManager) :=
  let* got := get_project_id keystone_manager (cleanup_project args) in
  let '(cleanup_project_id, keystone_manager) := got in
  if negb (own_project args) then
    let* granted :=
      try_become_project_admin keystone_manager cleanup_project_id in
    let '(remove_admin_role_after_purge, keystone_manager) := granted in
    (* If the project was enabled before the purge, do not disable it
       after the purge *)
    match tenant_info keystone_manager with
    | None => raise AttributeError
    | Some info =>
        let disable_project_after_purge := negb (enabled info) in
        if disable_project_after_purge then
          (* The project is currently disabled so we need to enable it
             in order to delete resources of the project *)
          let* keystone_manager :=
            enable_project keystone_manager cleanup_project_id in
          ret (cleanup_project_id, remove_admin_role_after_purge,
               disable_project_after_purge, keystone_manager)
        else
          ret (cleanup_project_id, remove_admin_role_after_purge,
               disable_project_after_purge, keystone_manager)
    end
  else
    ret (cleanup_project_id, false, false, keystone_manager).

(** The [try] statement under [# Proper cleanup]. *)
Definition proper_cleanup (args : Args) (cleanup_project_id : string)
  : M W unit :=
  try_except
    (let action := if dry_run args then "dump" else "purge" in
     perform_on_project (arg_username args) (arg_password args)
       cleanup_project_id (arg_auth_url args) (arg_endpoint_type args)
       (arg_region_name args) action (arg_insecure args))
    (fun exc =>
       match exc with
       | ConnectionError msg =>
           Some (print ("Connection error: " +:+ msg) >>
                 sys_exit CONNECTION_ERROR_CODE)
       | DeletionFailed what | InvalidEndpoint what =>
           Some (print ("Deletion of " +:+ what +:+ " failed") >>
                 print "*Warning* Some resources may not have been cleaned up"
                 >> sys_exit DeletionFailed_ERROR_CODE)
       | _ => None
       end).

(** The [else] branch that ends [main]: the project is not deleted. *)
Definition unwind (keystone_manager : KeystoneManager)
    (cleanup_project_id : string)
    (remove_admin_role_after_purge disable_project_after_purge : bool)
  : M W unit :=
  (* Project is not deleted, we may want to disable the project
     this must happen before we remove the admin role *)
  let* keystone_manager :=
    (if disable_project_after_purge
     then disable_project keystone_manager cleanup_project_id
     else ret keystone_manager) in
  (* We may also want to remove ourself from the purged project *)
  (if remove_admin_role_after_purge
   then undo_become_project_admin keystone_manager cleanup_project_id >>
        ret tt
   else ret tt).

Definition deletes_project (args : Args) : bool :=
  negb (dry_run args) && negb (dont_delete_project args)
  && negb (own_project args).

(** [main] up to the purge: the checks of [parse_args], the manager and
    the elevation, each [try] with its handlers. *)
Definition setup (args : Args)
  : M W (string * bool * bool * KeystoneManager) :=
  parse_args_checks args >>
  let* keystone_manager :=
    try_except
      (KeystoneManager_init (arg_username args) (arg_password args)
         (admin_project args) (arg_auth_url args) (arg_insecure args)
         (arg_region_name args))
      (fun exc =>
         match exc with
         | Unauthorized msg =>
             Some (print ("Authentication failed: " +:+ msg) >>
                   sys_exit AUTHENTICATION_FAILED_ERROR_CODE)
         | _ => None
         end) in
  try_except
    (elevate args keystone_manager)
    (fun exc =>
       match exc with
       | Forbidden msg =>
           Some (print ("Not authorized: " +:+ msg) >>
                 sys_exit NOT_AUTHORIZED)
       | NoSuchProject p =>
           Some (print ("Project " +:+ p +:+ " doesn't exist") >>
                 sys_exit NoSuchProject_ERROR_CODE)
       | _ => None
       end).

(** [main] after the purge. *)
Definition finish (args : Args) (keystone_manager : KeystoneManager)
    (cleanup_project_id : string)
    (remove_admin_role_after_purge disable_project_after_purge : bool)
  : M W unit :=
  (if deletes_project args
   then delete_project keystone_manager cleanup_project_id
   else unwind keystone_manager cleanup_project_id
               remove_admin_role_after_purge disable_project_after_purge) >>
  sys_exit 0.

Definition main (args : Args) : M W unit :=
  let* elevated := setup args in
  let '(cleanup_project_id, remove_admin_role_after_purge,
        disable_project_after_purge, keystone_manager) := elevated in
  proper_cleanup args cleanup_project_id >>
  finish args keystone_manager cleanup_project_id
         remove_admin_role_after_purge disable_project_after_purge.

End Program.

Arguments retry_loop {W} B {A} service_name func fuel n s.
Arguments retry {W} B {A} service_name func s.

(** ** A small cloud to run the program on

    One project, a keystone that knows one user, listings that answer
    with what is alive, deletions that fail a set number of times before
    they go through. *)

#[global] Instance listing_eq_dec : EqDecision listing.
Proof. solve_decision. Defined.
#[global] Instance request_eq_dec : EqDecision request.
Proof. solve_decision. Defined.

(** Lookup and update in a list of pairs: the first pair with the key
    counts, an update puts its pair first. *)
Definition assoc {K V} `{EqDecision K} (k : K) (l : list (K * V)) : option V :=
  snd <$> List.find (fun p => bool_decide (p.1 = k)) l.

Definition assoc_set {K V} `{EqDecision K} (k : K) (v : V) (l : list (K * V))
  : list (K * V) :=
  (k, v) :: List.filter (fun p => negb (bool_decide (p.1 = k))) l.

Record Cloud := {
  cloud_catalog : gmap string (list (gmap string string));
  cloud_tenant : Tenant;
  cloud_tenant_deleted : bool;
  cloud_user_is_admin : bool;
  cloud_roles : list Role;
  cloud_alive : list (listing * list resource);
  cloud_listing_errors : list (listing * exn);
  cloud_client_errors : list (library * exn);
  (* how many more times each request fails *)
  cloud_failures : list (request * nat)
}.

Definition with_alive (c : Cloud) (alive : list (listing * list resource))
  : Cloud :=
  {| cloud_catalog := cloud_catalog c; cloud_tenant := cloud_tenant c;
     cloud_tenant_deleted := cloud_tenant_deleted c;
     cloud_user_is_admin := cloud_user_is_admin c;
     cloud_roles := cloud_roles c; cloud_alive := alive;
     cloud_listing_errors := cloud_listing_errors c;
     cloud_client_errors := cloud_client_errors c;
     cloud_failures := cloud_failures c |}.

Definition with_failures (c : Cloud) (failures : list (request * nat))
  : Cloud :=
  {| cloud_catalog := cloud_catalog c; cloud_tenant := cloud_tenant c;
     cloud_tenant_deleted := cloud_tenant_deleted c;
     cloud_user_is_admin := cloud_user_is_admin c;
     cloud_roles := cloud_roles c; cloud_alive := cloud_alive c;
     cloud_listing_errors := cloud_listing_errors c;
     cloud_client_errors := cloud_client_errors c;
     cloud_failures := failures |}.

Definition with_keystone (c : Cloud) (t : Tenant) (deleted admin : bool)
  : Cloud :=
  {| cloud_catalog := cloud_catalog c; cloud_tenant := t;
     cloud_tenant_deleted := deleted;
     cloud_user_is_admin := admin;
     cloud_roles := cloud_roles c; cloud_alive := cloud_alive c;
     cloud_listing_errors := cloud_listing_errors c;
     cloud_client_errors := cloud_client_errors c;
     cloud_failures := cloud_failures c |}.

(** The listing a deletion removes from, and the key of what it
    removes. *)
Definition removes (q : request) : option (listing * string) :=
  match q with
  | delete_object cont obj => Some (get_container cont, obj)
  | delete_container cont => Some (get_account, cont)
  | volume_snapshots_delete i => Some (volume_snapshots_list, i)
  | volumes_delete i => Some (volumes_list, i)
  | backups_delete i => Some (backups_list, i)
  | delete_router i => Some (list_routers, i)
  | remove_interface_router _ p => Some (list_ports, p)
  | delete_port p => Some (list_ports, p)
  | delete_network i => Some (list_networks, i)
  | delete_security_group i => Some (list_security_groups, i)
  | delete_floatingip i => Some (list_floatingips, i)
  | servers_delete i => Some (servers_list, i)
  | images_delete i => Some (images_list, i)
  | alarms_delete _
  | remove_gateway_router _
  | update_router_no_routes _
  | images_update_unprotected _ => None
  end.

(** Swift names its objects and containers; the rest has ids. *)
Definition key_of (q : listing) (r : resource) : string :=
  match q with
  | get_account | get_container _ => name r
  | _ => res_id r
  end.

Definition cloud_list (q : listing) (c : Cloud)
  : result (list resource) * Cloud :=
  match assoc q (cloud_listing_errors c) with
  | Some e => (Raise e, c)
  | None => (Ok (default [] (assoc q (cloud_alive c))), c)
  end.

Definition cloud_request (q : request) (c : Cloud) : result unit * Cloud :=
  match assoc q (cloud_failures c) with
  | Some (S k) =>
      (Raise (OtherException "ClientException"),
       with_failures c (assoc_set q k (cloud_failures c)))
  | _ =>
      match removes q with
      | Some (l, key) =>
          let rest :=
            filter (fun r => key_of l r ≠ key)
                   (default [] (assoc l (cloud_alive c))) in
          (Ok tt, with_alive c (assoc_set l rest (cloud_alive c)))
      | None => (Ok tt, c)
      end
  end.

Definition cloud_user : string := "operator".

Definition cloud_authenticate (project : string) (c : Cloud)
  : result AuthInfo * Cloud :=
  if cloud_tenant_deleted c then (Raise (Unauthorized "no such tenant"), c)
  else
    (Ok {| auth_token := "token"; auth_user_id := cloud_user;
           auth_tenant_id := "admin-project-id";
           auth_project_name := project;
           service_catalog := cloud_catalog c |}, c).

Definition cloud_tenants_get (ref : string) (c : Cloud)
  : result Tenant * Cloud :=
  if decide (ref = t_id (cloud_tenant c)) then (Ok (cloud_tenant c), c)
  else (Raise NotFound, c).

Definition cloud_tenants_update (ref : string) (enable : bool) (c : Cloud)
  : result Tenant * Cloud :=
  if decide (ref = t_id (cloud_tenant c)) then
    let t := {| t_id := t_id (cloud_tenant c);
                t_name := t_name (cloud_tenant c); enabled := enable |} in
    (Ok t, with_keystone c t (cloud_tenant_deleted c) (cloud_user_is_admin c))
  else (Raise NotFound, c).

Definition cloud_tenants_delete (ref : string) (c : Cloud)
  : result unit * Cloud :=
  if decide (ref = t_id (cloud_tenant c)) then
    (Ok tt, with_keystone c (cloud_tenant c) true (cloud_user_is_admin c))
  else (Raise NotFound, c).

Definition cloud_add_user_role (user role project : string) (c : Cloud)
  : result unit * Cloud :=
  if cloud_user_is_admin c then (Raise Conflict, c)
  else (Ok tt, with_keystone c (cloud_tenant c) (cloud_tenant_deleted c) true).

Definition cloud_remove_user_role (user role project : string) (c : Cloud)
  : result unit * Cloud :=
  if cloud_user_is_admin c
  then (Ok tt, with_keystone c (cloud_tenant c) (cloud_tenant_deleted c) false)
  else (Raise NotFound, c).

Definition cloud : Backend Cloud :=
  {| authenticate := cloud_authenticate;
     new_client := fun lib c =>
       match assoc lib (cloud_client_errors c) with
       | Some e => (Raise e, c)
       | None => (Ok tt, c)
       end;
     run_listing := cloud_list;
     run_request := cloud_request;
     run_tenants_get := cloud_tenants_get;
     run_tenants_list := fun c => (Ok [cloud_tenant c], c);
     run_tenants_update := cloud_tenants_update;
     run_tenants_delete := cloud_tenants_delete;
     run_roles_list := fun c => (Ok (cloud_roles c), c);
     run_add_user_role := cloud_add_user_role;
     run_remove_user_role := cloud_remove_user_role;
     elapse := fun _ c => c |}.

Definition res_ (i n t : string) : resource :=
  {| res_id := i; name := n; display_name := n; tenant_id := t;
     owner := t; device_owner := ""; device_id := ""; volume_id := "";
     floating_ip_address := ""; container := "" |}.

Definition endpoints (url : string) : list (gmap string string) :=
  [ {[ "publicURL" := url ]} ].

(** A project [p1] with two servers, a floating ip, two security groups
    (one of them the default one) and an image; disabled, and the
    operator is not its admin. *)
Definition cloud0 : Cloud :=
  {| cloud_catalog :=
       {[ "object-store" := endpoints "http://swift";
          "image" := endpoints "http://glance" ]};
     cloud_tenant := {| t_id := "p1"; t_name := "tenant"; enabled := false |};
     cloud_tenant_deleted := false;
     cloud_user_is_admin := false;
     cloud_roles := [ {| role_id := "r0"; role_name := "member" |};
                      {| role_id := "r1"; role_name := "admin" |} ];
     cloud_alive :=
       [ (servers_list, [res_ "s1" "web" "p1"; res_ "s2" "db" "p1"]);
         (list_floatingips, [res_ "f1" "" "p1"; res_ "f2" "" "p2"]);
         (list_security_groups,
          [res_ "g0" "default" "p1"; res_ "g1" "ssh" "p1";
           res_ "g2" "ssh" "p2"]);
         (images_list, [res_ "i1" "cirros" "p1"]) ];
     cloud_listing_errors := [];
     cloud_client_errors := [];
     cloud_failures := [] |}.

Definition args0 : Args :=
  {| verbose := false; dry_run := false; dont_delete_project := true;
     arg_region_name := None; arg_endpoint_type := "publicURL";
     arg_username := "operator"; arg_password := "secret";
     admin_project := "admin"; arg_auth_url := "http://keystone";
     cleanup_project := Some "tenant"; own_project := false;
     arg_insecure := false |}.

Definition nova : Resources :=
  {| cls := NovaServers; self_project_id := "p1" |}.

(** [cloud0] where deleting server [s1] fails [n] times. *)
Definition flaky (n : nat) : Cloud :=
  with_failures cloud0 [(servers_delete "s1", n)].

Definition with_listing_errors (c : Cloud) (errors : list (listing * exn))
  : Cloud :=
  {| cloud_catalog := cloud_catalog c; cloud_tenant := cloud_tenant c;
     cloud_tenant_deleted := cloud_tenant_deleted c;
     cloud_user_is_admin := cloud_user_is_admin c;
     cloud_roles := cloud_roles c; cloud_alive := cloud_alive c;
     cloud_listing_errors := errors;
     cloud_client_errors := cloud_client_errors c;
     cloud_failures := cloud_failures c |}.

Definition with_client_errors (c : Cloud) (errors : list (library * exn))
  : Cloud :=
  {| cloud_catalog := cloud_catalog c; cloud_tenant := cloud_tenant c;
     cloud_tenant_deleted := cloud_tenant_deleted c;
     cloud_user_is_admin := cloud_user_is_admin c;
     cloud_roles := cloud_roles c; cloud_alive := cloud_alive c;
     cloud_listing_errors := cloud_listing_errors c;
     cloud_client_errors := errors;
     cloud_failures := cloud_failures c |}.

(** [cloud0] with an image service that cannot be reached. *)
Definition glance_unreachable : Cloud :=
  with_listing_errors cloud0
    [(images_list,
      LibInvalidEndpoint glanceclient "Error finding address for glance")].

(** [cloud0] where server [s2] cannot be deleted. *)
Definition stubborn : Cloud :=
  with_failures cloud0 [(servers_delete "s2", 11%nat)].

(** [cloud0] without a network service: the neutron client finds no
    endpoint. *)
Definition no_network : Cloud :=
  with_listing_errors cloud0
    [(list_floatingips, LibEndpointNotFound neutronclient);
     (list_ports, LibEndpointNotFound neutronclient);
     (list_routers, LibEndpointNotFound neutronclient);
     (list_networks, LibEndpointNotFound neutronclient);
     (list_security_groups, LibEndpointNotFound neutronclient)].

(** [cloud0] where neutron has no security group extension: the
    listing answers 404. *)
Definition secgroups_disabled : Cloud :=
  with_listing_errors cloud0
    [(list_security_groups, NeutronClientException 404)].

(** [cloud0] where the image client rejects its endpoint and the
    listing of the volumes reports an invalid endpoint as well. *)
Definition two_rejected : Cloud :=
  with_listing_errors
    (with_client_errors cloud0
       [(glanceclient, LibInvalidEndpoint glanceclient "Invalid scheme")])
    [(volumes_list, LibInvalidEndpoint glanceclient "Invalid scheme")].

(** [cloud0] where the image client rejects its endpoint. *)
Definition glance_rejected : Cloud :=
  with_client_errors cloud0
    [(glanceclient, LibInvalidEndpoint glanceclient "Invalid scheme")].

(** The manager [main] holds after its setup on [cloud0] with [args0]:
    the role id is cached and the project was enabled. *)
Definition manager0 : KeystoneManager :=
  {| client := {| auth_token := "token"; auth_user_id := cloud_user;
                  auth_tenant_id := "admin-project-id";
                  auth_project_name := "admin";
                  service_catalog := cloud_catalog cloud0 |};
     admin_role_id := Some "r1";
     tenant_info :=
       Some {| t_id := "p1"; t_name := "tenant"; enabled := true |} |}.

(** [cloud0] with the project enabled and the operator already its
    admin, and the manager [main] holds after its setup there. *)
Definition settled : Cloud :=
  with_keystone cloud0
    {| t_id := "p1"; t_name := "tenant"; enabled := true |} false true.

Definition manager1 : KeystoneManager :=
  {| client := {| auth_token := "token"; auth_user_id := cloud_user;
                  auth_tenant_id := "admin-project-id";
                  auth_project_name := "admin";
                  service_catalog := cloud_catalog cloud0 |};
     admin_role_id := None;
     tenant_info :=
       Some {| t_id := "p1"; t_name := "tenant"; enabled := true |} |}.

(** The session [perform_on_project] builds on these clouds. *)
Definition session0 : Session :=
  {| username := "operator"; password := "secret"; project_id := "p1";
     auth_url := "http://keystone"; region_name := None; insecure := false;
     token := "token"; user_id := cloud_user; project_name := "p1";
     endpoint_type := "publicURL"; catalog := cloud_catalog cloud0 |}.

Definition glance : Resources :=
  {| cls := GlanceImages; self_project_id := "p1" |}.



(** A port of project [t] with a device owner. *)
Definition port_ (i t downer device : string) : resource :=
  {| res_id := i; name := ""; display_name := ""; tenant_id := t;
     owner := ""; device_owner := downer; device_id := device;
     volume_id := ""; floating_ip_address := ""; container := "" |}.

(** [cloud0] with five ports: an interface of router [r9], a port bound
    to a server, an unbound one, the port of a dhcp agent and an
    interface of another project. *)
Definition wired : Cloud :=
  with_alive cloud0
    [(list_ports,
      [port_ "q1" "p1" "network:router_interface" "r9";
       port_ "q2" "p1" "compute:nova" "s1";
       port_ "q3" "p1" "" "";
       port_ "q4" "p1" "network:dhcp" "d1";
       port_ "q5" "p2" "network:router_interface" "r8"])].

(** [cloud0] with two containers in the object store, of two and one
    objects. *)
Definition stocked : Cloud :=
  with_alive cloud0
    [(get_account, [res_ "" "logs" ""; res_ "" "www" ""]);
     (get_container "logs", [res_ "" "a.log" ""; res_ "" "b.log" ""]);
     (get_container "www", [res_ "" "index.html" ""])].

(** * Vocabulary of the properties *)

Definition sleeps (evs : list event) : list Z :=
  omap (fun ev => match ev with EvSleep z => Some z | _ => None end) evs.

Definition requests (evs : list event) : list request :=
  omap (fun ev => match ev with EvRequest q _ => Some q | _ => None end) evs.

(** The classes for which the loop of [perform_on_project] was entered,
    in order. *)
Definition classes_entered (evs : list event) : list string :=
  omap (fun ev => match ev with EvClass rc => Some rc | _ => None end) evs.

Definition keystone_calls (evs : list event) : list keystone_call :=
  omap (fun ev => match ev with EvKeystone c _ => Some c | _ => None end) evs.

(** The keystone calls that change something. *)
Definition is_mutation (c : keystone_call) : bool :=
  match c with
  | tenants_update _ _ | tenants_delete _
  | add_user_role _ _ _ | remove_user_role _ _ _ => true
  | tenants_get _ | tenants_list | roles_list => false
  end.

Definition mutations (evs : list event) : list keystone_call :=
  List.filter is_mutation (keystone_calls evs).

(** What the calls granting a role answered, in order. *)
Definition grant_outcomes (evs : list event) : list (result keystone_reply) :=
  omap (fun ev => match ev with
                  | EvKeystone (add_user_role _ _ _) r => Some r
                  | _ => None
                  end) evs.

(** The tenants that [tenants.get] returned, in order. *)
Definition tenant_reports (evs : list event) : list Tenant :=
  omap (fun ev => match ev with
                  | EvKeystone (tenants_get _) (Ok (TenantReply t)) => Some t
                  | _ => None
                  end) evs.

(** Every role granted is revoked and every project enabled is disabled
    again, within the same run. *)
Definition unwinds_what_it_acquired (evs : list event) : Prop :=
  (forall u ro p,
      EvKeystone (add_user_role u ro p) (Ok NoReply) ∈ evs ->
      exists x, EvKeystone (remove_user_role u ro p) x ∈ evs)
  /\ (forall p t,
        EvKeystone (tenants_update p true) (Ok t) ∈ evs ->
        exists x, EvKeystone (tenants_update p false) x ∈ evs).

(** The calls of the unwinding, for the flags [main] keeps. *)
Definition unwind_calls (user ro project : string)
    (remove_admin_role_after_purge disable_project_after_purge : bool)
  : list keystone_call :=
  ((if disable_project_after_purge
    then [tenants_update project false] else [])
   ++ (if remove_admin_role_after_purge
       then [remove_user_role user ro project] else []))%list.

(** [ro] is the id of the first role named admin in an answer to
    [roles.list] among the events. *)
Definition admin_role_listed (ro : string) (evs : list event) : Prop :=
  exists roles x,
    EvKeystone roles_list (Ok (RolesReply roles)) ∈ evs
    /\ head (filter (fun y => role_name y = "admin") roles) = Some x
    /\ ro = role_id x.

Definition not_keystone (ev : event) : Prop :=
  match ev with
  | EvKeystone _ _ => False
  | _ => True
  end.

(** What the [try] statement around [perform_on_project] raises when
    [perform_on_project] raises [e]. *)
Definition purge_failure (e : exn) : exn :=
  match e with
  | ConnectionError _ => SystemExit CONNECTION_ERROR_CODE
  | DeletionFailed _ | InvalidEndpoint _ =>
      SystemExit DeletionFailed_ERROR_CODE
  | _ => e
  end.

(** An event of a resources class at work: no loop marker, no keystone
    call, and only requests that satisfy [R]. *)
Definition class_event (R : request -> Prop) (ev : event) : Prop :=
  match ev with
  | EvRequest q _ => R q
  | EvClass _ | EvKeystone _ _ | EvAuthenticate _ _ => False
  | _ => True
  end.

(** The requests [Resources_delete] may issue for resource [r] of class
    [k], as far as security groups go: only the class of security groups
    deletes one, and only the one it was handed. *)
Definition issued_for (k : kind) (r : resource) (q : request) : Prop :=
  match q with
  | delete_security_group i => k = NeutronSecgroups /\ i = res_id r
  | _ => True
  end.

(** Every security group deleted was in an answer of the backend to
    [list_security_groups], under a name other than [default] and owned
    by [project]. *)
Definition secgroup_deletions_listed (project : string) (evs : list event)
  : Prop :=
  forall i r, EvRequest (delete_security_group i) r ∈ evs ->
    exists sgs sg,
      EvListing list_security_groups (Ok sgs) ∈ evs /\ sg ∈ sgs
      /\ res_id sg = i /\ name sg <> "default" /\ tenant_id sg = project.

(** Every event [m] emits, from whatever state, satisfies [Q]. *)
Definition emits {W A} (Q : event -> Prop) (m : M W A) : Prop :=
  forall s, Forall Q (emitted (m s)).

(** How the loop of [perform_on_project] treats what a class raises. *)
Inductive verdict :=
| Completed
| Skipped
| SoftFailed
| Fatal (e : exn).

Definition classify (r : result unit) : verdict :=
  match r with
  | Ok _ => Completed
  | Raise e =>
      if ignored_exception e then Skipped
      else match invalid_endpoint_exception e with
           | Some _ => SoftFailed
           | None => Fatal e
           end
  end.

Definition is_Fatal (v : verdict) : bool :=
  match v with
  | Fatal _ => true
  | _ => false
  end.

(** The classes that soft-failed, in order. *)
Definition soft_failed (vs : list (string * verdict)) : list string :=
  omap (fun '(rc, v) => match v with SoftFailed => Some rc | _ => None end) vs.

(** The value of the variable [error] after a pass with verdicts [vs]
    that started with [error]: the last soft failure wins. *)
Definition surfaced (vs : list (string * verdict)) (error : option exn)
  : option exn :=
  match last (soft_failed vs) with
  | Some rc => Some (InvalidEndpoint rc)
  | None => error
  end.

Section RunVocabulary.

Context {W : Type} (B : Backend W).

(** The verdict on each class of [rcs] as the run reaches it, up to and
    including the first fatal one. *)
Fixpoint verdicts (session : Session) (action : string) (rcs : list string)
    (s : W) : list (string * verdict) :=
  match rcs with
  | [] => []
  | rc :: rcs' =>
      let o := process_class B session action rc s in
      let v := classify (res o) in
      (rc, v) :: (if is_Fatal v then []
                  else verdicts session action rcs' (final o))
  end.

End RunVocabulary.

Section RetryVocabulary.

Context {W A : Type} (B : Backend W).
Variable func : M W A.

(** The state in which the call is made for the [i]-th time after the
    first, when every earlier call failed: the wrapper sleeps between
    two calls. *)
Fixpoint attempt_state (i : nat) (s : W) : W :=
  match i with
  | O => s
  | S i' => attempt_state i' (elapse B TIMEOUT (final (func s)))
  end.

(** What [k] failed calls and the wrapper's reaction to each emit. *)
Fixpoint retry_events (k : nat) (n : Z) (s : W) : list event :=
  match k with
  | O => []
  | S k' =>
      emitted (func s)
      ++ [EvLog INFO (retry_message (n + 1)); EvSleep TIMEOUT]
      ++ retry_events k' (n + 1) (elapse B TIMEOUT (final (func s)))
  end.

Definition fails (s : W) : Prop :=
  exists e, res (func s) = Raise e /\ is_Exception e = true.

(** The call never sleeps by itself. *)
Definition quiet : Prop := forall s, sleeps (emitted (func s)) = [].

End RetryVocabulary.

(** ** Vocabulary of the further properties *)

(** The calls [self.delete(r)] makes for a resource [r] of class [k], in
    the order it makes them; the last one is the deletion proper. *)
Definition delete_requests (k : kind) (r : resource) : list request :=
  match k with
  | SwiftObjects => [delete_object (container r) (name r)]
  | SwiftContainers => [delete_container (name r)]
  | CinderSnapshots => [volume_snapshots_delete (res_id r)]
  | CinderVolumes => [volumes_delete (res_id r)]
  | CinderBackups => [backups_delete (res_id r)]
  | NeutronRouters =>
      [remove_gateway_router (res_id r); delete_router (res_id r)]
  | NeutronInterfaces =>
      ((if decide (device_owner r = "network:router_interface")
        then [update_router_no_routes (device_id r)] else [])
       ++ [remove_interface_router (device_id r) (res_id r)])%list
  | NeutronPorts => [delete_port (res_id r)]
  | NeutronNetworks => [delete_network (res_id r)]
  | NeutronSecgroups => [delete_security_group (res_id r)]
  | NeutronFloatingIps => [delete_floatingip (res_id r)]
  | NovaServers => [servers_delete (res_id r)]
  | GlanceImages =>
      [images_update_unprotected (res_id r); images_delete (res_id r)]
  | CeilometerAlarms => [alarms_delete (res_id r)]
  end.

Definition deletion_call (k : kind) (r : resource) : request :=
  match k with
  | SwiftObjects => delete_object (container r) (name r)
  | SwiftContainers => delete_container (name r)
  | CinderSnapshots => volume_snapshots_delete (res_id r)
  | CinderVolumes => volumes_delete (res_id r)
  | CinderBackups => backups_delete (res_id r)
  | NeutronRouters => delete_router (res_id r)
  | NeutronInterfaces => remove_interface_router (device_id r) (res_id r)
  | NeutronPorts => delete_port (res_id r)
  | NeutronNetworks => delete_network (res_id r)
  | NeutronSecgroups => delete_security_group (res_id r)
  | NeutronFloatingIps => delete_floatingip (res_id r)
  | NovaServers => servers_delete (res_id r)
  | GlanceImages => images_delete (res_id r)
  | CeilometerAlarms => alarms_delete (res_id r)
  end.

(** The requests that raised, and those that returned. *)
Definition failed_requests (evs : list event) : list request :=
  omap (fun ev => match ev with
                  | EvRequest q (Raise _) => Some q
                  | _ => None
                  end) evs.

Definition succeeded (evs : list event) : list request :=
  omap (fun ev => match ev with
                  | EvRequest q (Ok _) => Some q
                  | _ => None
                  end) evs.

Definition listings (evs : list event) : list listing :=
  omap (fun ev => match ev with EvListing q _ => Some q | _ => None end) evs.

Definition is_listing_event (ev : event) : Prop :=
  match ev with
  | EvListing _ _ => True
  | _ => False
  end.

Definition no_request (ev : event) : Prop :=
  match ev with
  | EvRequest _ _ => False
  | _ => True
  end.

(** The class that issues a request. *)
Definition issuer (q : request) : kind :=
  match q with
  | delete_object _ _ => SwiftObjects
  | delete_container _ => SwiftContainers
  | volume_snapshots_delete _ => CinderSnapshots
  | volumes_delete _ => CinderVolumes
  | backups_delete _ => CinderBackups
  | remove_gateway_router _ | delete_router _ => NeutronRouters
  | update_router_no_routes _ | remove_interface_router _ _ =>
      NeutronInterfaces
  | delete_port _ => NeutronPorts
  | delete_network _ => NeutronNetworks
  | delete_security_group _ => NeutronSecgroups
  | delete_floatingip _ => NeutronFloatingIps
  | servers_delete _ => NovaServers
  | images_update_unprotected _ | images_delete _ => GlanceImages
  | alarms_delete _ => CeilometerAlarms
  end.

(** The place of a class in [RESOURCES_CLASSES]; 13 for the class that
    is not in it. *)
Definition plan_position (k : kind) : nat :=
  match k with
  | CinderSnapshots => 0
  | CinderBackups => 1
  | NovaServers => 2
  | NeutronFloatingIps => 3
  | NeutronInterfaces => 4
  | NeutronRouters => 5
  | NeutronPorts => 6
  | NeutronNetworks => 7
  | NeutronSecgroups => 8
  | GlanceImages => 9
  | SwiftObjects => 10
  | SwiftContainers => 11
  | CinderVolumes => 12
  | CeilometerAlarms => 13
  end%nat.

(** Where the resource of a request comes from: the listing that
    returns it, and what identifies it there.  Where the service lists
    across the tenants (neutron, glance) the resource is one of
    [project], and it passed the filter of its class.  The two requests
    on the router of an interface are identified by the interface: the
    router is the one the interface names as its device, and nothing is
    said of its owner. *)
Definition origin (project : string) (q : request)
  : listing * (resource -> Prop) :=
  match q with
  | delete_object cont obj => (get_container cont, fun r => name r = obj)
  | delete_container cont => (get_account, fun r => name r = cont)
  | volume_snapshots_delete i =>
      (volume_snapshots_list, fun r => res_id r = i)
  | volumes_delete i => (volumes_list, fun r => res_id r = i)
  | backups_delete i => (backups_list, fun r => res_id r = i)
  | servers_delete i => (servers_list, fun r => res_id r = i)
  | alarms_delete i => (alarms_list project, fun r => res_id r = i)
  | remove_gateway_router i | delete_router i =>
      (list_routers, fun r => res_id r = i /\ tenant_id r = project)
  | update_router_no_routes d =>
      (list_ports,
       fun r => device_id r = d /\ is_router_interface r
                /\ tenant_id r = project)
  | remove_interface_router d p =>
      (list_ports,
       fun r => res_id r = p /\ device_id r = d /\ is_router_interface r
                /\ tenant_id r = project)
  | delete_port p =>
      (list_ports,
       fun r => res_id r = p /\ is_unbound_or_compute r
                /\ tenant_id r = project)
  | delete_network i =>
      (list_networks, fun r => res_id r = i /\ tenant_id r = project)
  | delete_security_group i =>
      (list_security_groups,
       fun r => res_id r = i /\ name r ≠ "default"
                /\ tenant_id r = project)
  | delete_floatingip i =>
      (list_floatingips, fun r => res_id r = i /\ tenant_id r = project)
  | images_update_unprotected i | images_delete i =>
      (images_list, fun r => res_id r = i /\ owner r = project)
  end.

(** Every request is on a resource that a listing among the same events
    returned. *)
Definition only_listed_resources (project : string) (evs : list event)
  : Prop :=
  forall q x,
    EvRequest q x ∈ evs ->
    exists rs r,
      EvListing (origin project q).1 (Ok rs) ∈ evs /\ r ∈ rs
      /\ (origin project q).2 r.

(** The events of the setup of [main], and those of its unwinding. *)
Definition setup_event (ev : event) : Prop :=
  match ev with
  | EvAuthenticate _ _ | EvLog _ _ | EvPrint _ => True
  | EvKeystone c _ =>
      match c with
      | tenants_get _ | tenants_list | roles_list
      | add_user_role _ _ _ | tenants_update _ true => True
      | _ => False
      end
  | _ => False
  end.

Definition unwind_event (ev : event) : Prop :=
  match ev with
  | EvLog _ _ => True
  | EvKeystone c _ =>
      match c with
      | roles_list | remove_user_role _ _ _ | tenants_update _ false => True
      | _ => False
      end
  | _ => False
  end.

(** The places in the plan of the classes whose requests a run made,
    in the order of the requests. *)
Definition request_positions (evs : list event) : list nat :=
  (fun q => plan_position (issuer q)) <$> requests evs.

(** An event of a run that deletes nothing: no request, no deletion of
    a project. *)
Definition dry_event (ev : event) : Prop :=
  match ev with
  | EvRequest _ _ => False
  | EvKeystone (tenants_delete _) _ => False
  | _ => True
  end.

(** What [SwiftObjects.list] makes of the answers for the containers
    [conts]: the objects of each container, under the name of that
    container. *)
Definition objects_by_container (conts : list string)
    (contents : list (list resource)) : list resource :=
  mjoin (zip_with (fun cont objs =>
                     (fun obj => object_handle cont (name obj)) <$> objs)
                  conts contents).

Definition container_listings (conts : list string)
    (contents : list (list resource)) : list event :=
  zip_with (fun cont objs => EvListing (get_container cont) (Ok objs))
           conts contents.

(** What a run printed, in order. *)
Definition printed (evs : list event) : list string :=
  omap (fun ev => match ev with EvPrint msg => Some msg | _ => None end) evs.

(** One class of the plan as a run reaches it: its name, the state of
    the cloud it is reached in, and what the body of the loop gives
    there. *)
Record class_run (W : Type) := {
  run_class : string;
  run_start : W;
  run_outcome : outcome W (option exn)
}.
Arguments run_class {W} _.
Arguments run_start {W} _.
Arguments run_outcome {W} _.

Section PlanVocabulary.

Context {W : Type} (B : Backend W).
Variables (session : Session) (action : string).

(** The classes of [rcs] that the loop of [perform_on_project] reaches
    from state [s], in the order it reaches them: each class is reached
    in the state its predecessor leaves, and a class that raises is the
    last one reached. *)
Fixpoint class_runs (rcs : list string) (error : option exn) (s : W)
  : list (class_run W) :=
  match rcs with
  | [] => []
  | rc :: rcs' =>
      let o := perform_on_class B session action rc error s in
      {| run_class := rc; run_start := s; run_outcome := o |}
      :: match res o with
         | Ok error' => class_runs rcs' error' (final o)
         | Raise _ => []
         end
  end.

Fixpoint chained (s : W) (runs : list (class_run W)) : Prop :=
  match runs with
  | [] => True
  | run :: runs' =>
      run_start run = s /\ chained (final (run_outcome run)) runs'
  end.

(** What it is for a class to have been processed, in terms of the
    calls made.  The events of the class begin with its constructor,
    run in the state the class is reached in, and every request is one
    of the class.  If the constructor returned, the listing of the
    class follows it.  If moreover the listing answered and the class
    did not raise, then, when purging, the deletion call of every
    listed resource returned, in the order of the listing; when
    dumping, the header, every listed resource and an empty line were
    printed, in this order. *)
Definition processed (run : class_run W) : Prop :=
  exists k work,
    globals (run_class run) = Some k
    /\ emitted (run_outcome run) = EvClass (run_class run) :: work
    /\ let self := {| cls := k; self_project_id := project_id session |} in
       let c := Resources_init B k session (run_start run) in
       let l := Resources_list B self (final c) in
       emitted c `prefix_of` work
       /\ Forall (fun q => issuer q = k) (requests work)
       /\ (res c = Ok self ->
           (emitted c ++ emitted l)%list `prefix_of` work
           /\ forall rs,
               res l = Ok rs ->
               (exists error', res (run_outcome run) = Ok error') ->
               (action = "purge" ->
                (deletion_call k <$> rs) `sublist_of` succeeded work)
               /\ (action = "dump" ->
                   exists texts,
                     Forall2 (fun r text => resource_str k r = Ok text)
                             rs texts
                     /\ printed work
                        = (("* Resources type: " +:+ class_name k)
                           :: texts ++ [""])%list)).

End PlanVocabulary.

(** * Properties *)

(** ** Computations *)

Section Computations.

Context {W : Type}.

Lemma bind_Ok {A C} (m : M W A) (f : A -> M W C) s a :
  res (m s) = Ok a ->
  bind m f s = prepend (emitted (m s)) (f a (final (m s))).
Proof. intros H. unfold bind, prepend. now rewrite H. Qed.

Lemma bind_Raise {A C} (m : M W A) (f : A -> M W C) s e :
  res (m s) = Raise e ->
  bind m f s = Out (Raise e) (final (m s)) (emitted (m s)).
Proof. intros H. unfold bind. now rewrite H. Qed.

Lemma try_except_Ok {A} (m : M W A) h s a :
  res (m s) = Ok a -> try_except m h s = m s.
Proof. intros H. unfold try_except. now rewrite H. Qed.

Lemma try_except_uncaught {A} (m : M W A) h s e :
  res (m s) = Raise e -> h e = None -> try_except m h s = m s.
Proof. intros H Hh. unfold try_except. now rewrite H, Hh. Qed.

Lemma try_except_caught {A} (m : M W A) h s e k :
  res (m s) = Raise e -> h e = Some k ->
  try_except m h s = prepend (emitted (m s)) (k (final (m s))).
Proof. intros H Hh. unfold try_except, prepend. now rewrite H, Hh. Qed.

Lemma prepend_nil {A} (o : outcome W A) : prepend [] o = o.
Proof. now destruct o. Qed.

Lemma prepend_prepend {A} evs evs' (o : outcome W A) :
  prepend evs (prepend evs' o) = prepend (evs ++ evs') o.
Proof. unfold prepend. simpl. now rewrite app_assoc. Qed.

Lemma outcome_eta {A} (o : outcome W A) :
  o = Out (res o) (final o) (emitted o).
Proof. now destruct o. Qed.

End Computations.

(** ** The retry decorator *)

Lemma sleeps_app evs evs' : sleeps (evs ++ evs') = (sleeps evs ++ sleeps evs')%list.
Proof. unfold sleeps. apply omap_app. Qed.

Section Retry.

Context {W A : Type} (B : Backend W).
Variable service_name : string.
Variable func : M W A.

Lemma retry_loop_step fuel n s e :
  res (func s) = Raise e -> is_Exception e = true -> n <> RETRIES ->
  retry_loop B service_name func (S fuel) n s =
  prepend (emitted (func s)
           ++ [EvLog INFO (retry_message (n + 1)); EvSleep TIMEOUT])
    <$> retry_loop B service_name func fuel (n + 1)
          (elapse B TIMEOUT (final (func s))).
Proof.
  intros Hr He Hn. simpl. rewrite Hr, He.
  destruct (Z.eqb_spec n RETRIES) as [->|_]; [congruence|].
  reflexivity.
Qed.

Lemma retry_loop_succeeds k : forall fuel n s a,
  (k < fuel)%nat -> n + Z.of_nat k <= RETRIES ->
  (forall i, (i < k)%nat -> fails func (attempt_state B func i s)) ->
  res (func (attempt_state B func k s)) = Ok a ->
  retry_loop B service_name func fuel n s =
  Some (prepend (retry_events B func k n s) (func (attempt_state B func k s))).
Proof.
  induction k as [|k IH]; intros fuel n s a Hfuel Hn Hfail Hok.
  - destruct fuel as [|fuel]; [lia|]. simpl in *. rewrite Hok.
    now rewrite prepend_nil.
  - destruct fuel as [|fuel]; [lia|].
    destruct (Hfail O ltac:(lia)) as (e & Hr & He). simpl in Hr.
    rewrite (retry_loop_step fuel n s e Hr He) by lia.
    rewrite (IH fuel (n + 1) _ a); [|lia|lia| |exact Hok].
    + simpl. rewrite prepend_prepend. now rewrite <- app_assoc.
    + intros i Hi. apply (Hfail (S i)). lia.
Qed.

Lemma retry_loop_exhausts k : forall fuel n s,
  (k < fuel)%nat -> n + Z.of_nat k = RETRIES ->
  (forall i, (i <= k)%nat -> fails func (attempt_state B func i s)) ->
  retry_loop B service_name func fuel n s =
  Some (Out (Raise (DeletionFailed service_name))
            (final (func (attempt_state B func k s)))
            (retry_events B func k n s ++ emitted (func (attempt_state B func k s)))).
Proof.
  induction k as [|k IH]; intros fuel n s Hfuel Hn Hfail.
  - destruct fuel as [|fuel]; [lia|].
    destruct (Hfail O ltac:(lia)) as (e & Hr & He). simpl in *.
    rewrite Hr, He. replace n with RETRIES by lia. reflexivity.
  - destruct fuel as [|fuel]; [lia|].
    destruct (Hfail O ltac:(lia)) as (e & Hr & He). simpl in Hr.
    rewrite (retry_loop_step fuel n s e Hr He) by lia.
    rewrite (IH fuel (n + 1)); [|lia|lia|].
    + simpl. unfold prepend. simpl. now rewrite <- !app_assoc.
    + intros i Hi. apply (Hfail (S i)). lia.
Qed.

(** The loop leaves the wrapper within [RETRIES - n + 1] iterations. *)
Lemma retry_loop_terminates k : forall fuel n s,
  0 <= n -> n + Z.of_nat k = RETRIES -> (k < fuel)%nat ->
  is_Some (retry_loop B service_name func fuel n s).
Proof.
  induction k as [|k IH]; intros fuel n s H0 Hn Hfuel;
    (destruct fuel as [|fuel]; [lia|]); simpl;
    destruct (res (func s)) as [a|e]; eauto;
    destruct (is_Exception e); eauto;
    destruct (Z.eqb_spec n RETRIES) as [Heq|Hne]; eauto; [lia|].
  destruct (IH fuel (n + 1) (elapse B TIMEOUT (final (func s))))
    as [o Ho]; [lia|lia|lia|].
  simpl. rewrite Ho. simpl. eauto.
Qed.

Lemma retry_unfold s o :
  retry_loop B service_name func (S (Z.to_nat RETRIES)) 0 s = Some o ->
  retry B service_name func s = o.
Proof. intros H. unfold retry. now rewrite H. Qed.

(** The branch of [retry] for a loop that ran out of fuel is never
    taken. *)
Lemma retry_never_falls_back s :
  retry_loop B service_name func (S (Z.to_nat RETRIES)) 0 s
  = Some (retry B service_name func s).
Proof.
  destruct (retry_loop_terminates (Z.to_nat RETRIES)
              (S (Z.to_nat RETRIES)) 0 s) as [o Ho];
    [lia|unfold RETRIES; simpl; lia|lia|].
  rewrite Ho. f_equal. symmetry. now apply retry_unfold.
Qed.

Lemma sleeps_retry_events k : forall n s,
  quiet func -> sleeps (retry_events B func k n s) = replicate k TIMEOUT.
Proof.
  induction k as [|k IH]; intros n s Hq; [reflexivity|].
  cbn [retry_events]. rewrite !sleeps_app, Hq, IH by assumption.
  reflexivity.
Qed.

End Retry.

Lemma Resources_delete_quiet {W} (B : Backend W) self r :
  quiet (Resources_delete B self r).
Proof.
  intros s. unfold Resources_delete, Resources_base_delete, logging_info,
    emit, client_call, lift_result, bind, ret.
  destruct (resource_str (cls self) r) as [text|err];
    destruct (cls self); simpl;
    repeat match goal with
           | |- context [run_request B ?q ?s] =>
               destruct (run_request B q s) as [[[]|?] ?]; simpl
           | |- context [decide ?P] => destruct (decide P); simpl
           end; reflexivity.
Qed.

(** C2.  A call wrapped by [retry] that fails ten times and then
    succeeds returns the call's result, after ten sleeps of [TIMEOUT] = 5
    seconds each; a call that fails eleven times in a row makes the
    wrapper raise [DeletionFailed service_name], again after exactly ten
    sleeps of 5 seconds, the last failure being followed by no sleep.
    In both cases the loop has left by its eleventh iteration. *)
Theorem retry_budget {W A} (B : Backend W) (service_name : string)
    (func : M W A) (s : W) :
  quiet func ->
  (forall a,
      (forall i, (i < 10)%nat -> fails func (attempt_state B func i s)) ->
      res (func (attempt_state B func 10 s)) = Ok a ->
      let o := retry B service_name func s in
      res o = Ok a
      /\ sleeps (emitted o) = replicate 10 5
      /\ final o = final (func (attempt_state B func 10 s))
      /\ forall fuel, (10 < fuel)%nat ->
           retry_loop B service_name func fuel 0 s = Some o)
  /\
  ((forall i, (i <= 10)%nat -> fails func (attempt_state B func i s)) ->
   let o := retry B service_name func s in
   res o = Raise (DeletionFailed service_name)
   /\ sleeps (emitted o) = replicate 10 5
   /\ final o = final (func (attempt_state B func 10 s))
   /\ forall fuel, (10 < fuel)%nat ->
        retry_loop B service_name func fuel 0 s = Some o).
Proof.
  intros Hq. split.
  - intros a Hfail Hok o.
    assert (Hloop : forall fuel, (10 < fuel)%nat ->
              retry_loop B service_name func fuel 0 s =
              Some (prepend (retry_events B func 10 0 s)
                            (func (attempt_state B func 10 s)))).
    { intros fuel Hfuel.
      apply (retry_loop_succeeds B service_name func 10 fuel 0 s a);
        unfold RETRIES; try lia; assumption. }
    assert (Ho : o = prepend (retry_events B func 10 0 s)
                             (func (attempt_state B func 10 s))).
    { apply retry_unfold, Hloop. unfold RETRIES. simpl. lia. }
    rewrite Ho. repeat split; try assumption.
    unfold prepend. cbn [emitted].
    rewrite sleeps_app, (sleeps_retry_events B func 10 0 s Hq), Hq.
    reflexivity.
  - intros Hfail o.
    assert (Hloop : forall fuel, (10 < fuel)%nat ->
              retry_loop B service_name func fuel 0 s =
              Some (Out (Raise (DeletionFailed service_name))
                        (final (func (attempt_state B func 10 s)))
                        (retry_events B func 10 0 s
                         ++ emitted (func (attempt_state B func 10 s))))).
    { intros fuel Hfuel.
      apply (retry_loop_exhausts B service_name func 10 fuel 0 s);
        unfold RETRIES; try lia; assumption. }
    assert (Ho : o = Out (Raise (DeletionFailed service_name))
                        (final (func (attempt_state B func 10 s)))
                        (retry_events B func 10 0 s
                         ++ emitted (func (attempt_state B func 10 s)))).
    { apply retry_unfold, Hloop. unfold RETRIES. simpl. lia. }
    rewrite Ho. repeat split; try assumption.
    cbn [emitted].
    rewrite sleeps_app, (sleeps_retry_events B func 10 0 s Hq), Hq.
    reflexivity.
Qed.

Lemma retry_budget_witness :
  let func := Resources_delete cloud nova (res_ "s1" "web" "p1") in
  (res (retry cloud "NovaServers" func (flaky 10)) = Ok tt
   /\ sleeps (emitted (retry cloud "NovaServers" func (flaky 10)))
      = replicate 10 5)
  /\ (res (retry cloud "NovaServers" func (flaky 11))
      = Raise (DeletionFailed "NovaServers")
      /\ sleeps (emitted (retry cloud "NovaServers" func (flaky 11)))
         = replicate 10 5).
Proof.
  intros func. split.
  - destruct (proj1 (retry_budget cloud "NovaServers" func (flaky 10)
                       (Resources_delete_quiet cloud nova _)) tt)
      as (Hres & Hsleeps & _).
    + intros i Hi.
      do 10 (destruct i as [|i];
             [eexists; split; [vm_compute; reflexivity|reflexivity]|]).
      lia.
    + vm_compute. reflexivity.
    + split; assumption.
  - destruct (proj2 (retry_budget cloud "NovaServers" func (flaky 11)
                       (Resources_delete_quiet cloud nova _)))
      as (Hres & Hsleeps & _).
    + intros i Hi.
      do 11 (destruct i as [|i];
             [eexists; split; [vm_compute; reflexivity|reflexivity]|]).
      lia.
    + split; assumption.
Defined.

(** ** What a computation emits *)

Section Emits.

Context {W : Type} (B : Backend W).
Variable Q : event -> Prop.

Lemma emits_ret {A} (a : A) : emits Q (ret (W:=W) a).
Proof. intros s. constructor. Qed.

Lemma emits_raise {A} e : emits Q (raise (W:=W) (A:=A) e).
Proof. intros s. constructor. Qed.

Lemma emits_lift_result {A} (r : result A) : emits Q (lift_result (W:=W) r).
Proof. intros s. constructor. Qed.

Lemma emits_emit ev : Q ev -> emits Q (emit (W:=W) ev).
Proof. intros H s. simpl. auto. Qed.

Lemma emits_bind {A C} (m : M W A) (f : A -> M W C) :
  emits Q m -> (forall a, emits Q (f a)) -> emits Q (bind m f).
Proof.
  intros Hm Hf s. unfold bind. specialize (Hm s).
  destruct (res (m s)) as [a|e]; simpl; [|assumption].
  apply Forall_app. split; [assumption|apply Hf].
Qed.

Lemma emits_try_except {A} (m : M W A) h :
  emits Q m -> (forall e k, h e = Some k -> emits Q k) ->
  emits Q (try_except m h).
Proof.
  intros Hm Hh s. unfold try_except. specialize (Hm s).
  destruct (res (m s)) as [a|e]; [assumption|].
  destruct (h e) as [k|] eqn:Hk; [|assumption]. simpl.
  apply Forall_app. split; [assumption|]. now apply (Hh e k).
Qed.

Lemma emits_for_each {A} (xs : list A) (body : A -> M W unit) :
  (forall x, x ∈ xs -> emits Q (body x)) -> emits Q (for_each xs body).
Proof.
  induction xs as [|x xs IH]; intros H; simpl.
  - apply emits_ret.
  - apply emits_bind.
    + apply H. left.
    + intros _. apply IH. intros y Hy. apply H. now right.
Qed.

Lemma emits_client_Client lib :
  (forall r, Q (EvNewClient lib r)) -> emits Q (client_Client B lib).
Proof.
  intros H s. unfold client_Client. destruct (new_client B lib s). simpl. auto.
Qed.

Lemma emits_client_list q :
  (forall r, Q (EvListing q r)) -> emits Q (client_list B q).
Proof.
  intros H s. unfold client_list. destruct (run_listing B q s). simpl. auto.
Qed.

Lemma emits_client_call q :
  (forall r, Q (EvRequest q r)) -> emits Q (client_call B q).
Proof.
  intros H s. unfold client_call. destruct (run_request B q s). simpl. auto.
Qed.

Lemma emits_retry_loop {A} service_name (func : M W A) :
  emits Q func -> (forall msg, Q (EvLog INFO msg)) ->
  (forall z, Q (EvSleep z)) ->
  forall fuel n s o,
    retry_loop B service_name func fuel n s = Some o -> Forall Q (emitted o).
Proof.
  intros Hf Hlog Hsleep. induction fuel as [|fuel IH]; intros n s o; simpl.
  - discriminate.
  - pose proof (Hf s) as Hs.
    destruct (res (func s)) as [a|e]; [intros [= <-]; assumption|].
    destruct (is_Exception e); [|intros [= <-]; assumption].
    destruct (n =? RETRIES); [intros [= <-]; assumption|].
    destruct (retry_loop B service_name func fuel (n + 1) _) as [o'|] eqn:Ho';
      [|discriminate].
    intros [= <-]. simpl. apply IH in Ho'.
    repeat (apply Forall_app; split); auto.
Qed.

Lemma emits_retry {A} service_name (func : M W A) :
  emits Q func -> (forall msg, Q (EvLog INFO msg)) ->
  (forall z, Q (EvSleep z)) ->
  emits Q (retry B service_name func).
Proof.
  intros Hf Hlog Hsleep s. unfold retry.
  destruct (retry_loop B service_name func _ 0 s) as [o|] eqn:Ho.
  - eapply emits_retry_loop; eassumption.
  - constructor.
Qed.

End Emits.

Lemma emits_weaken {W A} (Q Q' : event -> Prop) (m : M W A) :
  (forall ev, Q ev -> Q' ev) -> emits Q m -> emits Q' m.
Proof. intros H Hm s. eapply Forall_impl; [apply Hm|exact H]. Qed.

Lemma requests_app evs evs' :
  requests (evs ++ evs') = (requests evs ++ requests evs')%list.
Proof. apply omap_app. Qed.

Lemma classes_entered_app evs evs' :
  classes_entered (evs ++ evs')
  = (classes_entered evs ++ classes_entered evs')%list.
Proof. apply omap_app. Qed.

Lemma class_events_no_class R evs :
  Forall (class_event R) evs -> classes_entered evs = [].
Proof.
  induction 1 as [|ev evs Hev _ IH]; [reflexivity|].
  destruct ev; simpl in *; try assumption; contradiction.
Qed.

Lemma class_events_no_request evs :
  Forall (class_event (fun _ => False)) evs -> requests evs = [].
Proof.
  induction 1 as [|ev evs Hev _ IH]; [reflexivity|].
  destruct ev; simpl in *; try assumption; contradiction.
Qed.

(** ** The resources classes *)

Section Classes.

Context {W : Type} (B : Backend W).

Ltac emits_step :=
  first
    [ apply emits_ret | apply emits_raise | apply emits_lift_result
    | apply emits_bind | apply emits_try_except
    | apply emits_client_Client | apply emits_client_list
    | apply emits_client_call | apply emits_emit
    | progress intros ].

Lemma Resources_init_emits k session :
  emits (class_event (fun _ => False)) (Resources_init B k session).
Proof.
  unfold Resources_init. destruct k; repeat emits_step; exact I.
Qed.

Lemma SwiftObjects_list_loop_emits conts : forall acc,
  emits (class_event (fun _ => False)) (SwiftObjects_list_loop B conts acc).
Proof.
  induction conts as [|cont conts IH]; intros acc; simpl.
  - apply emits_ret.
  - apply emits_bind; [apply emits_client_list; intros; exact I|].
    intros objs. apply IH.
Qed.

Lemma Resources_list_emits self :
  emits (class_event (fun _ => False)) (Resources_list B self).
Proof.
  unfold Resources_list, SwiftObjects_list, SwiftContainers_list,
    list_containers, NeutronResources_list_routers, NeutronInterfaces_list,
    NeutronPorts_list, NeutronNetworks_list, NeutronSecgroups_list,
    NeutronFloatingIps_list, GlanceImages_list, CeilometerAlarms_list.
  destruct (cls self); repeat emits_step;
    try exact I; try apply SwiftObjects_list_loop_emits.
  - destruct e; try discriminate. injection H as <-.
    destruct (status_code =? 404); apply emits_raise.
  - injection H as <-. apply emits_ret.
Qed.

Lemma Resources_delete_emits self r :
  emits (class_event (issued_for (cls self) r)) (Resources_delete B self r).
Proof.
  unfold Resources_delete, Resources_base_delete, logging_info.
  destruct (cls self) eqn:Hk; repeat emits_step;
    try exact I; try (split; reflexivity).
  destruct (decide _); repeat emits_step; exact I.
Qed.

Lemma purge_emits self :
  emits (class_event (fun q => exists r, issued_for (cls self) r q))
        (purge B self).
Proof.
  unfold purge, logging_info. apply emits_bind.
  - eapply emits_weaken; [|apply Resources_list_emits].
    intros []; simpl; tauto.
  - intros resources. apply emits_bind; [apply emits_emit; exact I|].
    intros _. apply emits_for_each. intros r _.
    apply emits_retry; try (intros; exact I).
    eapply emits_weaken; [|apply Resources_delete_emits].
    intros []; simpl; eauto.
Qed.

Lemma dump_emits self :
  emits (class_event (fun _ => False)) (dump B self).
Proof.
  unfold dump, print. apply emits_bind; [apply Resources_list_emits|].
  intros resources. repeat emits_step; try exact I.
  apply emits_for_each. intros r _. repeat emits_step. exact I.
Qed.

(** [retry] turns every [Exception] into [DeletionFailed]. *)
Lemma retry_loop_raises {A} service_name (func : M W A) :
  forall fuel n s o e,
    retry_loop B service_name func fuel n s = Some o -> res o = Raise e ->
    e = DeletionFailed service_name \/ is_Exception e = false.
Proof.
  induction fuel as [|fuel IH]; intros n s o e; simpl; [discriminate|].
  destruct (res (func s)) as [a|e'] eqn:Hr.
  - intros [= <-] He. congruence.
  - destruct (is_Exception e') eqn:He'.
    + destruct (n =? RETRIES).
      * intros [= <-] [= <-]. now left.
      * destruct (retry_loop B service_name func fuel (n + 1) _)
          as [o'|] eqn:Ho'; [|discriminate].
        intros [= <-] He. simpl in He. eapply IH; eassumption.
    + intros [= <-] He. rewrite Hr in He. injection He as <-. now right.
Qed.

Lemma retry_raises {A} service_name (func : M W A) s e :
  res (retry B service_name func s) = Raise e ->
  e = DeletionFailed service_name \/ is_Exception e = false.
Proof.
  unfold retry.
  destruct (retry_loop B service_name func _ 0 s) as [o|] eqn:Ho.
  - intros He. eapply retry_loop_raises; eassumption.
  - intros [= <-]. now left.
Qed.

Lemma for_each_retry_raises {A} service_name (body : A -> M W unit) xs :
  forall s e,
    res (for_each xs (fun x => retry B service_name (body x)) s) = Raise e ->
    e = DeletionFailed service_name \/ is_Exception e = false.
Proof.
  induction xs as [|x xs IH]; intros s e; simpl; [discriminate|].
  unfold bind at 1.
  destruct (res (retry B service_name (body x) s)) as [[]|e'] eqn:Hr; simpl.
  - apply IH.
  - intros [= <-]. eapply retry_raises. eassumption.
Qed.

End Classes.

(** ** Images *)

(** C9.  [GlanceImages.list] never raises: whatever the enumeration of
    the images raises, it returns the empty sequence.  Purging the class
    over a failing listing then returns normally without a single
    request, and the loop of [perform_on_project] leaves its variable
    [error] as it was. *)
Theorem GlanceImages_list_never_raises {W} (B : Backend W)
    (self : Resources) (s : W) :
  (exists l, res (GlanceImages_list B self s) = Ok l)
  /\ (forall e,
        res (client_list B images_list s) = Raise e ->
        res (GlanceImages_list B self s) = Ok []
        /\ (cls self = GlanceImages ->
            res (purge B self s) = Ok tt
            /\ requests (emitted (purge B self s)) = []))
  /\ (forall e session error s0,
        res (Resources_init B GlanceImages session s0) = Ok self ->
        final (Resources_init B GlanceImages session s0) = s ->
        res (client_list B images_list s) = Raise e ->
        let o := perform_on_class B session "purge" "GlanceImages" error s0 in
        res o = Ok error /\ requests (emitted o) = []).
Proof.
  assert (Hlist : forall e, res (client_list B images_list s) = Raise e ->
            GlanceImages_list B self s
            = Out (Ok []) (final (client_list B images_list s))
                  (emitted (client_list B images_list s))).
  { intros e He. unfold GlanceImages_list.
    erewrite try_except_caught; [| |reflexivity].
    - erewrite bind_Raise by exact He. unfold prepend. simpl.
      now rewrite app_nil_r.
    - erewrite bind_Raise by exact He. reflexivity. }
  assert (Hpurge : forall e, res (client_list B images_list s) = Raise e ->
            cls self = GlanceImages ->
            res (purge B self s) = Ok tt
            /\ requests (emitted (purge B self s)) = []).
  { intros e He Hcls. unfold purge, Resources_list. rewrite Hcls.
    erewrite bind_Ok by (rewrite (Hlist e He); reflexivity).
    rewrite (Hlist e He). unfold prepend. simpl. split; [reflexivity|].
    rewrite requests_app. simpl. rewrite app_nil_r.
    revert He. unfold client_list.
    destruct (run_listing B images_list s) as [r s']. reflexivity. }
  split; [|split].
  - destruct (res (client_list B images_list s)) as [l|e] eqn:Hr.
    + unfold GlanceImages_list.
      rewrite try_except_Ok with (a := filter (GlanceImages_owned_resource self) l).
      * erewrite bind_Ok by exact Hr. eauto.
      * erewrite bind_Ok by exact Hr. reflexivity.
    + rewrite (Hlist e eq_refl). eauto.
  - intros e He. split; [now rewrite (Hlist e He)|]. now apply (Hpurge e).
  - intros e session error s0 Hinit Hs He o.
    assert (Hcls : cls self = GlanceImages).
    { revert Hinit. unfold Resources_init.
      unfold bind, lift_result. simpl.
      destruct (get_endpoint session "image"); simpl; [|discriminate].
      destruct (res (client_Client B glanceclient s0)); simpl;
        [|discriminate].
      now intros [= <-]. }
    destruct (Hpurge e He Hcls) as [Hres Hreq].
    assert (Hinit_ev :
              requests (emitted (Resources_init B GlanceImages session s0)) = []).
    { apply class_events_no_request, Resources_init_emits. }
    subst o. unfold perform_on_class.
    assert (Hbody :
      res (process_class B session "purge" "GlanceImages" s0) = Ok tt
      /\ requests (emitted (process_class B session "purge" "GlanceImages" s0))
         = []).
    { unfold process_class. change (globals "GlanceImages") with (Some GlanceImages).
      cbv beta iota.
      erewrite bind_Ok by reflexivity.
      erewrite bind_Ok by exact Hinit.
      unfold emit. cbn [final emitted res].
      rewrite Hs. destruct (decide ("purge" = "purge")); [|congruence].
      unfold prepend. cbn [res emitted final]. rewrite Hres.
      split; [reflexivity|].
      rewrite !requests_app, Hinit_ev, Hreq. reflexivity. }
    destruct Hbody as [Hb1 Hb2].
    rewrite try_except_Ok with (a := error).
    + erewrite bind_Ok by exact Hb1. unfold prepend. simpl.
      split; [reflexivity|]. now rewrite app_nil_r.
    + erewrite bind_Ok by exact Hb1. reflexivity.
Qed.

Lemma GlanceImages_list_never_raises_witness :
  res (GlanceImages_list cloud glance glance_unreachable) = Ok []
  /\ res (purge cloud glance glance_unreachable) = Ok tt
  /\ requests (emitted (purge cloud glance glance_unreachable)) = []
  /\ res (perform_on_class cloud session0 "purge" "GlanceImages" None
            glance_unreachable) = Ok None.
Proof.
  destruct (GlanceImages_list_never_raises cloud glance glance_unreachable)
    as (_ & H2 & H3).
  destruct (H2 (LibInvalidEndpoint glanceclient
                  "Error finding address for glance"))
    as (Hlist & Hpurge); [vm_compute; reflexivity|].
  destruct (Hpurge eq_refl) as (Hres & Hreq).
  destruct (H3 (LibInvalidEndpoint glanceclient
                  "Error finding address for glance")
               session0 None glance_unreachable) as (Hclass & _);
    [vm_compute; reflexivity|vm_compute; reflexivity
    |vm_compute; reflexivity|].
  repeat split; assumption.
Defined.

(** C8, on the code: with an image service whose listing raises
    [glanceclient.exc.InvalidEndpoint] and every other class succeeding,
    [perform_on_project] enters every class and returns normally: no
    failure naming [GlanceImages] is raised, and no warning is logged.
    [main] then leaves with status 0. *)
Theorem unreachable_image_service_goes_unreported :
  let o := perform_on_project cloud "operator" "secret" "p1"
             "http://keystone" "publicURL" None "purge" false
             glance_unreachable in
  res o = Ok tt
  /\ res o <> Raise (InvalidEndpoint "GlanceImages")
  /\ classes_entered (emitted o) = RESOURCES_CLASSES
  /\ EvListing images_list
       (Raise (LibInvalidEndpoint glanceclient
                 "Error finding address for glance")) ∈ emitted o
  /\ (forall msg, EvLog WARNING msg ∉ emitted o)
  /\ res (main cloud args0 glance_unreachable) = Raise (SystemExit 0).
Proof.
  vm_compute. repeat split; try discriminate.
  - apply list_elem_of_In. vm_compute. tauto.
  - intros msg H%list_elem_of_In. vm_compute in H.
    repeat (destruct H as [H|H]; [discriminate|]). exact H.
Qed.

(** ** Security groups *)

Section Secgroups.

Context {W : Type} (B : Backend W).

Lemma emitted_bind {A C} (m : M W A) (f : A -> M W C) s :
  emitted (bind m f s)
  = (emitted (m s)
     ++ match res (m s) with
        | Ok a => emitted (f a (final (m s)))
        | Raise _ => []
        end)%list.
Proof.
  unfold bind. destruct (res (m s)); simpl; [reflexivity|].
  now rewrite app_nil_r.
Qed.

Lemma secgroup_deletions_listed_app project evs evs' :
  secgroup_deletions_listed project evs ->
  secgroup_deletions_listed project evs' ->
  secgroup_deletions_listed project (evs ++ evs').
Proof.
  intros H H' i r [Hin|Hin]%elem_of_app.
  - destruct (H i r Hin) as (sgs & sg & Hl & Hrest).
    exists sgs, sg. split; [apply elem_of_app; now left|assumption].
  - destruct (H' i r Hin) as (sgs & sg & Hl & Hrest).
    exists sgs, sg. split; [apply elem_of_app; now right|assumption].
Qed.

Lemma no_secgroup_deletion_listed project evs :
  Forall (class_event (fun q => forall i, q <> delete_security_group i)) evs ->
  secgroup_deletions_listed project evs.
Proof.
  intros H i r Hin. rewrite Forall_forall in H.
  specialize (H _ Hin). simpl in H. now destruct (H i).
Qed.

Lemma purge_loop_emits self resources :
  emits (class_event
           (fun q => exists r, r ∈ resources /\ issued_for (cls self) r q))
        (for_each resources
           (fun r => retry B (class_name (cls self))
                       (Resources_delete B self r))).
Proof.
  apply emits_for_each. intros r Hr.
  apply emits_retry; try (intros; exact I).
  eapply emits_weaken; [|apply Resources_delete_emits].
  intros []; simpl; eauto.
Qed.

Lemma NeutronSecgroups_list_Ok self s l :
  res (NeutronSecgroups_list B self s) = Ok l ->
  exists sgs,
    emitted (NeutronSecgroups_list B self s)
    = [EvListing list_security_groups (Ok sgs)]
    /\ l = filter (secgroup_filter self) sgs.
Proof.
  unfold NeutronSecgroups_list, try_except, bind, client_list, ret, raise.
  destruct (run_listing B list_security_groups s) as [[sgs|e] s']; simpl.
  - intros [= <-]. eauto.
  - destruct e; simpl; try discriminate.
    destruct (status_code =? 404); discriminate.
Qed.

Lemma NeutronSecgroups_purge_listed self s :
  cls self = NeutronSecgroups ->
  secgroup_deletions_listed (self_project_id self) (emitted (purge B self s)).
Proof.
  intros Hcls. unfold purge. rewrite emitted_bind.
  unfold Resources_list at 1 2 3. rewrite Hcls.
  destruct (res (NeutronSecgroups_list B self s)) as [l|e] eqn:Hres.
  - destruct (NeutronSecgroups_list_Ok self s l Hres) as (sgs & Hev & ->).
    rewrite Hev. intros i r Hin.
    apply elem_of_cons in Hin as [Hin|Hin]; [discriminate|].
    rewrite emitted_bind in Hin. cbn [logging_info emit emitted res final] in Hin.
    apply elem_of_cons in Hin as [Hin|Hin]; [discriminate|].
    pose proof (purge_loop_emits self (filter (secgroup_filter self) sgs)
                  (final (NeutronSecgroups_list B self s))) as Hall.
    rewrite Hcls in Hall.
    rewrite Forall_forall in Hall. specialize (Hall _ Hin). simpl in Hall.
    destruct Hall as (sg & Hsg & _ & ->).
    apply list_elem_of_filter in Hsg as [[Hname Hown] Hsg].
    exists sgs, sg. split; [left|]. repeat split; assumption.
  - rewrite app_nil_r. apply no_secgroup_deletion_listed.
    pose proof (Resources_list_emits B self s) as Hall.
    unfold Resources_list in Hall. rewrite Hcls in Hall.
    eapply Forall_impl; [exact Hall|].
    intros []; simpl; tauto.
Qed.

End Secgroups.

(** ** The loop of perform_on_project *)

Section Orchestrator.

Context {W : Type} (B : Backend W).

Lemma res_bind {A C} (m : M W A) (f : A -> M W C) s :
  res (bind m f s)
  = match res (m s) with
    | Ok a => res (f a (final (m s)))
    | Raise e => Raise e
    end.
Proof. unfold bind. now destruct (res (m s)). Qed.

Lemma final_bind {A C} (m : M W A) (f : A -> M W C) s :
  final (bind m f s)
  = match res (m s) with
    | Ok a => final (f a (final (m s)))
    | Raise e => final (m s)
    end.
Proof. unfold bind. now destruct (res (m s)). Qed.

Lemma Resources_init_self k session s self :
  res (Resources_init B k session s) = Ok self ->
  self = {| cls := k; self_project_id := project_id session |}.
Proof.
  unfold Resources_init.
  destruct k; rewrite !res_bind;
    repeat match goal with
           | |- context [match ?r with Ok _ => _ | Raise _ => _ end] =>
               destruct r; try discriminate
           end;
    simpl; congruence.
Qed.

Lemma ignored_exception_spec e :
  ignored_exception e = true ->
  is_Exception e = true /\ forall n, e <> DeletionFailed n.
Proof.
  destruct e; simpl; try discriminate; intros _; split; try reflexivity;
    discriminate.
Qed.

(** An ignored exception out of [purge] comes from the listing. *)
Lemma purge_ignored_no_request self s e :
  res (purge B self s) = Raise e -> ignored_exception e = true ->
  requests (emitted (purge B self s)) = [].
Proof.
  intros Hres Hign. destruct (ignored_exception_spec e Hign) as [Hexc Hdel].
  revert Hres. unfold purge. rewrite res_bind, emitted_bind.
  pose proof (class_events_no_request _ (Resources_list_emits B self s))
    as Hlist.
  destruct (res (Resources_list B self s)) as [l|e'].
  - rewrite res_bind. cbn [logging_info emit res final].
    intros Hres. apply for_each_retry_raises in Hres as [->|Hn].
    + now destruct (Hdel (class_name (cls self))).
    + congruence.
  - intros _. now rewrite app_nil_r.
Qed.

Lemma process_class_ignored_no_request session action rc s e :
  res (process_class B session action rc s) = Raise e ->
  ignored_exception e = true ->
  requests (emitted (process_class B session action rc s)) = [].
Proof.
  intros Hres Hign. revert Hres. unfold process_class.
  rewrite res_bind, emitted_bind. cbn [emit res final emitted].
  destruct (globals rc) as [k|]; [|intros [= <-]; discriminate].
  rewrite res_bind, emitted_bind.
  pose proof (class_events_no_request _ (Resources_init_emits B k session s))
    as Hinit.
  destruct (res (Resources_init B k session s)) as [self|e0].
  - rewrite requests_app, requests_app, Hinit. cbn [app requests omap].
    destruct (decide (action = "purge")).
    + intros Hres. simpl. now apply purge_ignored_no_request with e.
    + destruct (decide (action = "dump")).
      * intros _. simpl. apply class_events_no_request, dump_emits.
      * intros [= <-]. discriminate.
  - intros _. rewrite app_nil_r, requests_app, Hinit. reflexivity.
Qed.

Lemma process_class_emitted session action rc s :
  exists evs,
    emitted (process_class B session action rc s) = EvClass rc :: evs
    /\ Forall (class_event (fun _ => True)) evs.
Proof.
  unfold process_class. rewrite emitted_bind. cbn [emit res final emitted].
  eexists. split; [reflexivity|].
  destruct (globals rc) as [k|]; [|constructor].
  apply (emits_bind (class_event (fun _ => True))).
  - eapply emits_weaken; [|apply Resources_init_emits].
    intros []; simpl; tauto.
  - intros self. destruct (decide (action = "purge")).
    + eapply emits_weaken; [|apply purge_emits]. intros []; simpl; tauto.
    + destruct (decide (action = "dump")); [|apply emits_raise].
      eapply emits_weaken; [|apply dump_emits]. intros []; simpl; tauto.
Qed.

Lemma process_class_entered session action rc s :
  classes_entered (emitted (process_class B session action rc s)) = [rc].
Proof.
  destruct (process_class_emitted session action rc s) as (evs & -> & Hevs).
  simpl. now rewrite (class_events_no_class _ _ Hevs).
Qed.

(** What one iteration does, by what the class raises. *)
Lemma perform_on_class_eq session action rc error s :
  let o := process_class B session action rc s in
  perform_on_class B session action rc error s =
  match res o with
  | Ok _ => Out (Ok error) (final o) (emitted o)
  | Raise e =>
      if ignored_exception e then Out (Ok error) (final o) (emitted o)
      else match invalid_endpoint_exception e with
           | Some message =>
               Out (Ok (Some (InvalidEndpoint rc))) (final o)
                   (emitted o
                    ++ [EvLog WARNING ("Unable to connect to " +:+ rc
                                       +:+ " endpoint : " +:+ message)])
           | None => Out (Raise e) (final o) (emitted o)
           end
  end.
Proof.
  intros o. subst o. unfold perform_on_class.
  destruct (res (process_class B session action rc s)) as [[]|e] eqn:Hr.
  - assert (Hb : bind (process_class B session action rc)
                   (fun _ => ret error) s
                 = Out (Ok error)
                       (final (process_class B session action rc s))
                       (emitted (process_class B session action rc s))).
    { rewrite (bind_Ok _ _ _ _ Hr). unfold prepend, ret. simpl.
      now rewrite app_nil_r. }
    rewrite try_except_Ok with (a := error); rewrite Hb; reflexivity.
  - assert (Hb : bind (process_class B session action rc)
                   (fun _ => ret error) s
                 = Out (Raise e)
                       (final (process_class B session action rc s))
                       (emitted (process_class B session action rc s))).
    { now rewrite (bind_Raise _ _ _ _ Hr). }
    destruct (ignored_exception e) eqn:Hi.
    + erewrite try_except_caught;
        [|rewrite Hb; reflexivity|cbv beta; rewrite Hi; reflexivity].
      rewrite Hb. unfold prepend, ret. simpl. now rewrite app_nil_r.
    + destruct (invalid_endpoint_exception e) as [message|] eqn:Hm.
      * erewrite try_except_caught;
          [|rewrite Hb; reflexivity|cbv beta; rewrite Hi, Hm; reflexivity].
        rewrite Hb. reflexivity.
      * erewrite try_except_uncaught;
          [|rewrite Hb; reflexivity|cbv beta; rewrite Hi, Hm; reflexivity].
        exact Hb.
Qed.

Lemma perform_on_class_final session action rc error s :
  final (perform_on_class B session action rc error s)
  = final (process_class B session action rc s).
Proof.
  rewrite perform_on_class_eq.
  destruct (res _) as [|e]; [reflexivity|].
  destruct (ignored_exception e); [reflexivity|].
  now destruct (invalid_endpoint_exception e).
Qed.

Lemma perform_on_class_entered session action rc error s :
  classes_entered (emitted (perform_on_class B session action rc error s))
  = [rc].
Proof.
  rewrite perform_on_class_eq.
  pose proof (process_class_entered session action rc s) as H.
  destruct (res _) as [|e]; [assumption|].
  destruct (ignored_exception e); [assumption|].
  destruct (invalid_endpoint_exception e); [|assumption].
  cbn [emitted]. rewrite classes_entered_app, H. reflexivity.
Qed.

End Orchestrator.

Section Loop.

Context {W : Type} (B : Backend W).
Variables (session : Session) (action : string).

Local Opaque process_class perform_on_class.

Lemma verdicts_prefix rcs : forall s,
  (verdicts B session action rcs s).*1 `prefix_of` rcs.
Proof.
  induction rcs as [|rc rcs IH]; intros s; simpl; [reflexivity|].
  destruct (is_Fatal _); simpl.
  - apply prefix_cons, prefix_nil.
  - apply prefix_cons, IH.
Qed.

Lemma perform_loop_entered rcs : forall error s,
  classes_entered (emitted (perform_loop B session action rcs error s))
  = (verdicts B session action rcs s).*1.
Proof.
  induction rcs as [|rc rcs IH]; intros error s; simpl; [reflexivity|].
  rewrite emitted_bind, classes_entered_app, perform_on_class_entered.
  rewrite perform_on_class_final, perform_on_class_eq. unfold classify.
  destruct (res (process_class B session action rc s)) as [[]|e]; simpl.
  - now rewrite IH.
  - destruct (ignored_exception e); simpl; [now rewrite IH|].
    destruct (invalid_endpoint_exception e); simpl; [now rewrite IH|].
    reflexivity.
Qed.

Lemma surfaced_cons_soft rc vs error :
  surfaced ((rc, SoftFailed) :: vs) error
  = surfaced vs (Some (InvalidEndpoint rc)).
Proof.
  unfold surfaced. cbn [soft_failed omap]. simpl. fold (soft_failed vs).
  rewrite last_cons. now destruct (last (soft_failed vs)).
Qed.

Lemma perform_loop_full rcs : forall error s,
  Forall (fun p => is_Fatal p.2 = false) (verdicts B session action rcs s) ->
  res (perform_loop B session action rcs error s)
  = Ok (surfaced (verdicts B session action rcs s) error)
  /\ (verdicts B session action rcs s).*1 = rcs.
Proof.
  induction rcs as [|rc rcs IH]; intros error s; simpl; [auto|].
  rewrite res_bind, perform_on_class_final, perform_on_class_eq.
  unfold classify.
  destruct (res (process_class B session action rc s)) as [[]|e]; simpl.
  - intros [_ H]%Forall_cons. destruct (IH error _ H) as [Hres Hfst].
    rewrite Hres. split; [reflexivity|]. f_equal. exact Hfst.
  - destruct (ignored_exception e); simpl.
    + intros [_ H]%Forall_cons. destruct (IH error _ H) as [Hres Hfst].
      rewrite Hres. split; [reflexivity|]. f_equal. exact Hfst.
    + destruct (invalid_endpoint_exception e); simpl.
      * intros [_ H]%Forall_cons.
        destruct (IH (Some (InvalidEndpoint rc)) _ H) as [Hres Hfst].
        rewrite Hres, surfaced_cons_soft. split; [reflexivity|].
        f_equal. exact Hfst.
      * intros [H _]%Forall_cons. discriminate.
Qed.

Lemma perform_loop_app done rest : forall error s error1,
  res (perform_loop B session action done error s) = Ok error1 ->
  perform_loop B session action (done ++ rest) error s
  = prepend (emitted (perform_loop B session action done error s))
      (perform_loop B session action rest error1
         (final (perform_loop B session action done error s))).
Proof.
  induction done as [|rc done IH]; intros error s error1; simpl.
  - intros [= ->]. now rewrite prepend_nil.
  - rewrite res_bind.
    destruct (res (perform_on_class B session action rc error s))
      as [error'|e] eqn:Hr; [|discriminate].
    intros H. rewrite !(bind_Ok _ _ _ _ Hr). rewrite (IH _ _ _ H).
    unfold prepend. simpl. now rewrite app_assoc.
Qed.

Lemma perform_loop_Ok_entered rcs error s error1 :
  res (perform_loop B session action rcs error s) = Ok error1 ->
  classes_entered (emitted (perform_loop B session action rcs error s)) = rcs.
Proof.
  rewrite perform_loop_entered. revert error s.
  induction rcs as [|rc rcs IH]; intros error s; simpl; [reflexivity|].
  rewrite res_bind, perform_on_class_final, perform_on_class_eq.
  unfold classify.
  destruct (res (process_class B session action rc s)) as [[]|e]; simpl.
  - intros H. f_equal. eapply IH, H.
  - destruct (ignored_exception e); simpl.
    + intros H. f_equal. eapply IH, H.
    + destruct (invalid_endpoint_exception e); simpl.
      * intros H. f_equal. eapply IH, H.
      * discriminate.
Qed.

(** A class that raises what the loop does not handle ends the loop. *)
Lemma perform_loop_fatal rc rest error s e :
  res (process_class B session action rc s) = Raise e ->
  ignored_exception e = false -> invalid_endpoint_exception e = None ->
  perform_loop B session action (rc :: rest) error s
  = Out (Raise e) (final (process_class B session action rc s))
        (emitted (process_class B session action rc s)).
Proof.
  intros Hr Hi Hm. simpl.
  assert (H : perform_on_class B session action rc error s
              = Out (Raise e) (final (process_class B session action rc s))
                    (emitted (process_class B session action rc s))).
  { rewrite perform_on_class_eq, Hr, Hi, Hm. reflexivity. }
  rewrite (bind_Raise _ _ _ e) by now rewrite H.
  rewrite H. reflexivity.
Qed.

End Loop.

Section Run.

Context {W : Type} (B : Backend W).

Local Opaque perform_loop.

Lemma Session_init_emitted u p project url et rn ins s :
  classes_entered (emitted (Session_init B u p project url et rn ins s)) = []
  /\ requests (emitted (Session_init B u p project url et rn ins s)) = []
  /\ (forall session,
        res (Session_init B u p project url et rn ins s) = Ok session ->
        project_id session = project).
Proof.
  unfold Session_init, bind, keystone_client_Client, ret.
  destruct (authenticate B project s) as [[c|e] s']; simpl;
    repeat split; try discriminate.
  now intros session [= <-].
Qed.

Lemma perform_on_project_eq u p project url et rn action ins s :
  let i := Session_init B u p project url et rn ins s in
  perform_on_project B u p project url et rn action ins s =
  match res i with
  | Raise e => Out (Raise e) (final i) (emitted i)
  | Ok session =>
      let l := perform_loop B session action RESOURCES_CLASSES None
                 (final i) in
      Out (match res l with
           | Ok (Some e) => Raise e
           | Ok None => Ok tt
           | Raise e => Raise e
           end) (final l) (emitted i ++ emitted l)
  end.
Proof.
  intros i. unfold perform_on_project. fold i. unfold bind at 1. fold i.
  destruct (res i) as [session|e]; [|reflexivity].
  unfold bind.
  destruct (res (perform_loop B session action RESOURCES_CLASSES None _))
    as [[e|]|e]; simpl; rewrite ?app_nil_r; reflexivity.
Qed.

End Run.

(** C5.  When the class reached after the classes [done] raises
    [DeletionFailed], [perform_on_project] raises that very exception;
    no class after it is entered, and the run ends in the state and
    with the events of the failing class: nothing is issued after the
    failure, so what was deleted stays deleted. *)
Theorem DeletionFailed_aborts_plan {W} (B : Backend W)
    (admin_name password project auth_url endpoint_type : string)
    (region_name : option string) (action : string) (insecure : bool)
    (s : W) (session : Session) (done : list string) (rc : string)
    (rest : list string) (error1 : option exn) (n : string) :
  RESOURCES_CLASSES = (done ++ rc :: rest)%list ->
  let i := Session_init B admin_name password project auth_url
             endpoint_type region_name insecure s in
  res i = Ok session ->
  let o1 := perform_loop B session action done None (final i) in
  res o1 = Ok error1 ->
  let oc := process_class B session action rc (final o1) in
  res oc = Raise (DeletionFailed n) ->
  let o := perform_on_project B admin_name password project auth_url
             endpoint_type region_name action insecure s in
  res o = Raise (DeletionFailed n)
  /\ classes_entered (emitted o) = (done ++ [rc])%list
  /\ final o = final oc
  /\ emitted o = (emitted i ++ emitted o1 ++ emitted oc)%list.
Proof.
  intros Hplan i Hi o1 Ho1 oc Hoc o.
  assert (Ho : o = Out (Raise (DeletionFailed n)) (final oc)
                       (emitted i ++ emitted o1 ++ emitted oc)).
  { subst o. rewrite perform_on_project_eq. fold i. rewrite Hi.
    cbv zeta. rewrite Hplan.
    rewrite (perform_loop_app B session action done (rc :: rest) None
               (final i) error1 Ho1).
    fold o1.
    rewrite (perform_loop_fatal B session action rc rest error1 (final o1)
               (DeletionFailed n) Hoc eq_refl eq_refl).
    reflexivity. }
  rewrite Ho. cbn [res final emitted]. repeat split.
  rewrite !classes_entered_app.
  destruct (Session_init_emitted B admin_name password project auth_url
              endpoint_type region_name insecure s) as (Hs & _ & _).
  fold i in Hs. rewrite Hs.
  unfold o1. rewrite (perform_loop_Ok_entered B session action done None
                        (final i) error1 Ho1).
  unfold oc. rewrite process_class_entered. reflexivity.
Qed.

Lemma DeletionFailed_aborts_plan_witness :
  let o := perform_on_project cloud "operator" "secret" "p1"
             "http://keystone" "publicURL" None "purge" false stubborn in
  res o = Raise (DeletionFailed "NovaServers")
  /\ classes_entered (emitted o)
     = ["CinderSnapshots"; "CinderBackups"; "NovaServers"]
  /\ assoc servers_list (cloud_alive (final o))
     = Some [res_ "s2" "db" "p1"].
Proof.
  intros o.
  destruct (DeletionFailed_aborts_plan cloud "operator" "secret" "p1"
              "http://keystone" "publicURL" None "purge" false stubborn
              session0 ["CinderSnapshots"; "CinderBackups"] "NovaServers"
              (drop 3 RESOURCES_CLASSES) None "NovaServers")
    as (Hres & Hcls & Hfinal & _);
    [reflexivity|vm_compute; reflexivity|vm_compute; reflexivity
    |vm_compute; reflexivity|].
  fold o in Hres, Hcls, Hfinal.
  split; [exact Hres|]. split; [exact Hcls|].
  rewrite Hfinal. vm_compute. reflexivity.
Defined.

(** C6.  A class whose processing raises [ResourceNotEnabled] or one of
    the endpoint-not-found exceptions has issued no request; the loop
    adds nothing to what the class emitted (no warning), leaves [error]
    as it was, and goes on with the next class.  A run in which every
    class either completes or is skipped this way enters the whole plan
    and returns normally. *)
Theorem ignored_class_is_skipped {W} (B : Backend W) (session : Session)
    (action : string) :
  (forall rc error s e,
      res (process_class B session action rc s) = Raise e ->
      ignored_exception e = true ->
      let o := process_class B session action rc s in
      requests (emitted o) = []
      /\ perform_on_class B session action rc error s
         = Out (Ok error) (final o) (emitted o)
      /\ forall rest,
           perform_loop B session action (rc :: rest) error s
           = prepend (emitted o)
               (perform_loop B session action rest error (final o)))
  /\ (forall admin_name password project auth_url endpoint_type region_name
             insecure s,
        let i := Session_init B admin_name password project auth_url
                   endpoint_type region_name insecure s in
        res i = Ok session ->
        Forall (fun p => p.2 = Completed \/ p.2 = Skipped)
               (verdicts B session action RESOURCES_CLASSES (final i)) ->
        let o := perform_on_project B admin_name password project auth_url
                   endpoint_type region_name action insecure s in
        res o = Ok tt /\ classes_entered (emitted o) = RESOURCES_CLASSES).
Proof.
  split.
  - intros rc error s e Hr Hi o.
    assert (Hclass : perform_on_class B session action rc error s
                     = Out (Ok error) (final o) (emitted o)).
    { rewrite perform_on_class_eq. fold o. unfold o at 1. rewrite Hr, Hi.
      reflexivity. }
    split; [now apply process_class_ignored_no_request with e|].
    split; [exact Hclass|].
    intros rest. cbn [perform_loop].
    rewrite (bind_Ok _ _ _ error) by now rewrite Hclass.
    now rewrite Hclass.
  - intros admin_name password project auth_url endpoint_type region_name
      insecure s i Hi Hall o.
    assert (Hnf : Forall (fun p => is_Fatal p.2 = false)
                    (verdicts B session action RESOURCES_CLASSES (final i))).
    { eapply Forall_impl; [exact Hall|]. intros [rc v] [->| ->]; reflexivity. }
    destruct (perform_loop_full B session action RESOURCES_CLASSES None
                (final i) Hnf) as [Hres Hfst].
    assert (Hsoft : soft_failed
                      (verdicts B session action RESOURCES_CLASSES (final i))
                    = []).
    { clear -Hall. induction Hall as [|[rc v] vs [Hv|Hv] _ IH];
        simpl in *; subst; auto. }
    subst o. rewrite perform_on_project_eq. fold i. rewrite Hi. cbv zeta.
    rewrite Hres. unfold surfaced. rewrite Hsoft. cbn [last res emitted].
    split; [reflexivity|].
    rewrite classes_entered_app.
    destruct (Session_init_emitted B admin_name password project auth_url
                endpoint_type region_name insecure s) as (Hs & _ & _).
    fold i in Hs. rewrite Hs. cbn [app].
    now rewrite perform_loop_entered.
Qed.

Lemma ignored_class_is_skipped_witness :
  res (process_class cloud session0 "purge" "NeutronSecgroups"
         secgroups_disabled) = Raise ResourceNotEnabled
  /\ requests (emitted (process_class cloud session0 "purge"
                          "NeutronSecgroups" secgroups_disabled)) = []
  /\ res (perform_on_class cloud session0 "purge" "NeutronSecgroups" None
            secgroups_disabled) = Ok None
  /\ res (perform_on_project cloud "operator" "secret" "p1"
            "http://keystone" "publicURL" None "purge" false no_network)
     = Ok tt.
Proof.
  destruct (ignored_class_is_skipped cloud session0 "purge") as [HA HB].
  destruct (HA "NeutronSecgroups" None secgroups_disabled ResourceNotEnabled)
    as (Hreq & Hclass & _); [vm_compute; reflexivity|reflexivity|].
  destruct (HB "operator" "secret" "p1" "http://keystone" "publicURL" None
               false no_network) as (Hres & _).
  - vm_compute. reflexivity.
  - vm_compute.
    repeat (constructor; [first [left; reflexivity|right; reflexivity]|]).
    constructor.
  - split; [vm_compute; reflexivity|]. split; [exact Hreq|].
    split; [now rewrite Hclass|exact Hres].
Defined.

(** C7.  In a pass in which no class raises what the loop does not
    handle, every class of the plan is entered whether or not earlier
    ones soft-failed, and [perform_on_project] ends by raising
    [InvalidEndpoint] naming the last class that soft-failed; it returns
    normally when none did. *)
Theorem soft_failures_surface_last {W} (B : Backend W)
    (admin_name password project auth_url endpoint_type : string)
    (region_name : option string) (action : string) (insecure : bool)
    (s : W) (session : Session) :
  let i := Session_init B admin_name password project auth_url
             endpoint_type region_name insecure s in
  res i = Ok session ->
  let vs := verdicts B session action RESOURCES_CLASSES (final i) in
  Forall (fun p => is_Fatal p.2 = false) vs ->
  let o := perform_on_project B admin_name password project auth_url
             endpoint_type region_name action insecure s in
  classes_entered (emitted o) = RESOURCES_CLASSES
  /\ vs.*1 = RESOURCES_CLASSES
  /\ res o = match last (soft_failed vs) with
             | Some rc => Raise (InvalidEndpoint rc)
             | None => Ok tt
             end.
Proof.
  intros i Hi vs Hnf o.
  destruct (perform_loop_full B session action RESOURCES_CLASSES None
              (final i) Hnf) as [Hres Hfst].
  fold vs in Hres, Hfst.
  subst o. rewrite perform_on_project_eq. fold i. rewrite Hi. cbv zeta.
  rewrite Hres. cbn [res emitted]. split; [|split; [exact Hfst|]].
  - rewrite classes_entered_app.
    destruct (Session_init_emitted B admin_name password project auth_url
                endpoint_type region_name insecure s) as (Hs & _ & _).
    fold i in Hs. rewrite Hs. cbn [app].
    rewrite perform_loop_entered. exact Hfst.
  - unfold surfaced. now destruct (last (soft_failed vs)).
Qed.

Lemma soft_failures_surface_last_witness :
  (* one soft failure *)
  (classes_entered
     (emitted (perform_on_project cloud "operator" "secret" "p1"
                 "http://keystone" "publicURL" None "purge" false
                 glance_rejected)) = RESOURCES_CLASSES
   /\ res (perform_on_project cloud "operator" "secret" "p1"
             "http://keystone" "publicURL" None "purge" false
             glance_rejected) = Raise (InvalidEndpoint "GlanceImages"))
  (* two soft failures: the last one is named *)
  /\ (soft_failed (verdicts cloud session0 "purge" RESOURCES_CLASSES
                     two_rejected) = ["GlanceImages"; "CinderVolumes"]
      /\ res (perform_on_project cloud "operator" "secret" "p1"
                "http://keystone" "publicURL" None "purge" false
                two_rejected) = Raise (InvalidEndpoint "CinderVolumes")).
Proof.
  split.
  - destruct (soft_failures_surface_last cloud "operator" "secret" "p1"
                "http://keystone" "publicURL" None "purge" false
                glance_rejected session0) as (Hcls & _ & Hres).
    + vm_compute. reflexivity.
    + vm_compute. repeat constructor.
    + split; [exact Hcls|]. rewrite Hres. vm_compute. reflexivity.
  - destruct (soft_failures_surface_last cloud "operator" "secret" "p1"
                "http://keystone" "publicURL" None "purge" false
                two_rejected session0) as (_ & _ & Hres).
    + vm_compute. reflexivity.
    + vm_compute. repeat constructor.
    + split; [vm_compute; reflexivity|]. rewrite Hres.
      vm_compute. reflexivity.
Defined.

Section SecgroupsRun.

Context {W : Type} (B : Backend W).
Variables (session : Session) (action : string).

Lemma other_classes_issue_no_secgroup_deletion self s :
  cls self <> NeutronSecgroups ->
  Forall (class_event (fun q => forall i, q <> delete_security_group i))
         (emitted (purge B self s)).
Proof.
  intros Hk. eapply Forall_impl; [apply (purge_emits B self s)|].
  intros []; simpl; try tauto.
  intros (x & Hq) i ->. simpl in Hq. tauto.
Qed.

Lemma process_class_secgroups_listed rc s :
  secgroup_deletions_listed (project_id session)
    (emitted (process_class B session action rc s)).
Proof.
  unfold process_class. rewrite emitted_bind. cbn [emit res final emitted].
  apply (secgroup_deletions_listed_app _ [_]).
  { intros i r Hin. apply list_elem_of_singleton in Hin. discriminate. }
  destruct (globals rc) as [k|];
    [|apply no_secgroup_deletion_listed; constructor].
  rewrite emitted_bind. apply secgroup_deletions_listed_app.
  { apply no_secgroup_deletion_listed.
    eapply Forall_impl; [apply (Resources_init_emits B k session s)|].
    intros []; simpl; tauto. }
  destruct (res (Resources_init B k session s)) as [self|e] eqn:Hinit;
    [|apply no_secgroup_deletion_listed; constructor].
  apply Resources_init_self in Hinit. subst self.
  destruct (decide (action = "purge")).
  - destruct (decide (k = NeutronSecgroups)) as [->|Hk].
    + apply (NeutronSecgroups_purge_listed B
               {| cls := NeutronSecgroups;
                  self_project_id := project_id session |}).
      reflexivity.
    + apply no_secgroup_deletion_listed.
      now apply other_classes_issue_no_secgroup_deletion.
  - destruct (decide (action = "dump"));
      [|apply no_secgroup_deletion_listed; constructor].
    apply no_secgroup_deletion_listed.
    eapply Forall_impl; [apply dump_emits|]. intros []; simpl; tauto.
Qed.

End SecgroupsRun.

Section SecgroupsLoop.

Context {W : Type} (B : Backend W).
Variables (session : Session) (action : string).

Lemma perform_on_class_secgroups_listed rc error s :
  secgroup_deletions_listed (project_id session)
    (emitted (perform_on_class B session action rc error s)).
Proof.
  rewrite perform_on_class_eq.
  pose proof (process_class_secgroups_listed B session action rc s) as H.
  destruct (res _) as [|e]; [exact H|].
  destruct (ignored_exception e); [exact H|].
  destruct (invalid_endpoint_exception e); [|exact H].
  cbn [emitted]. apply secgroup_deletions_listed_app; [exact H|].
  intros i r Hin. apply list_elem_of_singleton in Hin. discriminate.
Qed.

Lemma perform_loop_secgroups_listed rcs : forall error s,
  secgroup_deletions_listed (project_id session)
    (emitted (perform_loop B session action rcs error s)).
Proof.
  induction rcs as [|rc rcs IH]; intros error s; cbn [perform_loop].
  - intros i r Hin. inversion Hin.
  - rewrite emitted_bind. apply secgroup_deletions_listed_app.
    + apply perform_on_class_secgroups_listed.
    + destruct (res _); [apply IH|]. intros i r Hin. inversion Hin.
Qed.

End SecgroupsLoop.

(** C10.  What [NeutronSecgroups.list] returns holds no group named
    [default] and only groups whose [tenant_id] is the project id of the
    instance.  Hence, in any run of [perform_on_project], whatever the
    backend answers, every security group deleted was returned by
    [list_security_groups] under another name than [default] and with
    the [tenant_id] of the purged project. *)
Theorem default_secgroup_never_deleted {W} (B : Backend W) :
  (forall self s l,
      res (NeutronSecgroups_list B self s) = Ok l ->
      Forall (fun sg => name sg <> "default"
                        /\ tenant_id sg = self_project_id self) l)
  /\ (forall admin_name password project auth_url endpoint_type region_name
             action insecure s,
        secgroup_deletions_listed project
          (emitted (perform_on_project B admin_name password project
                      auth_url endpoint_type region_name action insecure
                      s))).
Proof.
  split.
  - intros self s l Hres.
    destruct (NeutronSecgroups_list_Ok B self s l Hres) as (sgs & _ & ->).
    apply Forall_forall. intros sg Hsg.
    apply list_elem_of_filter in Hsg as [[Hname Hown] _]. now split.
  - intros admin_name password project auth_url endpoint_type region_name
      action insecure s.
    rewrite perform_on_project_eq.
    destruct (Session_init_emitted B admin_name password project auth_url
                endpoint_type region_name insecure s) as (_ & Hreq & Hid).
    assert (Hinit : secgroup_deletions_listed project
                      (emitted (Session_init B admin_name password project
                                  auth_url endpoint_type region_name
                                  insecure s))).
    { intros i r Hin. exfalso.
      assert (Hq : delete_security_group i
                   ∈ requests (emitted (Session_init B admin_name password
                                          project auth_url endpoint_type
                                          region_name insecure s))).
      { apply list_elem_of_omap. eexists. split; [exact Hin|reflexivity]. }
      rewrite Hreq in Hq. inversion Hq. }
    destruct (res (Session_init B admin_name password project auth_url
                     endpoint_type region_name insecure s))
      as [session|e]; [|exact Hinit].
    cbn [emitted]. apply secgroup_deletions_listed_app; [exact Hinit|].
    rewrite <- (Hid session eq_refl).
    apply perform_loop_secgroups_listed.
Qed.

Lemma default_secgroup_never_deleted_witness :
  res (NeutronSecgroups_list cloud
         {| cls := NeutronSecgroups; self_project_id := "p1" |} cloud0)
  = Ok [res_ "g1" "ssh" "p1"]
  /\ Forall (fun sg => name sg <> "default" /\ tenant_id sg = "p1")
            [res_ "g1" "ssh" "p1"].
Proof.
  split; [vm_compute; reflexivity|].
  apply (proj1 (default_secgroup_never_deleted cloud)
           {| cls := NeutronSecgroups; self_project_id := "p1" |} cloud0).
  vm_compute. reflexivity.
Defined.

(** ** Elevation and unwinding *)

Section Keystone.

Context {W : Type} (B : Backend W).

Ltac run_backend :=
  repeat match goal with
         | |- context [run_tenants_get B ?a ?s] =>
             destruct (run_tenants_get B a s) as [[?|?] ?]; simpl
         | |- context [run_tenants_list B ?s] =>
             destruct (run_tenants_list B s) as [[?|?] ?]; simpl
         | |- context [run_tenants_update B ?a ?b ?s] =>
             destruct (run_tenants_update B a b s) as [[?|?] ?]; simpl
         | |- context [run_tenants_delete B ?a ?s] =>
             destruct (run_tenants_delete B a s) as [[?|?] ?]; simpl
         | |- context [run_roles_list B ?s] =>
             destruct (run_roles_list B s) as [[?|?] ?]; simpl
         | |- context [run_add_user_role B ?a ?b ?c ?s] =>
             destruct (run_add_user_role B a b c s) as [[?|?] ?]; simpl
         | |- context [run_remove_user_role B ?a ?b ?c ?s] =>
             destruct (run_remove_user_role B a b c s) as [[?|?] ?]; simpl
         | |- context [authenticate B ?a ?s] =>
             destruct (authenticate B a s) as [[?|?] ?]; simpl
         | |- context [decide ?P] => destruct (decide P); simpl
         | |- context [filter ?P ?l] => destruct (filter P l); simpl
         end.

Ltac unfold_keystone :=
  unfold unwind, disable_project, enable_project, undo_become_project_admin,
    become_project_admin, get_admin_role_id, delete_project,
    client_tenants_get, client_tenants_list, client_tenants_update,
    client_tenants_delete, client_roles_list, client_add_user_role,
    client_remove_user_role, keystone, logging_info, emit, bind, ret, raise.

Lemma mutations_app evs evs' :
  mutations (evs ++ evs') = (mutations evs ++ mutations evs')%list.
Proof.
  unfold mutations, keystone_calls. now rewrite omap_app, List.filter_app.
Qed.

Lemma disable_project_mutations km pid s :
  mutations (emitted (disable_project B km pid s))
  = [tenants_update pid false]
  /\ forall km', res (disable_project B km pid s) = Ok km' ->
                 client km' = client km.
Proof.
  unfold_keystone. simpl. run_backend; split; try reflexivity;
    try discriminate.
  now intros km' [= <-].
Qed.

Lemma get_admin_role_id_mutations km s :
  mutations (emitted (get_admin_role_id B km s)) = []
  /\ grant_outcomes (emitted (get_admin_role_id B km s)) = []
  /\ tenant_reports (emitted (get_admin_role_id B km s)) = []
  /\ forall ro km', res (get_admin_role_id B km s) = Ok (ro, km') ->
        client km' = client km /\ tenant_info km' = tenant_info km.
Proof.
  unfold_keystone. destruct (admin_role_id km); simpl; run_backend;
    (split; [reflexivity|split; [reflexivity|split; [reflexivity|]]]);
    intros ro' km' H; try discriminate;
    injection H as <- <-; split; reflexivity.
Qed.

Lemma undo_become_project_admin_mutations km pid s :
  exists ro,
    mutations (emitted (undo_become_project_admin B km pid s))
      `prefix_of` [remove_user_role (auth_user_id (client km)) ro pid]
    /\ (forall km', res (undo_become_project_admin B km pid s) = Ok km' ->
        mutations (emitted (undo_become_project_admin B km pid s))
        = [remove_user_role (auth_user_id (client km)) ro pid]).
Proof.
  unfold undo_become_project_admin.
  destruct (get_admin_role_id_mutations km s) as (Hm & _ & _ & _).
  rewrite res_bind, emitted_bind, mutations_app, Hm. cbn [app].
  destruct (res (get_admin_role_id B km s)) as [[ro km1]|e].
  - exists ro. unfold_keystone. simpl. run_backend.
    + split; [reflexivity|]. intros; reflexivity.
    + split; [reflexivity|discriminate].
  - exists "". split; [apply prefix_nil|discriminate].
Qed.

Lemma unwind_mutations km pid r d s :
  exists ro,
    mutations (emitted (unwind B km pid r d s))
      `prefix_of` unwind_calls (auth_user_id (client km)) ro pid r d
    /\ (res (unwind B km pid r d s) = Ok tt ->
        mutations (emitted (unwind B km pid r d s))
        = unwind_calls (auth_user_id (client km)) ro pid r d).
Proof.
  unfold unwind, unwind_calls. rewrite res_bind, emitted_bind, mutations_app.
  destruct d.
  - destruct (disable_project_mutations km pid s) as (Hm & Hkm).
    rewrite Hm.
    destruct (res (disable_project B km pid s)) as [km1|e].
    + rewrite <- (Hkm km1 eq_refl). destruct r.
      * destruct (undo_become_project_admin_mutations km1 pid
                    (final (disable_project B km pid s)))
          as (ro & Hp & He).
        exists ro. rewrite res_bind, emitted_bind, mutations_app.
        destruct (res (undo_become_project_admin B km1 pid _)) as [km2|e].
        -- rewrite (He km2 eq_refl). cbn. split; [reflexivity|auto].
        -- cbn [emitted app mutations]. rewrite app_nil_r.
           split; [|discriminate]. now apply prefix_cons.
      * exists "". cbn. split; [reflexivity|auto].
    + exists "". cbn [app]. split; [|discriminate].
      cbn. destruct r; [apply prefix_cons, prefix_nil|reflexivity].
  - cbn [ret res emitted final app]. destruct r.
    + destruct (undo_become_project_admin_mutations km pid s)
        as (ro & Hp & He).
      exists ro. rewrite res_bind, emitted_bind, mutations_app.
      destruct (res (undo_become_project_admin B km pid s)) as [km2|e].
      * rewrite (He km2 eq_refl). cbn. split; [reflexivity|auto].
      * cbn [emitted mutations]. rewrite app_nil_r.
        split; [exact Hp|discriminate].
    + exists "". cbn. split; [reflexivity|auto].
Qed.

Lemma get_project_id_shape km ref s :
  tenant_info km = None ->
  let o := get_project_id B km ref s in
  mutations (emitted o) = []
  /\ grant_outcomes (emitted o) = []
  /\ forall pid km',
       res o = Ok (pid, km') ->
       client km' = client km /\ admin_role_id km' = admin_role_id km
       /\ match ref with
          | None => tenant_info km' = None /\ tenant_reports (emitted o) = []
          | Some _ =>
              exists t, tenant_info km' = Some t
                        /\ tenant_reports (emitted o) = [t]
          end.
Proof.
  destruct km as [c a ti]. simpl. intros ->.
  unfold get_project_id, try_except, set_tenant_info.
  unfold_keystone.
  destruct ref as [ref|]; simpl.
  - destruct (run_tenants_get B ref s) as [[t|e] s1]; simpl.
    + split; [reflexivity|]. split; [reflexivity|].
      intros pid km' H. injection H as <- <-. simpl. eauto.
    + destruct e; simpl;
        try (split; [reflexivity|]; split; [reflexivity|];
             intros; discriminate).
      destruct (run_tenants_list B s1) as [[ts|e2] s2]; simpl.
      * destruct (filter (fun x => t_name x = ref) ts) as [|x xs]; simpl.
        -- split; [reflexivity|]. split; [reflexivity|].
           intros; discriminate.
        -- destruct (run_tenants_get B (t_id x) s2) as [[t|e] s3]; simpl;
             (split; [reflexivity|]; split; [reflexivity|]);
             intros pid km' H; try discriminate.
           injection H as <- <-. simpl. eauto.
      * destruct e2; simpl;
          (split; [reflexivity|]; split; [reflexivity|]);
          intros; discriminate.
  - split; [reflexivity|]. split; [reflexivity|].
    intros pid km' H. injection H as <- <-. simpl. eauto.
Qed.

Lemma grant_outcomes_app evs evs' :
  grant_outcomes (evs ++ evs')
  = (grant_outcomes evs ++ grant_outcomes evs')%list.
Proof. apply omap_app. Qed.

Lemma tenant_reports_app evs evs' :
  tenant_reports (evs ++ evs')
  = (tenant_reports evs ++ tenant_reports evs')%list.
Proof. apply omap_app. Qed.

Lemma become_project_admin_shape km pid s :
  let o := become_project_admin B km pid s in
  tenant_reports (emitted o) = []
  /\ (forall km',
        res o = Ok km' ->
        client km' = client km /\ tenant_info km' = tenant_info km
        /\ grant_outcomes (emitted o) = [Ok NoReply])
  /\ (forall e,
        res o = Raise e ->
        grant_outcomes (emitted o) = []
        \/ grant_outcomes (emitted o) = [Raise e]).
Proof.
  unfold become_project_admin.
  destruct (get_admin_role_id_mutations km s) as (_ & Hg & Ht & Hkm).
  cbv zeta. rewrite !res_bind, !emitted_bind.
  rewrite grant_outcomes_app, tenant_reports_app, Ht, Hg.
  destruct (res (get_admin_role_id B km s)) as [[ro km1]|e].
  - destruct (Hkm ro km1 eq_refl) as [Hc Hi].
    unfold client_add_user_role, keystone, logging_info, emit, bind, ret.
    simpl.
    destruct (run_add_user_role B (auth_user_id (client km)) ro pid _)
      as [[[]|e] s2]; simpl.
    + split; [reflexivity|]. split; [|intros; discriminate].
      intros km' H. injection H as <-. auto.
    + split; [reflexivity|]. split; [intros; discriminate|].
      intros e' H. injection H as <-. auto.
  - simpl. split; [reflexivity|]. split; [intros; discriminate|auto].
Qed.

Lemma try_become_project_admin_shape km pid s :
  let o := try_become_project_admin B km pid s in
  tenant_reports (emitted o) = []
  /\ forall r km',
       res o = Ok (r, km') ->
       client km' = client km /\ tenant_info km' = tenant_info km
       /\ (r = true <-> grant_outcomes (emitted o) = [Ok NoReply])
       /\ (grant_outcomes (emitted o) = []
           \/ grant_outcomes (emitted o) = [Ok NoReply]
           \/ grant_outcomes (emitted o) = [Raise Conflict]).
Proof.
  unfold try_become_project_admin.
  destruct (become_project_admin_shape km pid s) as (Ht & Hok & Hraise).
  destruct (res (become_project_admin B km pid s)) as [km1|e] eqn:Hr.
  - destruct (Hok km1 eq_refl) as (Hc & Hi & Hg).
    rewrite try_except_Ok with (a := (true, km1));
      rewrite (bind_Ok _ _ _ _ Hr); [|reflexivity].
    unfold prepend. cbn [ret res emitted final]. rewrite app_nil_r.
    split; [exact Ht|]. intros r km' H. injection H as <- <-.
    repeat split; auto.
  - assert (Hb : bind (become_project_admin B km pid)
                   (fun km0 => ret (true, km0)) s
                 = Out (Raise e) (final (become_project_admin B km pid s))
                       (emitted (become_project_admin B km pid s))).
    { now rewrite (bind_Raise _ _ _ _ Hr). }
    destruct (decide (e = Conflict)) as [->|Hne].
    + erewrite try_except_caught; [|rewrite Hb; reflexivity|reflexivity].
      rewrite Hb. unfold prepend. cbn [ret res emitted final].
      rewrite app_nil_r. split; [exact Ht|].
      intros r km' H. injection H as <- <-.
      split; [reflexivity|]. split; [reflexivity|].
      destruct (Hraise Conflict eq_refl) as [Hg|Hg]; rewrite Hg;
        split; auto; split; discriminate.
    + rewrite try_except_uncaught with (e := e);
        [|rewrite Hb; reflexivity|destruct e; congruence].
      rewrite Hb. cbn [res emitted]. split; [exact Ht|].
      intros; discriminate.
Qed.

Lemma enable_project_shape km pid s :
  let o := enable_project B km pid s in
  mutations (emitted o) = [tenants_update pid true]
  /\ grant_outcomes (emitted o) = []
  /\ tenant_reports (emitted o) = []
  /\ forall km', res o = Ok km' -> client km' = client km.
Proof.
  unfold_keystone. simpl. run_backend; repeat split; try discriminate.
  all: now intros km' [= <-].
Qed.

Lemma elevate_flags args km s pid r d km' :
  tenant_info km = None ->
  res (elevate B args km s) = Ok (pid, r, d, km') ->
  let evs := emitted (elevate B args km s) in
  client km' = client km
  /\ (r = true <-> grant_outcomes evs = [Ok NoReply])
  /\ (grant_outcomes evs = [] \/ grant_outcomes evs = [Ok NoReply]
      \/ grant_outcomes evs = [Raise Conflict])
  /\ (d = true <->
      own_project args = false
      /\ exists t, tenant_reports evs = [t] /\ enabled t = false)
  /\ (own_project args = true -> r = false /\ d = false).
Proof.
  intros Hti. unfold elevate. cbv zeta.
  rewrite res_bind, emitted_bind, grant_outcomes_app, tenant_reports_app.
  destruct (get_project_id_shape km (cleanup_project args) s Hti)
    as (_ & Hg0 & Hshape). rewrite Hg0. cbn [app].
  destruct (res (get_project_id B km (cleanup_project args) s))
    as [[pid0 km1]|e]; [|discriminate].
  destruct (Hshape pid0 km1 eq_refl) as (Hc1 & _ & Href). clear Hshape.
  set (s1 := final (get_project_id B km (cleanup_project args) s)).
  destruct (own_project args) eqn:Hown; cbn [negb].
  - cbn [ret res emitted]. intros H. injection H as <- <- <- <-.
    rewrite app_nil_r.
    repeat split; auto; try discriminate; intros (? & _); discriminate.
  - rewrite res_bind, emitted_bind, grant_outcomes_app, tenant_reports_app.
    destruct (try_become_project_admin_shape km1 pid0 s1) as (Ht1 & Hgr).
    rewrite Ht1. cbn [app].
    destruct (res (try_become_project_admin B km1 pid0 s1))
      as [[r1 km2]|e]; [|discriminate].
    destruct (Hgr r1 km2 eq_refl) as (Hc2 & Hi2 & Hr1 & Hg1). clear Hgr.
    set (s2 := final (try_become_project_admin B km1 pid0 s1)).
    destruct (cleanup_project args) as [ref|].
    + destruct Href as (t & Hinfo & Hrep). rewrite Hi2, Hinfo, Hrep.
      destruct (enabled t) eqn:Hen; cbn [negb].
      * cbn [ret res emitted]. intros H. injection H as <- <- <- <-.
        rewrite !app_nil_r.
        split; [congruence|]. split; [exact Hr1|]. split; [exact Hg1|].
        split; [|intros; discriminate].
        split; [discriminate|].
        intros (_ & t' & Ht' & Hen'). injection Ht' as <-. congruence.
      * rewrite res_bind, emitted_bind, grant_outcomes_app,
          tenant_reports_app.
        destruct (enable_project_shape km2 pid0 s2) as (_ & Hg3 & Ht3 & Hc3).
        rewrite Hg3, Ht3.
        destruct (res (enable_project B km2 pid0 s2)) as [km3|e];
          [|discriminate].
        cbn [ret res emitted]. intros H. injection H as <- <- <- <-.
        rewrite !app_nil_r.
        split; [rewrite (Hc3 km3 eq_refl); congruence|].
        split; [exact Hr1|]. split; [exact Hg1|].
        split; [|intros; discriminate].
        split; [|reflexivity]. intros _. split; [reflexivity|]. eauto.
    + destruct Href as (Hinfo & _). rewrite Hi2, Hinfo. discriminate.
Qed.

End Keystone.

Section Main.

Context {W : Type} (B : Backend W).

(** A [try] whose handlers all leave by raising returns normally only
    if its body does. *)
Lemma try_except_Ok_inv {A} (m : M W A) h s a :
  (forall e k s', h e = Some k -> exists e', res (k s') = Raise e') ->
  res (try_except m h s) = Ok a ->
  try_except m h s = m s /\ res (m s) = Ok a.
Proof.
  intros Hh. unfold try_except.
  destruct (res (m s)) as [a'|e] eqn:Hr; [rewrite Hr; auto|].
  destruct (h e) as [k|] eqn:Hk; [|rewrite Hr; discriminate].
  destruct (Hh e k (final (m s)) Hk) as [e' He']. cbn. rewrite He'.
  discriminate.
Qed.

Lemma parse_args_checks_cases args s :
  parse_args_checks args s = Out (W:=W) (Ok tt) s []
  \/ res (parse_args_checks (W:=W) args s) = Raise (SystemExit 2).
Proof.
  unfold parse_args_checks, sys_exit, bind, ret, raise.
  destruct (truthy (cleanup_project args)), (own_project args); cbn; auto.
Qed.

(** [setup] returns what [elevate] returns, on a manager that has
    fetched nothing yet. *)
Lemma setup_Ok args s x :
  res (setup B args s) = Ok x ->
  exists km0 s0 a,
    tenant_info km0 = None
    /\ res (elevate B args km0 s0) = Ok x
    /\ emitted (setup B args s)
       = EvAuthenticate (admin_project args) a
         :: emitted (elevate B args km0 s0)
    /\ final (setup B args s) = final (elevate B args km0 s0)
    /\ admin_role_id km0 = None.
Proof.
  unfold setup. rewrite res_bind, emitted_bind, final_bind.
  destruct (parse_args_checks_cases args s) as [Hp|Hp];
    [|rewrite Hp; discriminate].
  rewrite Hp. cbn [res final emitted app].
  rewrite res_bind, emitted_bind, final_bind.
  match goal with
  | |- context [res (?m s)] => set (KM := m)
  end.
  destruct (res (KM s)) as [km0|e] eqn:HKM; [|discriminate].
  apply try_except_Ok_inv in HKM as [HKMeq HKMres].
  2:{ intros e k s' Hk. destruct e; try discriminate.
      injection Hk as <-. eexists. unfold sys_exit, print, emit, bind, raise.
      reflexivity. }
  subst KM. rewrite HKMeq. clear HKMeq.
  revert HKMres. unfold KeystoneManager_init, keystone_client_Client.
  rewrite res_bind, emitted_bind, final_bind. cbn [ret res emitted final].
  destruct (authenticate B (admin_project args) s) as [[c|e] s0];
    cbn [res final emitted app]; [|discriminate].
  intros [= <-] Hel.
  apply try_except_Ok_inv in Hel as [Heq Hres].
  2:{ intros e k s' Hk. destruct e; try discriminate;
        injection Hk as <-; eexists;
        unfold sys_exit, print, emit, bind, raise; reflexivity. }
  rewrite Heq.
  exists {| client := c; admin_role_id := None; tenant_info := None |},
         s0, (Ok c).
  split; [reflexivity|]. split; [exact Hres|]. repeat split.
Qed.

Lemma not_keystone_mutations evs :
  Forall not_keystone evs -> mutations evs = [].
Proof.
  unfold mutations, keystone_calls.
  induction 1 as [|ev evs Hev _ IH]; [reflexivity|].
  destruct ev; simpl in *; try assumption; contradiction.
Qed.

Lemma class_event_not_keystone R ev : class_event R ev -> not_keystone ev.
Proof. destruct ev; simpl; tauto. Qed.

Lemma process_class_not_keystone session action rc :
  emits not_keystone (process_class B session action rc).
Proof.
  unfold process_class. apply emits_bind; [apply emits_emit; exact I|].
  intros _. destruct (globals rc) as [k|]; [|apply emits_raise].
  apply emits_bind.
  - eapply emits_weaken; [apply class_event_not_keystone|].
    apply Resources_init_emits.
  - intros self. destruct (decide (action = "purge")).
    + eapply emits_weaken; [apply class_event_not_keystone|].
      apply purge_emits.
    + destruct (decide (action = "dump")); [|apply emits_raise].
      eapply emits_weaken; [apply class_event_not_keystone|].
      apply dump_emits.
Qed.

Lemma perform_loop_not_keystone session action rcs : forall error,
  emits not_keystone (perform_loop B session action rcs error).
Proof.
  induction rcs as [|rc rcs IH]; intros error; cbn [perform_loop].
  - apply emits_ret.
  - apply emits_bind; [|intros; apply IH].
    unfold perform_on_class. apply emits_try_except.
    + apply emits_bind; [apply process_class_not_keystone|].
      intros; apply emits_ret.
    + intros e k Hk. destruct (ignored_exception e).
      * injection Hk as <-. apply emits_ret.
      * destruct (invalid_endpoint_exception e); [|discriminate].
        injection Hk as <-. apply emits_bind; [apply emits_emit; exact I|].
        intros; apply emits_ret.
Qed.

Lemma perform_on_project_not_keystone u p project url et rn action ins :
  emits not_keystone (perform_on_project B u p project url et rn action ins).
Proof.
  unfold perform_on_project. apply emits_bind.
  - unfold Session_init. apply emits_bind; [|intros; apply emits_ret].
    intros s. unfold keystone_client_Client.
    destruct (authenticate B project s). repeat constructor.
  - intros session. apply emits_bind; [apply perform_loop_not_keystone|].
    intros [e|]; [apply emits_raise|apply emits_ret].
Qed.

Lemma proper_cleanup_not_keystone args pid :
  emits not_keystone (proper_cleanup B args pid).
Proof.
  unfold proper_cleanup. apply emits_try_except.
  - apply perform_on_project_not_keystone.
  - intros e k Hk. unfold print, sys_exit.
    destruct e; try discriminate; injection Hk as <-;
      repeat first [apply emits_bind | apply emits_emit | apply emits_raise
                   | intro | exact I].
Qed.

Lemma proper_cleanup_res args pid s :
  let op := perform_on_project B (arg_username args) (arg_password args)
              pid (arg_auth_url args) (arg_endpoint_type args)
              (arg_region_name args)
              (if dry_run args then "dump" else "purge")
              (arg_insecure args) s in
  res (proper_cleanup B args pid s)
  = match res op with
    | Ok _ => Ok tt
    | Raise e => Raise (purge_failure e)
    end
  /\ final (proper_cleanup B args pid s) = final op.
Proof.
  intros op. unfold proper_cleanup, try_except. cbv zeta. fold op.
  destruct (res op) as [[]|e] eqn:Hr; [rewrite Hr; auto|].
  unfold print, sys_exit, emit, bind, raise.
  destruct e; cbn; rewrite ?Hr; auto.
Qed.

Lemma main_eq args s pid r d km :
  res (setup B args s) = Ok (pid, r, d, km) ->
  main B args s
  = prepend (emitted (setup B args s))
      (bind (proper_cleanup B args pid) (fun _ => finish B args km pid r d)
            (final (setup B args s))).
Proof. intros H. unfold main. now rewrite (bind_Ok _ _ _ _ H). Qed.

Lemma main_keeps_project args s pid r d km :
  res (setup B args s) = Ok (pid, r, d, km) ->
  let s1 := final (setup B args s) in
  let op := perform_on_project B (arg_username args) (arg_password args)
              pid (arg_auth_url args) (arg_endpoint_type args)
              (arg_region_name args)
              (if dry_run args then "dump" else "purge")
              (arg_insecure args) s1 in
  res op = Ok tt -> deletes_project args = false ->
  main B args s
  = prepend (emitted (setup B args s)
             ++ emitted (proper_cleanup B args pid s1))
      (bind (unwind B km pid r d) (fun _ => sys_exit 0) (final op)).
Proof.
  intros Hsetup s1 op Hop Hdel.
  destruct (proper_cleanup_res args pid s1) as [Hres Hfinal].
  fold op in Hres, Hfinal. rewrite Hop in Hres.
  rewrite (main_eq _ _ _ _ _ _ Hsetup). fold s1.
  rewrite (bind_Ok _ _ _ _ Hres), prepend_prepend, Hfinal.
  unfold finish. now rewrite Hdel.
Qed.

End Main.

(** C3.  The unwind is missed when the purge raises.  On a cloud
    where a server cannot be deleted, [main] grants itself the admin
    role and enables the project, the purge raises [DeletionFailed],
    and [main] leaves with status 4 having neither revoked the role nor
    disabled the project: the operator stays admin of a project left
    enabled.  On the same cloud with the server deletable, the same
    call undoes both before it leaves. *)
Theorem unwind_skipped_when_purge_fails :
  let o := main cloud args0 stubborn in
  let o' := main cloud args0 cloud0 in
  (res o = Raise (SystemExit 4)
   /\ mutations (emitted o)
      = [add_user_role "operator" "r1" "p1"; tenants_update "p1" true]
   /\ ~ unwinds_what_it_acquired (emitted o)
   /\ cloud_user_is_admin (final o) = true
   /\ enabled (cloud_tenant (final o)) = true)
  /\ (res o' = Raise (SystemExit 0)
      /\ mutations (emitted o')
         = [add_user_role "operator" "r1" "p1"; tenants_update "p1" true;
            tenants_update "p1" false;
            remove_user_role "operator" "r1" "p1"]
      /\ cloud_user_is_admin (final o') = false
      /\ enabled (cloud_tenant (final o')) = false).
Proof.
  intros o o'. split; [|repeat split; vm_compute; reflexivity].
  assert (Hcalls : keystone_calls (emitted o)
                   = [tenants_get "tenant"; tenants_list; tenants_get "p1";
                      roles_list; add_user_role "operator" "r1" "p1";
                      tenants_update "p1" true])
    by (vm_compute; reflexivity).
  split; [vm_compute; reflexivity|].
  split; [unfold mutations; rewrite Hcalls; reflexivity|].
  split; [|split; vm_compute; reflexivity].
  intros [Hrevoke _].
  destruct (Hrevoke "operator" "r1" "p1") as [x Hx].
  - apply list_elem_of_In. vm_compute. tauto.
  - assert (Hin : remove_user_role "operator" "r1" "p1"
                  ∈ keystone_calls (emitted o)).
    { apply list_elem_of_omap. eexists. split; [exact Hx|reflexivity]. }
    rewrite Hcalls in Hin. apply list_elem_of_In in Hin. simpl in Hin.
    intuition discriminate.
Qed.

(** The exits of [main] after the setup, whatever the backend.  If
    [perform_on_project] raises, [main] leaves there and then (with
    status 5 for a connection error, 4 for [DeletionFailed] or
    [InvalidEndpoint], the exception itself otherwise) and makes no
    keystone call after the setup.  If it returns and the project is
    deleted, the only call is the deletion.  The unwind runs exactly
    when it returns and the project is kept. *)
Theorem unwind_runs_only_after_purge_returns {W} (B : Backend W)
    (args : Args) (s : W) (pid : string) (r d : bool)
    (km : KeystoneManager) :
  res (setup B args s) = Ok (pid, r, d, km) ->
  let s1 := final (setup B args s) in
  let op := perform_on_project B (arg_username args) (arg_password args)
              pid (arg_auth_url args) (arg_endpoint_type args)
              (arg_region_name args)
              (if dry_run args then "dump" else "purge")
              (arg_insecure args) s1 in
  let o := main B args s in
  (forall e, res op = Raise e ->
      res o = Raise (purge_failure e)
      /\ final o = final op
      /\ mutations (emitted o) = mutations (emitted (setup B args s)))
  /\ (res op = Ok tt -> deletes_project args = true ->
      mutations (emitted o)
      = (mutations (emitted (setup B args s)) ++ [tenants_delete pid])%list)
  /\ (res op = Ok tt -> deletes_project args = false ->
      o = prepend (emitted (setup B args s)
                   ++ emitted (proper_cleanup B args pid s1))
            (bind (unwind B km pid r d) (fun _ => sys_exit 0) (final op))).
Proof.
  intros Hsetup s1 op o.
  destruct (proper_cleanup_res B args pid s1) as [Hres Hfinal].
  fold op in Hres, Hfinal.
  pose proof (not_keystone_mutations _
                (proper_cleanup_not_keystone B args pid s1)) as Hmut.
  assert (Ho : o = prepend (emitted (setup B args s))
                     (bind (proper_cleanup B args pid)
                           (fun _ => finish B args km pid r d) s1))
    by (apply main_eq; exact Hsetup).
  split; [|split].
  - intros e He. rewrite He in Hres.
    rewrite Ho, (bind_Raise _ _ _ _ Hres). unfold prepend.
    cbn [res final emitted]. rewrite mutations_app, Hmut, app_nil_r. auto.
  - intros Hop Hdel. rewrite Hop in Hres.
    rewrite Ho, (bind_Ok _ _ _ _ Hres). unfold prepend. cbn [emitted].
    rewrite !mutations_app, Hmut. cbn [app]. f_equal.
    unfold finish. rewrite Hdel. unfold delete_project, client_tenants_delete,
      keystone, logging_info, emit, sys_exit, bind, raise. cbn.
    destruct (run_tenants_delete B pid _) as [[[]|e] s2]; reflexivity.
  - intros Hop Hdel. now apply main_keeps_project.
Qed.

Lemma unwind_runs_only_after_purge_returns_witness :
  res (main cloud args0 stubborn) = Raise (SystemExit 4)
  /\ mutations (emitted (main cloud args0 stubborn))
     = [add_user_role "operator" "r1" "p1"; tenants_update "p1" true]
  /\ mutations (emitted (main cloud args0 cloud0))
     = [add_user_role "operator" "r1" "p1"; tenants_update "p1" true;
        tenants_update "p1" false; remove_user_role "operator" "r1" "p1"].
Proof.
  destruct (unwind_runs_only_after_purge_returns cloud args0 stubborn
              "p1" true true manager0) as (Hfail & _ & _);
    [vm_compute; reflexivity|].
  destruct (Hfail (DeletionFailed "NovaServers")) as (Hres & _ & Hmut);
    [vm_compute; reflexivity|].
  destruct (unwind_runs_only_after_purge_returns cloud args0 cloud0
              "p1" true true manager0) as (_ & _ & Hkeep);
    [vm_compute; reflexivity|].
  split; [exact Hres|]. split; [rewrite Hmut; vm_compute; reflexivity|].
  rewrite Hkeep; [vm_compute; reflexivity|vm_compute; reflexivity
                 |reflexivity].
Defined.

(** * Further properties *)

(** ** Session.get_endpoint *)

(** X1.  [get_endpoint] answers with the url that the first entry of
    the service holds for the session's endpoint type, and in every
    other case (unknown service, no entry, first entry without that
    type, even when a later entry has it) raises [EndpointNotFound]
    naming the service type, never anything else. *)
Theorem get_endpoint_reads_first_entry (self : Session)
    (service_type : string) :
  (forall url,
      get_endpoint self service_type = Ok url <->
      exists endpoint rest,
        catalog self !! service_type = Some (endpoint :: rest)
        /\ endpoint !! endpoint_type self = Some url)
  /\ (forall e, get_endpoint self service_type = Raise e ->
                e = EndpointNotFound service_type)
  /\ (forall endpoint rest,
        catalog self !! service_type = Some (endpoint :: rest) ->
        endpoint !! endpoint_type self = None ->
        get_endpoint self service_type
        = Raise (EndpointNotFound service_type)).
Proof.
  unfold get_endpoint. split; [|split].
  - intros url. split.
    + destruct (catalog self !! service_type) as [[|endpoint rest]|];
        simpl; try discriminate.
      destruct (endpoint !! endpoint_type self) as [u|] eqn:Hu;
        [|discriminate].
      intros [= <-]. eauto.
    + intros (endpoint & rest & -> & Hu). simpl. now rewrite Hu.
  - intros e.
    destruct (catalog self !! service_type) as [[|endpoint rest]|];
      simpl; try (intros [= <-]; reflexivity).
    destruct (endpoint !! endpoint_type self); [discriminate|].
    intros [= <-]; reflexivity.
  - intros endpoint rest -> Hu. simpl. now rewrite Hu.
Qed.

Lemma get_endpoint_reads_first_entry_witness :
  get_endpoint session0 "image" = Ok "http://glance"
  /\ get_endpoint session0 "network" = Raise (EndpointNotFound "network").
Proof.
  destruct (get_endpoint_reads_first_entry session0 "image") as (Hok & _ & _).
  destruct (get_endpoint_reads_first_entry session0 "network")
    as (_ & Hraise & _).
  split.
  - apply Hok. exists {[ "publicURL" := "http://glance" ]}, [].
    split; vm_compute; reflexivity.
  - destruct (get_endpoint session0 "network") as [url|e] eqn:He.
    + vm_compute in He. discriminate.
    + now rewrite (Hraise e eq_refl).
Defined.

(** ** More on the retry decorator *)

Section RetryMore.

Context {W A : Type} (B : Backend W).
Variable service_name : string.
Variable func : M W A.

Lemma retry_loop_sleeps_bounded : forall fuel n s o,
  quiet func -> 0 <= n <= RETRIES ->
  retry_loop B service_name func fuel n s = Some o ->
  (length (sleeps (emitted o)) <= Z.to_nat (RETRIES - n))%nat.
Proof.
  induction fuel as [|fuel IH]; intros n s o Hq Hn; simpl; [discriminate|].
  pose proof (Hq s) as Hs.
  destruct (res (func s)) as [a|e].
  - intros [= <-]. rewrite Hs. simpl. lia.
  - destruct (is_Exception e); [|intros [= <-]; rewrite Hs; simpl; lia].
    destruct (Z.eqb_spec n RETRIES) as [->|Hne].
    + intros [= <-]. simpl. rewrite Hs. simpl. lia.
    + destruct (retry_loop B service_name func fuel (n + 1) _) as [o'|] eqn:Ho';
        [|discriminate].
      intros [= <-]. apply IH in Ho'; [|assumption|lia].
      cbn [prepend emitted]. rewrite !sleeps_app, Hs. simpl.
      replace (Z.to_nat (RETRIES - n)) with (S (Z.to_nat (RETRIES - (n + 1))))
        by lia.
      lia.
Qed.

Lemma retry_loop_Ok_inv : forall fuel n s o a,
  retry_loop B service_name func fuel n s = Some o -> res o = Ok a ->
  exists s' evs,
    res (func s') = Ok a /\ final o = final (func s')
    /\ emitted o = (evs ++ emitted (func s'))%list.
Proof.
  induction fuel as [|fuel IH]; intros n s o a; simpl; [discriminate|].
  destruct (res (func s)) as [a'|e] eqn:Hr.
  - intros [= <-] Ha. exists s, []. rewrite Hr in Ha. injection Ha as <-.
    repeat split. exact Hr.
  - destruct (is_Exception e).
    + destruct (n =? RETRIES); [intros [= <-]; discriminate|].
      destruct (retry_loop B service_name func fuel (n + 1) _) as [o'|] eqn:Ho';
        [|discriminate].
      intros [= <-] Ha. cbn [prepend res] in Ha.
      destruct (IH _ _ _ _ Ho' Ha) as (s' & evs & Hres & Hfin & Hev).
      exists s'. eexists. split; [exact Hres|]. split; [exact Hfin|].
      cbn [prepend emitted]. rewrite Hev, app_assoc. reflexivity.
    + intros [= <-] Ha. congruence.
Qed.

End RetryMore.

(** X2.  A wrapped call that fails [k] times, [k] at most 10, and then
    succeeds makes [retry] return its result after exactly [k] sleeps
    of 5 seconds, in the state the successful call leaves.  With
    [k = 0] the wrapper is the call: nothing is logged, nothing
    slept. *)
Theorem retry_sleeps_once_per_failure {W A} (B : Backend W)
    (service_name : string) (func : M W A) (s : W) (k : nat) (a : A) :
  quiet func -> (k <= 10)%nat ->
  (forall i, (i < k)%nat -> fails func (attempt_state B func i s)) ->
  res (func (attempt_state B func k s)) = Ok a ->
  let o := retry B service_name func s in
  res o = Ok a
  /\ sleeps (emitted o) = replicate k 5
  /\ final o = final (func (attempt_state B func k s))
  /\ (k = 0%nat -> o = func s).
Proof.
  intros Hq Hk Hfail Hok o.
  assert (Ho : o = prepend (retry_events B func k 0 s)
                           (func (attempt_state B func k s))).
  { apply retry_unfold.
    apply (retry_loop_succeeds B service_name func k _ 0 s a);
      unfold RETRIES; simpl; try lia; assumption. }
  rewrite Ho. split; [exact Hok|]. split; [|split; [reflexivity|]].
  - unfold prepend. cbn [emitted].
    rewrite sleeps_app, (sleeps_retry_events B func k 0 s Hq), Hq.
    now rewrite app_nil_r.
  - intros ->. simpl. apply prepend_nil.
Qed.

Lemma retry_sleeps_once_per_failure_witness :
  let func := Resources_delete cloud nova (res_ "s1" "web" "p1") in
  sleeps (emitted (retry cloud "NovaServers" func (flaky 3))) = [5; 5; 5]
  /\ retry cloud "NovaServers" func cloud0 = func cloud0.
Proof.
  intros func. split.
  - destruct (retry_sleeps_once_per_failure cloud "NovaServers" func
                (flaky 3) 3 tt (Resources_delete_quiet cloud nova _))
      as (_ & Hsleeps & _); [lia| |vm_compute; reflexivity|exact Hsleeps].
    intros i Hi.
    do 3 (destruct i as [|i];
          [eexists; split; [vm_compute; reflexivity|reflexivity]|]).
    lia.
  - destruct (retry_sleeps_once_per_failure cloud "NovaServers" func
                cloud0 0 tt (Resources_delete_quiet cloud nova _))
      as (_ & _ & _ & H); [lia|intros i Hi; lia|vm_compute; reflexivity|].
    now apply H.
Defined.

(** X3.  Whatever the wrapped call does, [retry] sleeps at most 10
    times, and what it raises is [DeletionFailed] naming the service or
    an exception that is no [Exception]; such a one ([SystemExit]) is
    let through at the first call, without retry. *)
Theorem retry_is_bounded {W A} (B : Backend W) (service_name : string)
    (func : M W A) (s : W) :
  quiet func ->
  (length (sleeps (emitted (retry B service_name func s))) <= 10)%nat
  /\ (forall e, res (retry B service_name func s) = Raise e ->
                e = DeletionFailed service_name \/ is_Exception e = false)
  /\ (forall e, res (func s) = Raise e -> is_Exception e = false ->
                retry B service_name func s = func s).
Proof.
  intros Hq. split; [|split].
  - pose proof (retry_never_falls_back B service_name func s) as H.
    apply retry_loop_sleeps_bounded in H; [|assumption|unfold RETRIES; lia].
    exact H.
  - intros e. apply retry_raises.
  - intros e Hr He. apply retry_unfold. simpl. now rewrite Hr, He.
Qed.

Lemma retry_is_bounded_witness :
  let func := Resources_delete cloud nova (res_ "s1" "web" "p1") in
  (length (sleeps (emitted (retry cloud "NovaServers" func (flaky 40))))
   <= 10)%nat.
Proof.
  intros func.
  apply (retry_is_bounded cloud "NovaServers" func (flaky 40)
           (Resources_delete_quiet cloud nova _)).
Defined.

(** ** The calls of a deletion *)

Section DeleteCalls.

Context {W : Type} (B : Backend W).

Ltac run_requests :=
  repeat match goal with
         | |- context [run_request B ?q ?s] =>
             destruct (run_request B q s) as [[[]|?] ?]; simpl
         | |- context [decide ?P] => destruct (decide P); simpl
         end.

Lemma Resources_delete_calls self r s :
  let o := Resources_delete B self r s in
  requests (emitted o) `prefix_of` delete_requests (cls self) r
  /\ (res o = Ok tt ->
      requests (emitted o) = delete_requests (cls self) r
      /\ failed_requests (emitted o) = []
      /\ deletion_call (cls self) r ∈ succeeded (emitted o)
      /\ exists text,
           resource_str (cls self) r = Ok text
           /\ EvLog INFO ("* Deleting " +:+ text +:+ ".") ∈ emitted o)
  /\ (forall e, res o = Raise e ->
        (resource_str (cls self) r = Raise e
         /\ failed_requests (emitted o) = [])
        \/ (exists q, failed_requests (emitted o) = [q]
                      /\ last (requests (emitted o)) = Some q)).
Proof.
  unfold Resources_delete, Resources_base_delete, delete_requests,
    deletion_call, logging_info, emit, client_call, lift_result, bind, ret.
  destruct (resource_str (cls self) r) as [text|err];
    destruct (cls self); simpl; run_requests;
    (split; [eexists; reflexivity|split]);
    try (intros; discriminate);
    try (intros _; split; [reflexivity|]; split; [reflexivity|];
         split; [apply list_elem_of_In; simpl; tauto|];
         exists text; split; [reflexivity|];
         apply list_elem_of_In; simpl; tauto);
    try (intros e' He';
         first [ left; split; [congruence|reflexivity]
               | right; eexists; split; reflexivity ]).
Qed.

Lemma Resources_list_only_lists self :
  emits is_listing_event (Resources_list B self).
Proof.
  assert (Hloop : forall conts acc,
            emits is_listing_event (SwiftObjects_list_loop B conts acc)).
  { induction conts as [|cont conts IH]; intros acc; simpl.
    - apply emits_ret.
    - apply emits_bind; [apply emits_client_list; intros; exact I|].
      intros objs. apply IH. }
  unfold Resources_list, SwiftObjects_list, SwiftContainers_list,
    list_containers, NeutronResources_list_routers, NeutronInterfaces_list,
    NeutronPorts_list, NeutronNetworks_list, NeutronSecgroups_list,
    NeutronFloatingIps_list, GlanceImages_list, CeilometerAlarms_list.
  destruct (cls self);
    repeat first
      [ apply emits_ret | apply emits_raise | apply emits_bind
      | apply emits_try_except | apply emits_client_list
      | apply Hloop | progress intros ];
    try exact I.
  - destruct e; try discriminate. injection H as <-.
    destruct (status_code =? 404); apply emits_raise.
  - injection H as <-. apply emits_ret.
Qed.

Lemma succeeded_app evs evs' :
  succeeded (evs ++ evs') = (succeeded evs ++ succeeded evs')%list.
Proof. apply omap_app. Qed.

Lemma retry_Ok_deleted self r s :
  res (retry B (class_name (cls self)) (Resources_delete B self r) s) = Ok tt ->
  [deletion_call (cls self) r]
    `sublist_of`
  succeeded (emitted (retry B (class_name (cls self))
                        (Resources_delete B self r) s)).
Proof.
  intros Hres.
  pose proof (retry_never_falls_back B (class_name (cls self))
                (Resources_delete B self r) s) as Hloop.
  destruct (retry_loop_Ok_inv B _ _ _ _ _ _ tt Hloop Hres)
    as (s' & evs & Hok & _ & Hev).
  rewrite Hev, succeeded_app. apply sublist_inserts_l.
  apply singleton_sublist_l.
  now apply (Resources_delete_calls self r s').
Qed.

Lemma for_each_Ok_deleted self l : forall s,
  res (for_each l (fun r => retry B (class_name (cls self))
                              (Resources_delete B self r)) s) = Ok tt ->
  (deletion_call (cls self) <$> l)
    `sublist_of`
  succeeded (emitted (for_each l (fun r => retry B (class_name (cls self))
                                             (Resources_delete B self r)) s)).
Proof.
  induction l as [|r l IH]; intros s; simpl; [intros; apply sublist_nil_l|].
  rewrite res_bind, emitted_bind.
  destruct (res (retry B (class_name (cls self)) (Resources_delete B self r) s))
    as [[]|e] eqn:Hr; [|discriminate].
  intros Hrest. rewrite succeeded_app.
  apply (sublist_app [_]); [now apply retry_Ok_deleted|now apply IH].
Qed.

End DeleteCalls.

(** X4.  [self.delete(r)] makes the calls of its class in their order
    (for a router the gateway is removed before the router is deleted,
    for an interface the routes are cleared first, an image is
    unprotected first) and stops at the first call that raises.  It
    returns only if every call returned and the message naming the
    resource was logged.  When it raises, either one call failed, the
    last one made, or no call failed and what raised is the formatting
    of that message, a field of the resource not being ASCII. *)
Theorem delete_stops_at_first_failure {W} (B : Backend W)
    (self : Resources) (r : resource) (s : W) :
  let o := Resources_delete B self r s in
  requests (emitted o) `prefix_of` delete_requests (cls self) r
  /\ (res o = Ok tt ->
      requests (emitted o) = delete_requests (cls self) r
      /\ failed_requests (emitted o) = []
      /\ exists text,
           resource_str (cls self) r = Ok text
           /\ EvLog INFO ("* Deleting " +:+ text +:+ ".") ∈ emitted o)
  /\ (forall e, res o = Raise e ->
        (resource_str (cls self) r = Raise e
         /\ failed_requests (emitted o) = [])
        \/ (exists q, failed_requests (emitted o) = [q]
                      /\ last (requests (emitted o)) = Some q)).
Proof.
  destruct (Resources_delete_calls B self r s) as (Hp & Hok & Hraise).
  split; [exact Hp|]. split; [|exact Hraise].
  intros H. destruct (Hok H) as (? & ? & _ & ?). auto.
Qed.

Lemma delete_stops_at_first_failure_witness :
  let routers := {| cls := NeutronRouters; self_project_id := "p1" |} in
  let broken := with_failures cloud0 [(remove_gateway_router "r9", 1%nat)] in
  let accented := res_ "r9" "café" "p1" in
  requests (emitted (Resources_delete cloud routers (res_ "r9" "gw" "p1")
                       cloud0))
  = [remove_gateway_router "r9"; delete_router "r9"]
  /\ (exists q,
        failed_requests
          (emitted (Resources_delete cloud routers (res_ "r9" "gw" "p1")
                      broken))
        = [q]
        /\ last (requests
                   (emitted (Resources_delete cloud routers
                               (res_ "r9" "gw" "p1") broken))) = Some q)
  /\ res (Resources_delete cloud routers accented cloud0)
     = Raise UnicodeEncodeError
  /\ resource_str NeutronRouters accented = Raise UnicodeEncodeError
  /\ emitted (Resources_delete cloud routers accented cloud0) = [].
Proof.
  intros routers broken accented. split; [|split].
  - apply (delete_stops_at_first_failure cloud routers (res_ "r9" "gw" "p1")
             cloud0). vm_compute. reflexivity.
  - destruct (proj2 (proj2 (delete_stops_at_first_failure cloud routers
                              (res_ "r9" "gw" "p1") broken))
                (OtherException "ClientException"))
      as [[Hstr _]|Hq]; [vm_compute; reflexivity|discriminate|exact Hq].
  - destruct (proj2 (proj2 (delete_stops_at_first_failure cloud routers
                              accented cloud0))
                UnicodeEncodeError)
      as [[Hstr _]|(q & Hq & _)]; [vm_compute; reflexivity| |discriminate].
    split; [vm_compute; reflexivity|]. split; [exact Hstr|].
    vm_compute. reflexivity.
Defined.

(** X5.  Purging and dumping are done only if the listing succeeds: when
    [self.list()] raises, [purge] and [dump] raise the same exception
    having emitted what the listing emitted, which is listings only: no
    message, no request. *)
Theorem nothing_without_listing {W} (B : Backend W) (self : Resources)
    (s : W) (e : exn) :
  res (Resources_list B self s) = Raise e ->
  let l := Resources_list B self s in
  purge B self s = Out (Raise e) (final l) (emitted l)
  /\ dump B self s = Out (Raise e) (final l) (emitted l)
  /\ Forall is_listing_event (emitted l).
Proof.
  intros Hr l. unfold purge, dump.
  rewrite !(bind_Raise _ _ _ _ Hr). repeat split.
  apply Resources_list_only_lists.
Qed.

Lemma nothing_without_listing_witness :
  let secgroups := {| cls := NeutronSecgroups; self_project_id := "p1" |} in
  purge cloud secgroups secgroups_disabled
  = Out (Raise ResourceNotEnabled) secgroups_disabled
        [EvListing list_security_groups (Raise (NeutronClientException 404))].
Proof.
  intros secgroups.
  destruct (nothing_without_listing cloud secgroups secgroups_disabled
              ResourceNotEnabled) as (Hp & _); [vm_compute; reflexivity|].
  rewrite Hp. vm_compute. reflexivity.
Defined.

(** X6.  A purge of a class that returns normally has deleted every
    resource it listed: for each of them the deletion call returned, and
    these successful calls were made in the order of the listing. *)
Theorem purge_deletes_all_it_lists {W} (B : Backend W) (self : Resources)
    (s : W) (l : list resource) :
  res (Resources_list B self s) = Ok l ->
  res (purge B self s) = Ok tt ->
  (deletion_call (cls self) <$> l)
    `sublist_of` succeeded (emitted (purge B self s)).
Proof.
  intros Hl. unfold purge. rewrite res_bind, emitted_bind, Hl.
  rewrite res_bind, emitted_bind. cbn [logging_info emit res final emitted].
  intros Hres. rewrite !succeeded_app. do 2 apply sublist_inserts_l.
  now apply for_each_Ok_deleted.
Qed.

Lemma purge_deletes_all_it_lists_witness :
  [servers_delete "s1"; servers_delete "s2"]
    `sublist_of` succeeded (emitted (purge cloud nova (flaky 4))).
Proof.
  apply (purge_deletes_all_it_lists cloud nova (flaky 4)
           [res_ "s1" "web" "p1"; res_ "s2" "db" "p1"]);
    vm_compute; reflexivity.
Defined.

(** ** Properties of a whole run *)

Lemma no_request_requests evs : Forall no_request evs -> requests evs = [].
Proof.
  induction 1 as [|ev evs Hev _ IH]; [reflexivity|].
  destruct ev; simpl in *; try assumption; contradiction.
Qed.

Lemma class_event_refine (R0 R : request -> Prop) evs :
  Forall (class_event R0) evs -> (forall q, q ∈ requests evs -> R q) ->
  Forall (class_event R) evs.
Proof.
  induction 1 as [|ev evs Hev _ IH]; intros HR; constructor.
  - destruct ev; simpl in *; try assumption. apply HR. left.
  - apply IH. intros q Hq. apply HR.
    destruct ev; simpl; try assumption. now right.
Qed.

Section RunInvariant.

Context {W : Type} (B : Backend W).
Variable P : list event -> Prop.
Hypothesis P_app : forall evs evs', P evs -> P evs' -> P (evs ++ evs').
Hypothesis P_no_request : forall evs, Forall no_request evs -> P evs.
Variables (session : Session) (action : string).
Hypothesis P_purge :
  forall k s,
    P (emitted (purge B {| cls := k; self_project_id := project_id session |}
                  s)).

Lemma process_class_invariant rc s :
  P (emitted (process_class B session action rc s)).
Proof.
  unfold process_class. rewrite emitted_bind. cbn [emit res final emitted].
  apply (P_app [_]); [apply P_no_request; repeat constructor|].
  destruct (globals rc) as [k|]; [|apply P_no_request; constructor].
  rewrite emitted_bind. apply P_app.
  { apply P_no_request.
    eapply Forall_impl; [apply (Resources_init_emits B k session s)|].
    intros []; simpl; tauto. }
  destruct (res (Resources_init B k session s)) as [self|e] eqn:Hinit;
    [|apply P_no_request; constructor].
  apply Resources_init_self in Hinit. subst self.
  destruct (decide (action = "purge")); [apply P_purge|].
  destruct (decide (action = "dump")); [|apply P_no_request; constructor].
  apply P_no_request.
  eapply Forall_impl; [apply dump_emits|]. intros []; simpl; tauto.
Qed.

Lemma perform_loop_invariant rcs : forall error s,
  P (emitted (perform_loop B session action rcs error s)).
Proof.
  induction rcs as [|rc rcs IH]; intros error s; cbn [perform_loop].
  - apply P_no_request. constructor.
  - rewrite emitted_bind. apply P_app.
    + rewrite perform_on_class_eq.
      pose proof (process_class_invariant rc s) as H.
      destruct (res _) as [|e]; [exact H|].
      destruct (ignored_exception e); [exact H|].
      destruct (invalid_endpoint_exception e); [|exact H].
      cbn [emitted]. apply P_app; [exact H|].
      apply P_no_request. repeat constructor.
    + destruct (res _); [apply IH|]. apply P_no_request. constructor.
Qed.

End RunInvariant.

Section ListedResources.

Context {W : Type} (B : Backend W).

Lemma only_listed_resources_app project evs evs' :
  only_listed_resources project evs -> only_listed_resources project evs' ->
  only_listed_resources project (evs ++ evs').
Proof.
  intros H H' q x [Hin|Hin]%elem_of_app.
  - destruct (H q x Hin) as (rs & r & Hl & Hrest).
    exists rs, r. split; [apply elem_of_app; now left|assumption].
  - destruct (H' q x Hin) as (rs & r & Hl & Hrest).
    exists rs, r. split; [apply elem_of_app; now right|assumption].
Qed.

Lemma only_listed_resources_no_request project evs :
  Forall no_request evs -> only_listed_resources project evs.
Proof.
  intros H q x Hin. rewrite Forall_forall in H. now specialize (H _ Hin).
Qed.

(** Every object [SwiftObjects.list] returns was named by the listing
    of the container it is filed under. *)
Lemma SwiftObjects_list_loop_listed conts : forall acc s objs,
  res (SwiftObjects_list_loop B conts acc s) = Ok objs ->
  forall obj, obj ∈ objs ->
    obj ∈ acc
    \/ exists raw o,
         EvListing (get_container (container obj)) (Ok raw)
           ∈ emitted (SwiftObjects_list_loop B conts acc s)
         /\ o ∈ raw /\ name o = name obj.
Proof.
  induction conts as [|cont conts IH]; intros acc s objs;
    cbn [SwiftObjects_list_loop].
  - intros [= <-] obj Hobj. now left.
  - rewrite res_bind, emitted_bind. unfold client_list.
    destruct (run_listing B (get_container cont) s) as [[raw|e] s1];
      cbn [res final emitted]; [|discriminate].
    intros Hrest obj Hobj.
    destruct (IH _ _ _ Hrest obj Hobj) as [Hacc|(raw' & o & Hin & Ho & Hn)].
    + apply elem_of_app in Hacc as [Hacc|Hnew]; [now left|].
      apply list_elem_of_fmap in Hnew as (o & -> & Ho).
      right. exists raw, o. split; [left|]. auto.
    + right. exists raw', o. split; [now right|]. auto.
Qed.

(** What a class lists is where its requests come from. *)
Lemma listed_origin self s l :
  res (Resources_list B self s) = Ok l ->
  forall r q,
    r ∈ l -> q ∈ delete_requests (cls self) r ->
    exists rs r0,
      EvListing (origin (self_project_id self) q).1 (Ok rs)
        ∈ emitted (Resources_list B self s)
      /\ r0 ∈ rs /\ (origin (self_project_id self) q).2 r0.
Proof.
  unfold Resources_list. destruct (cls self) eqn:Hk.
  - (* SwiftObjects *)
    unfold SwiftObjects_list, list_containers.
    rewrite res_bind, emitted_bind, res_bind, emitted_bind.
    unfold client_list.
    destruct (run_listing B get_account s) as [[account|e] s1];
      cbn [ret res final emitted app]; [|discriminate].
    intros Hloop r q Hr Hq.
    apply list_elem_of_singleton in Hq as ->.
    destruct (SwiftObjects_list_loop_listed _ _ _ _ Hloop r Hr)
      as [Hnil|(raw & o & Hin & Ho & Hn)]; [inversion Hnil|].
    exists raw, o. split; [now right|]. cbn. auto.
  - (* SwiftContainers *)
    unfold SwiftContainers_list, list_containers, client_list, bind, ret.
    destruct (run_listing B get_account s) as [[account|e] s1];
      cbn [res final emitted app]; [|discriminate].
    intros [= <-] r q Hr Hq.
    apply list_elem_of_singleton in Hq as ->.
    apply list_elem_of_fmap in Hr as (n & -> & Hn).
    apply list_elem_of_fmap in Hn as (c & -> & Hc).
    exists account, c. split; [left|]. cbn. auto.
  - (* CinderSnapshots *)
    unfold client_list.
    destruct (run_listing B volume_snapshots_list s) as [[rs|e] s1];
      cbn [res emitted]; [|discriminate].
    intros [= <-] r q Hr Hq. apply list_elem_of_singleton in Hq as ->.
    exists rs, r. split; [left|]. cbn. auto.
  - (* CinderVolumes *)
    unfold client_list.
    destruct (run_listing B volumes_list s) as [[rs|e] s1];
      cbn [res emitted]; [|discriminate].
    intros [= <-] r q Hr Hq. apply list_elem_of_singleton in Hq as ->.
    exists rs, r. split; [left|]. cbn. auto.
  - (* CinderBackups *)
    unfold client_list.
    destruct (run_listing B backups_list s) as [[rs|e] s1];
      cbn [res emitted]; [|discriminate].
    intros [= <-] r q Hr Hq. apply list_elem_of_singleton in Hq as ->.
    exists rs, r. split; [left|]. cbn. auto.
  - (* NeutronRouters *)
    unfold NeutronResources_list_routers, client_list, bind, ret.
    destruct (run_listing B list_routers s) as [[rs|e] s1];
      cbn [res final emitted app]; [|discriminate].
    intros [= <-] r q Hr Hq.
    apply list_elem_of_filter in Hr as [Ho Hr].
    apply list_elem_of_In in Hq. simpl in Hq.
    destruct Hq as [<-|[<-|[]]]; exists rs, r; (split; [left|]); cbn; auto.
  - (* NeutronInterfaces *)
    unfold NeutronInterfaces_list, client_list, bind, ret.
    destruct (run_listing B list_ports s) as [[rs|e] s1];
      cbn [res final emitted app]; [|discriminate].
    intros [= <-] r q Hr Hq.
    apply list_elem_of_filter in Hr as [Ho Hr].
    apply list_elem_of_filter in Hr as [Hd Hr].
    unfold delete_requests in Hq.
    destruct (decide _) as [_|Hn]; [|contradiction].
    apply list_elem_of_In in Hq. simpl in Hq.
    destruct Hq as [<-|[<-|[]]]; exists rs, r; (split; [left|]);
      cbn; auto.
  - (* NeutronPorts *)
    unfold NeutronPorts_list, client_list, bind, ret.
    destruct (run_listing B list_ports s) as [[rs|e] s1];
      cbn [res final emitted app]; [|discriminate].
    intros [= <-] r q Hr Hq.
    apply list_elem_of_filter in Hr as [Ho Hr].
    apply list_elem_of_filter in Hr as [Hd Hr].
    apply list_elem_of_singleton in Hq as ->.
    exists rs, r. split; [left|]. cbn. auto.
  - (* NeutronNetworks *)
    unfold NeutronNetworks_list, client_list, bind, ret.
    destruct (run_listing B list_networks s) as [[rs|e] s1];
      cbn [res final emitted app]; [|discriminate].
    intros [= <-] r q Hr Hq.
    apply list_elem_of_filter in Hr as [Ho Hr].
    apply list_elem_of_singleton in Hq as ->.
    exists rs, r. split; [left|]. cbn. auto.
  - (* NeutronSecgroups *)
    unfold NeutronSecgroups_list, try_except, client_list, bind, ret, raise.
    destruct (run_listing B list_security_groups s) as [[rs|e] s1];
      cbn [res final emitted app].
    + intros [= <-] r q Hr Hq.
      apply list_elem_of_filter in Hr as [[Hname Ho] Hr].
      apply list_elem_of_singleton in Hq as ->.
      exists rs, r. split; [left|]. cbn. auto.
    + destruct e; cbn; try discriminate.
      destruct (status_code =? 404); discriminate.
  - (* NeutronFloatingIps *)
    unfold NeutronFloatingIps_list, client_list, bind, ret.
    destruct (run_listing B list_floatingips s) as [[rs|e] s1];
      cbn [res final emitted app]; [|discriminate].
    intros [= <-] r q Hr Hq.
    apply list_elem_of_filter in Hr as [Ho Hr].
    apply list_elem_of_singleton in Hq as ->.
    exists rs, r. split; [left|]. cbn. auto.
  - (* NovaServers *)
    unfold client_list.
    destruct (run_listing B servers_list s) as [[rs|e] s1];
      cbn [res emitted]; [|discriminate].
    intros [= <-] r q Hr Hq. apply list_elem_of_singleton in Hq as ->.
    exists rs, r. split; [left|]. cbn. auto.
  - (* GlanceImages *)
    unfold GlanceImages_list, try_except, client_list, bind, ret.
    destruct (run_listing B images_list s) as [[rs|e] s1];
      cbn [res final emitted app].
    + intros [= <-] r q Hr Hq.
      apply list_elem_of_filter in Hr as [Ho Hr].
      apply list_elem_of_In in Hq. simpl in Hq.
      destruct Hq as [<-|[<-|[]]]; exists rs, r; (split; [left|]);
        cbn; auto.
    + intros [= <-] r q Hr. inversion Hr.
  - (* CeilometerAlarms *)
    unfold CeilometerAlarms_list, client_list.
    destruct (run_listing B (alarms_list (self_project_id self)) s)
      as [[rs|e] s1]; cbn [res emitted]; [|discriminate].
    intros [= <-] r q Hr Hq. apply list_elem_of_singleton in Hq as ->.
    exists rs, r. split; [left|]. cbn. auto.
Qed.

Lemma delete_requests_issuer k r q :
  q ∈ delete_requests k r -> issuer q = k.
Proof.
  unfold delete_requests.
  destruct k; simpl; try destruct (decide _); intros Hq;
    apply list_elem_of_In in Hq; simpl in Hq;
    repeat (destruct Hq as [<-|Hq]; [reflexivity|]); contradiction.
Qed.

Lemma Resources_delete_emits_calls self r :
  emits (class_event (fun q => q ∈ delete_requests (cls self) r))
        (Resources_delete B self r).
Proof.
  intros s. eapply class_event_refine; [apply Resources_delete_emits|].
  intros q Hq.
  destruct (Resources_delete_calls B self r s) as ((k & Hk) & _).
  rewrite Hk. apply elem_of_app. now left.
Qed.

Lemma purge_loop_emits_calls self resources :
  emits (class_event
           (fun q => exists r, r ∈ resources
                               /\ q ∈ delete_requests (cls self) r))
        (for_each resources
           (fun r => retry B (class_name (cls self))
                       (Resources_delete B self r))).
Proof.
  apply emits_for_each. intros r Hr.
  apply emits_retry; try (intros; exact I).
  eapply emits_weaken; [|apply Resources_delete_emits_calls].
  intros []; simpl; eauto.
Qed.

Lemma purge_only_listed_resources self s :
  only_listed_resources (self_project_id self) (emitted (purge B self s)).
Proof.
  unfold purge. rewrite emitted_bind.
  destruct (res (Resources_list B self s)) as [l|e] eqn:Hres.
  2:{ rewrite app_nil_r. apply only_listed_resources_no_request.
      eapply Forall_impl; [apply (Resources_list_emits B self s)|].
      intros []; simpl; tauto. }
  rewrite emitted_bind. cbn [logging_info emit res final emitted].
  pose proof (purge_loop_emits_calls self l
                (final (Resources_list B self s))) as Hall.
  rewrite Forall_forall in Hall.
  pose proof (Resources_list_emits B self s) as Hlist.
  rewrite Forall_forall in Hlist.
  intros q x Hin.
  apply elem_of_app in Hin as [Hin|Hin];
    [now specialize (Hlist _ Hin)|].
  apply elem_of_cons in Hin as [Hin|Hin]; [discriminate|].
  specialize (Hall _ Hin). simpl in Hall.
  destruct Hall as (r & Hr & Hdel).
  destruct (listed_origin self s l Hres r q Hr Hdel)
    as (rs & r0 & Hl & Hr0 & Hq).
  exists rs, r0. split; [apply elem_of_app; now left|]. auto.
Qed.

End ListedResources.

(** X7.  Every request of a run is on a resource that a listing of the
    same run returned.  Where the backend lists across the tenants,
    whatever neutron and glance answer, the router, port, network,
    security group, floating ip or image was listed with the purged
    project as its [tenant_id] (its [owner] for an image) and passed
    the filter of its class.  The one resource a run reaches without
    having listed it is the router of a router interface: of an
    interface so listed, the run clears the routes of, and detaches it
    from, the router that the interface names as its device, whoever
    owns that router. *)
Theorem purge_touches_only_listed_resources {W} (B : Backend W)
    (admin_name password project auth_url endpoint_type : string)
    (region_name : option string) (action : string) (insecure : bool)
    (s : W) :
  only_listed_resources project
    (emitted (perform_on_project B admin_name password project auth_url
                endpoint_type region_name action insecure s)).
Proof.
  rewrite perform_on_project_eq.
  destruct (Session_init_emitted B admin_name password project auth_url
              endpoint_type region_name insecure s) as (_ & Hreq & Hid).
  assert (Hinit : only_listed_resources project
                    (emitted (Session_init B admin_name password project
                                auth_url endpoint_type region_name
                                insecure s))).
  { intros q x Hin. exfalso.
    assert (Hq : q ∈ requests (emitted (Session_init B admin_name password
                                          project auth_url endpoint_type
                                          region_name insecure s))).
    { apply list_elem_of_omap. eexists. split; [exact Hin|reflexivity]. }
    rewrite Hreq in Hq. inversion Hq. }
  destruct (res (Session_init B admin_name password project auth_url
                   endpoint_type region_name insecure s))
    as [session|e]; [|exact Hinit].
  cbn [emitted]. apply only_listed_resources_app; [exact Hinit|].
  rewrite <- (Hid session eq_refl).
  apply perform_loop_invariant.
  - apply only_listed_resources_app.
  - apply only_listed_resources_no_request.
  - intros k s'.
    apply (purge_only_listed_resources B
             {| cls := k; self_project_id := project_id session |}).
Qed.

(** The router of an interface is reached unchecked: on a cloud where
    an interface of [p1] names the router [rX] of [p2], purging [p1]
    clears the routes of [rX]. *)
Lemma interface_purge_reaches_foreign_router :
  let foreign :=
    with_alive cloud0
      [(list_ports, [port_ "q1" "p1" "network:router_interface" "rX"]);
       (list_routers, [res_ "rX" "edge" "p2"])] in
  let interfaces := {| cls := NeutronInterfaces; self_project_id := "p1" |} in
  requests (emitted (purge cloud interfaces foreign))
  = [update_router_no_routes "rX"; remove_interface_router "rX" "q1"]
  /\ res (NeutronResources_list_routers cloud interfaces foreign) = Ok [].
Proof. intros foreign interfaces. split; vm_compute; reflexivity. Qed.

Section PlanOrder.

Context {W : Type} (B : Backend W).
Variables (session : Session) (action : string).

Lemma request_positions_app evs evs' :
  request_positions (evs ++ evs')
  = (request_positions evs ++ request_positions evs')%list.
Proof. unfold request_positions. now rewrite requests_app, fmap_app. Qed.

Lemma class_events_positions k evs :
  Forall (class_event (fun q => issuer q = k)) evs ->
  Forall (fun p => p = plan_position k) (request_positions evs).
Proof.
  unfold request_positions.
  induction 1 as [|ev evs Hev _ IH]; [constructor|].
  destruct ev; simpl in *; try assumption.
  constructor; [now rewrite Hev|assumption].
Qed.

Lemma purge_issuer self :
  emits (class_event (fun q => issuer q = cls self)) (purge B self).
Proof.
  unfold purge, logging_info. apply emits_bind.
  - eapply emits_weaken; [|apply Resources_list_emits].
    intros []; simpl; tauto.
  - intros resources. apply emits_bind; [apply emits_emit; exact I|].
    intros _. eapply emits_weaken; [|apply purge_loop_emits_calls].
    intros []; simpl; try tauto.
    intros (x & _ & Hq). eapply delete_requests_issuer, Hq.
Qed.

Lemma no_request_positions evs :
  requests evs = [] -> request_positions evs = [].
Proof. unfold request_positions. now intros ->. Qed.

Lemma process_class_positions rc s :
  Forall (fun p => exists k, globals rc = Some k /\ p = plan_position k)
         (request_positions (emitted (process_class B session action rc s))).
Proof.
  unfold process_class. rewrite emitted_bind. cbn [emit res final emitted].
  rewrite request_positions_app. apply Forall_app. split; [constructor|].
  destruct (globals rc) as [k|]; [|constructor].
  rewrite emitted_bind, request_positions_app. apply Forall_app. split.
  { rewrite no_request_positions; [constructor|].
    apply class_events_no_request, Resources_init_emits. }
  destruct (res (Resources_init B k session s)) as [self|e] eqn:Hinit;
    [|constructor].
  apply Resources_init_self in Hinit. subst self.
  destruct (decide (action = "purge")).
  - eapply Forall_impl.
    + apply (class_events_positions k).
      apply (purge_issuer
               {| cls := k; self_project_id := project_id session |}).
    + intros p ->. eauto.
  - destruct (decide (action = "dump")); [|constructor].
    rewrite no_request_positions; [constructor|].
    apply class_events_no_request, dump_emits.
Qed.

Lemma perform_on_class_positions rc error s :
  request_positions (emitted (perform_on_class B session action rc error s))
  = request_positions (emitted (process_class B session action rc s)).
Proof.
  rewrite perform_on_class_eq.
  destruct (res _) as [|e]; [reflexivity|].
  destruct (ignored_exception e); [reflexivity|].
  destruct (invalid_endpoint_exception e); [|reflexivity].
  cbn [emitted]. rewrite request_positions_app. cbn. apply app_nil_r.
Qed.

(** In a loop over classes whose places in the plan are [n], [n + 1],
    ..., the requests come by growing place, none before [n]. *)
Lemma perform_loop_positions rcs : forall n error s,
  Forall2 (fun rc p => forall k, globals rc = Some k -> plan_position k = p)
          rcs (seq n (length rcs)) ->
  Forall (fun p => (n <= p)%nat)
         (request_positions (emitted (perform_loop B session action rcs
                                        error s)))
  /\ StronglySorted le
       (request_positions (emitted (perform_loop B session action rcs
                                      error s))).
Proof.
  induction rcs as [|rc rcs IH]; intros n error s Hpos;
    cbn [perform_loop].
  - split; constructor.
  - cbn [length seq] in Hpos. apply Forall2_cons in Hpos as [Hrc Hrest].
    rewrite emitted_bind, request_positions_app, perform_on_class_positions.
    assert (Hseg : Forall (fun p => p = n)
                     (request_positions
                        (emitted (process_class B session action rc s)))).
    { eapply Forall_impl; [apply process_class_positions|].
      intros p (k & Hk & ->). now apply Hrc. }
    assert (Htail :
      Forall (fun p => (S n <= p)%nat)
        (request_positions
           match res (perform_on_class B session action rc error s) with
           | Ok a => emitted (perform_loop B session action rcs a
                                (final (perform_on_class B session action rc
                                          error s)))
           | Raise _ => []
           end)
      /\ StronglySorted le
           (request_positions
              match res (perform_on_class B session action rc error s) with
              | Ok a => emitted (perform_loop B session action rcs a
                                   (final (perform_on_class B session action
                                             rc error s)))
              | Raise _ => []
              end)).
    { destruct (res (perform_on_class B session action rc error s));
        [apply IH; exact Hrest|split; constructor]. }
    destruct Htail as [Hge Hsorted].
    rewrite Forall_forall in Hseg, Hge. split.
    + apply Forall_app. split; apply Forall_forall; intros p Hp.
      * rewrite (Hseg p Hp). lia.
      * specialize (Hge p Hp). lia.
    + apply StronglySorted_app. split; [|split; [|exact Hsorted]].
      * intros p1 p2 H1 H2. rewrite (Hseg p1 H1). specialize (Hge p2 H2). lia.
      * clear -Hseg.
        induction (request_positions _) as [|p ps IHp]; constructor.
        -- apply IHp. intros q Hq. apply Hseg. now right.
        -- apply Forall_forall. intros q Hq.
           rewrite (Hseg p) by left. rewrite (Hseg q) by now right. lia.
Qed.

Lemma plan_positions :
  Forall2 (fun rc p => forall k, globals rc = Some k -> plan_position k = p)
          RESOURCES_CLASSES (seq 0 (length RESOURCES_CLASSES)).
Proof.
  repeat (constructor; [intros k H; vm_compute in H; injection H as <-;
                        reflexivity|]).
  constructor.
Qed.

End PlanOrder.

Section PlanRuns.

Context {W : Type} (B : Backend W).
Variables (session : Session) (action : string).

Lemma class_events_requests (R : request -> Prop) evs :
  Forall (class_event R) evs -> Forall R (requests evs).
Proof.
  induction 1 as [|ev evs Hev _ IH]; [constructor|].
  destruct ev; simpl in *; try assumption. now constructor.
Qed.

Lemma printed_app evs evs' :
  printed (evs ++ evs') = (printed evs ++ printed evs')%list.
Proof. apply omap_app. Qed.

Lemma Resources_init_prints_nothing k s :
  printed (emitted (Resources_init B k session s)) = [].
Proof.
  unfold Resources_init, lift_result, client_Client, bind, ret.
  destruct k; simpl;
    repeat match goal with
           | |- context [get_endpoint ?a ?b] =>
               destruct (get_endpoint a b); simpl
           | |- context [new_client B ?l ?st] =>
               destruct (new_client B l st) as [[[]|?] ?]; simpl
           end; reflexivity.
Qed.

Lemma listing_events_print_nothing evs :
  Forall is_listing_event evs -> printed evs = [].
Proof.
  induction 1 as [|ev evs Hev _ IH]; [reflexivity|].
  destruct ev; simpl in *; try contradiction; assumption.
Qed.

Lemma resource_str_raises k r e :
  resource_str k r = Raise e -> e = UnicodeEncodeError.
Proof.
  unfold resource_str, format_text.
  destruct k;
    match goal with |- context [forallb ?f ?l] => destruct (forallb f l) end;
    congruence.
Qed.

(** The loop of [dump]: it prints the resources in order and stops at
    the first that cannot be formatted. *)
Lemma dump_loop_prints k rs : forall s,
  let m : M W unit :=
    for_each rs (fun r => let* text := lift_result (resource_str k r) in
                          print text) in
  (res (m s) = Ok tt ->
   exists texts,
     Forall2 (fun r text => resource_str k r = Ok text) rs texts
     /\ printed (emitted (m s)) = texts)
  /\ (forall e, res (m s) = Raise e -> e = UnicodeEncodeError)
  /\ final (m s) = s.
Proof.
  induction rs as [|r rs IH]; intros s; cbn [for_each].
  - split; [intros _; exists []; split; [constructor|reflexivity]|].
    split; [discriminate|reflexivity].
  - assert (Hbody : bind (lift_result (resource_str k r))
                      (fun text => print text) s
                    = match resource_str k r with
                      | Ok text => Out (Ok tt) s [EvPrint text]
                      | Raise e => Out (Raise e) s []
                      end)
      by (unfold lift_result, print, emit, bind;
          destruct (resource_str k r); reflexivity).
    destruct (resource_str k r) as [text|err] eqn:Hstr.
    + rewrite (bind_Ok _ _ _ tt (f_equal res Hbody)), Hbody.
      unfold prepend. cbn [res final emitted].
      destruct (IH s) as (Hok & Hraise & Hfinal). cbv zeta in *.
      split; [|split; [exact Hraise|exact Hfinal]].
      intros Hrest. destruct (Hok Hrest) as (texts & Hall & Hprinted).
      exists (text :: texts). split; [now constructor|].
      rewrite printed_app, Hprinted. reflexivity.
    + rewrite (bind_Raise _ _ _ err (f_equal res Hbody)), Hbody.
      cbn [res final emitted].
      split; [discriminate|]. split; [|reflexivity].
      intros e [= <-]. eapply resource_str_raises, Hstr.
Qed.

Lemma dump_after_listing self s rs :
  res (Resources_list B self s) = Ok rs ->
  (res (dump B self s) = Ok tt ->
   exists texts,
     Forall2 (fun r text => resource_str (cls self) r = Ok text) rs texts
     /\ printed (emitted (dump B self s))
        = (("* Resources type: " +:+ class_name (cls self))
           :: texts ++ [""])%list)
  /\ (forall e, res (dump B self s) = Raise e -> e = UnicodeEncodeError).
Proof.
  intros Hl. unfold dump.
  rewrite res_bind, emitted_bind, Hl, printed_app.
  rewrite (listing_events_print_nothing _
             (Resources_list_only_lists B self s)).
  rewrite res_bind, emitted_bind. cbn [print emit res final emitted].
  rewrite res_bind, emitted_bind.
  destruct (dump_loop_prints (cls self) rs (final (Resources_list B self s)))
    as (Hok & Hraise & _). cbv zeta in *.
  match goal with
  | |- context [res (?m ?st)] => destruct (res (m st)) as [[]|e] eqn:Hloop
  end.
  - destruct (Hok eq_refl) as (texts & Hall & Hprinted).
    split; [|discriminate]. intros _. exists texts. split; [exact Hall|].
    rewrite !printed_app, Hprinted. reflexivity.
  - split; [discriminate|]. intros e' [= <-]. now apply Hraise.
Qed.

Lemma purge_after_listing self s rs :
  res (Resources_list B self s) = Ok rs ->
  (res (purge B self s) = Ok tt ->
   (deletion_call (cls self) <$> rs)
     `sublist_of` succeeded (emitted (purge B self s)))
  /\ (forall e, res (purge B self s) = Raise e ->
        e = DeletionFailed (class_name (cls self))
        \/ is_Exception e = false).
Proof.
  intros Hl. unfold purge. rewrite res_bind, emitted_bind, Hl.
  rewrite res_bind, emitted_bind. cbn [logging_info emit res final emitted].
  split.
  - intros Hres. rewrite !succeeded_app. do 2 apply sublist_inserts_l.
    now apply for_each_Ok_deleted.
  - intros e He. eapply for_each_retry_raises, He.
Qed.

Lemma perform_on_class_processed rc error s k :
  action = "purge" \/ action = "dump" -> globals rc = Some k ->
  processed B session action
    {| run_class := rc; run_start := s;
       run_outcome := perform_on_class B session action rc error s |}.
Proof.
  intros Haction Hk.
  pose proof (perform_on_class_eq B session action rc error s) as Hpoc.
  cbv zeta in Hpoc.
  set (self := {| cls := k; self_project_id := project_id session |}).
  set (act := fun resources : Resources =>
                if decide (action = "purge") then purge B resources
                else if decide (action = "dump") then dump B resources
                else raise KeyError).
  assert (Hpc : process_class B session action rc s
                = prepend [EvClass rc]
                    (bind (Resources_init B k session) act s)).
  { unfold process_class. rewrite Hk. reflexivity. }
  rewrite Hpc in Hpoc. unfold prepend in Hpoc.
  cbn [res final emitted app] in Hpoc.
  remember (bind (Resources_init B k session) act s) as b eqn:Hb.
  assert (Hbres : res b
                  = match res (Resources_init B k session s) with
                    | Ok a => res (act a (final (Resources_init B k session s)))
                    | Raise e => Raise e
                    end) by (subst b; apply res_bind).
  assert (Hbev : emitted b
                 = (emitted (Resources_init B k session s)
                    ++ match res (Resources_init B k session s) with
                       | Ok a =>
                           emitted
                             (act a (final (Resources_init B k session s)))
                       | Raise _ => []
                       end)%list) by (subst b; apply emitted_bind).
  clear Hb Hpc.
  assert (Htail : exists tail,
             emitted (perform_on_class B session action rc error s)
             = EvClass rc :: (emitted b ++ tail)%list
             /\ requests tail = [] /\ succeeded tail = []
             /\ printed tail = []
             /\ ((exists error', res (perform_on_class B session action rc
                                        error s) = Ok error') ->
                 forall e, res b = Raise e ->
                   ignored_exception e = true
                   \/ invalid_endpoint_exception e <> None)).
  { rewrite Hpoc. destruct (res b) as [[]|e].
    - exists []. rewrite app_nil_r. repeat split. intros _ e; discriminate.
    - destruct (ignored_exception e) eqn:Hig.
      + exists []. rewrite app_nil_r. repeat split.
        intros _ e' [= <-]. now left.
      + destruct (invalid_endpoint_exception e) as [message|] eqn:Hinv.
        * eexists [_]. repeat split.
          intros _ e' [= <-]. right. congruence.
        * exists []. rewrite app_nil_r. repeat split.
          intros [error' Herr]. discriminate. }
  destruct Htail as (tail & Hev & Htreq & Htsucc & Htprint & Hsoft).
  exists k, (emitted b ++ tail)%list.
  split; [exact Hk|]. split; [exact Hev|].
  cbn [run_class run_start run_outcome]. cbv zeta. fold self.
  rewrite Hbev.
  pose proof (Resources_init_emits B k session s) as Hinit.
  destruct (res (Resources_init B k session s)) as [self'|e] eqn:Hc.
  2:{ split; [rewrite app_nil_r; now apply prefix_app_r|].
      split; [|discriminate].
      rewrite app_nil_r, requests_app, Htreq, app_nil_r.
      rewrite (class_events_no_request _ Hinit). constructor. }
  apply Resources_init_self in Hc as Hself. fold self in Hself.
  subst self'.
  set (s' := final (Resources_init B k session s)) in *.
  split; [rewrite <- app_assoc; now apply prefix_app_r|].
  assert (Hact : (action = "purge" /\ act self s' = purge B self s')
                 \/ (action = "dump" /\ act self s' = dump B self s')).
  { unfold act. destruct Haction as [->| ->].
    - left. split; [reflexivity|]. now destruct (decide _).
    - right. split; [reflexivity|].
      destruct (decide ("dump" = "purge")); [discriminate|].
      now destruct (decide _). }
  split.
  { rewrite !requests_app, Htreq, app_nil_r.
    rewrite (class_events_no_request _ Hinit). cbn [app].
    apply class_events_requests.
    destruct Hact as [[_ ->]|[_ ->]].
    - apply (purge_issuer B self s').
    - eapply Forall_impl; [apply (dump_emits B self s')|].
      intros []; simpl; tauto. }
  intros _. split.
  { rewrite <- app_assoc. apply prefix_app, prefix_app_r.
    destruct Hact as [[_ ->]|[_ ->]].
    - unfold purge. rewrite emitted_bind. now apply prefix_app_r.
    - unfold dump. rewrite emitted_bind. now apply prefix_app_r. }
  intros rs Hl Hok. specialize (Hsoft Hok).
  destruct Hact as [[Hpurge Hrun]|[Hdump Hrun]]; rewrite Hrun in *.
  - destruct (purge_after_listing self s' rs Hl) as [Hdeleted Hraise].
    split; [intros _|intros ->; discriminate].
    destruct (res (purge B self s')) as [[]|e] eqn:Hp.
    + rewrite !succeeded_app, Htsucc, app_nil_r.
      apply sublist_inserts_l. now apply Hdeleted.
    + exfalso. destruct (Hsoft e Hbres) as [Hig|Hinv];
        destruct (Hraise e eq_refl) as [->|Hexc];
        try discriminate; try (now apply Hinv);
        destruct e; try discriminate; now apply Hinv.
  - destruct (dump_after_listing self s' rs Hl) as [Hprinted Hraise].
    split; [intros ->; discriminate|intros _].
    destruct (res (dump B self s')) as [[]|e] eqn:Hd.
    + destruct (Hprinted eq_refl) as (texts & Hall & Hp).
      exists texts. split; [exact Hall|].
      rewrite !printed_app, Htprint, app_nil_r.
      now rewrite Resources_init_prints_nothing.
    + exfalso. rewrite (Hraise e eq_refl) in Hbres.
      destruct (Hsoft _ Hbres) as [Hig|Hinv];
        [discriminate|now apply Hinv].
Qed.

Lemma perform_loop_runs rcs : forall error s,
  let runs := class_runs B session action rcs error s in
  emitted (perform_loop B session action rcs error s)
  = concat ((fun run => emitted (run_outcome run)) <$> runs)
  /\ (run_class <$> runs) `prefix_of` rcs
  /\ ((run_class <$> runs) = rcs
      \/ exists e, res (perform_loop B session action rcs error s) = Raise e)
  /\ chained s runs.
Proof.
  induction rcs as [|rc rcs IH]; intros error s;
    cbn [perform_loop class_runs].
  - repeat split; auto.
  - rewrite res_bind, emitted_bind. cbv zeta.
    remember (perform_on_class B session action rc error s) as o eqn:Ho.
    destruct (res o) as [error'|e].
    + destruct (IH error' (final o)) as (Hev & Hpre & Hall & Hch).
      cbv zeta in *. rewrite !fmap_cons.
      cbn [concat run_outcome run_class]. rewrite Hev.
      split; [reflexivity|]. split; [now apply prefix_cons|].
      split; [|split; [reflexivity|exact Hch]].
      destruct Hall as [->|Hraise]; [now left|now right].
    + cbn. rewrite app_nil_r. split; [reflexivity|].
      split; [apply prefix_cons, prefix_nil|].
      split; [right; eauto|]. split; reflexivity.
Qed.

Lemma class_runs_processed rcs :
  action = "purge" \/ action = "dump" ->
  (forall rc, rc ∈ rcs -> exists k, globals rc = Some k) ->
  forall error s,
    Forall (processed B session action)
           (class_runs B session action rcs error s).
Proof.
  intros Haction. induction rcs as [|rc rcs IH]; intros Hglobals error s;
    cbn [class_runs]; [constructor|].
  destruct (Hglobals rc) as [k Hk]; [left|].
  constructor; [now apply perform_on_class_processed with (k := k)|].
  destruct (res (perform_on_class B session action rc error s));
    [|constructor].
  apply IH. intros rc' Hrc'. apply Hglobals. now right.
Qed.

End PlanRuns.

(** C1.  The plan is the fixed list of thirteen classes, snapshots first
    and volumes last, and each name is that of a class.  Whatever the
    backend and the credentials, purging or dumping, once the session
    is built the run is the classes it reaches one after the other:
    its events are those of the classes in order, each class being
    reached in the state the one before leaves; the classes reached
    are, in order, an initial segment of the plan, the whole plan
    unless the call raises; and each class reached is processed: its
    constructor runs, then its listing, and, unless the class raises,
    every resource listed is deleted (purge) or printed (dump), by
    calls of that class only.  If the session cannot be built, no class
    is reached. *)
Theorem classes_processed_in_plan_order {W} (B : Backend W)
    (admin_name password project auth_url endpoint_type : string)
    (region_name : option string) (action : string) (insecure : bool)
    (s : W) :
  action = "purge" \/ action = "dump" ->
  let init := Session_init B admin_name password project auth_url
                endpoint_type region_name insecure s in
  let o := perform_on_project B admin_name password project auth_url
             endpoint_type region_name action insecure s in
  RESOURCES_CLASSES
  = [ "CinderSnapshots"; "CinderBackups"; "NovaServers";
      "NeutronFloatingIps"; "NeutronInterfaces"; "NeutronRouters";
      "NeutronPorts"; "NeutronNetworks"; "NeutronSecgroups";
      "GlanceImages"; "SwiftObjects"; "SwiftContainers"; "CinderVolumes" ]
  /\ globals <$> RESOURCES_CLASSES
     = Some <$> [ CinderSnapshots; CinderBackups; NovaServers;
                  NeutronFloatingIps; NeutronInterfaces; NeutronRouters;
                  NeutronPorts; NeutronNetworks; NeutronSecgroups;
                  GlanceImages; SwiftObjects; SwiftContainers;
                  CinderVolumes ]
  /\ (forall e, res init = Raise e ->
        o = Out (Raise e) (final init) (emitted init))
  /\ (forall session,
        res init = Ok session ->
        let runs := class_runs B session action RESOURCES_CLASSES None
                      (final init) in
        emitted o
        = (emitted init
           ++ concat ((fun run => emitted (run_outcome run)) <$> runs))%list
        /\ chained (final init) runs
        /\ (run_class <$> runs) `prefix_of` RESOURCES_CLASSES
        /\ ((run_class <$> runs) = RESOURCES_CLASSES
            \/ exists e, res o = Raise e)
        /\ Forall (processed B session action) runs).
Proof.
  intros Haction init o. split; [reflexivity|]. split; [reflexivity|].
  subst o. rewrite perform_on_project_eq. cbv zeta. fold init.
  split.
  - intros e He. rewrite He. reflexivity.
  - intros session Hs. rewrite Hs. cbn [emitted res].
    destruct (perform_loop_runs B session action RESOURCES_CLASSES None
                (final init)) as (Hev & Hpre & Hall & Hch).
    cbv zeta in Hev, Hpre, Hall, Hch.
    split; [now rewrite Hev|]. split; [exact Hch|]. split; [exact Hpre|].
    split.
    + destruct Hall as [Hall|[e He]]; [now left|right].
      exists e. now rewrite He.
    + apply class_runs_processed; [exact Haction|].
      intros rc Hrc. apply list_elem_of_In in Hrc. simpl in Hrc.
      repeat (destruct Hrc as [<-|Hrc];
              [eexists; vm_compute; reflexivity|]).
      contradiction.
Qed.

Lemma classes_processed_in_plan_order_witness :
  let init := Session_init cloud "operator" "secret" "p1" "http://keystone"
                "publicURL" None false cloud0 in
  let o := perform_on_project cloud "operator" "secret" "p1"
             "http://keystone" "publicURL" None "purge" false cloud0 in
  let runs := class_runs cloud session0 "purge" RESOURCES_CLASSES None
                (final init) in
  run_class <$> runs = RESOURCES_CLASSES
  /\ Forall (processed cloud session0 "purge") runs
  /\ requests (emitted o)
     = [servers_delete "s1"; servers_delete "s2"; delete_floatingip "f1";
        delete_security_group "g1"; images_update_unprotected "i1";
        images_delete "i1"].
Proof.
  intros init o runs.
  destruct (classes_processed_in_plan_order cloud "operator" "secret" "p1"
              "http://keystone" "publicURL" None "purge" false cloud0
              (or_introl eq_refl)) as (_ & _ & _ & Hruns).
  destruct (Hruns session0) as (_ & _ & _ & Hall & Hprocessed);
    [vm_compute; reflexivity|].
  split; [|split; [exact Hprocessed|vm_compute; reflexivity]].
  destruct Hall as [Hall|[e He]]; [exact Hall|].
  vm_compute in He. discriminate.
Defined.

(** X8.  The requests of a run follow the plan: of two requests, the one
    made first is of a class that comes no later in [RESOURCES_CLASSES].
    So every snapshot and backup deletion precedes every volume
    deletion, router interfaces go before routers, ports before
    networks, objects before containers. *)
Theorem requests_follow_plan_order {W} (B : Backend W)
    (admin_name password project auth_url endpoint_type : string)
    (region_name : option string) (action : string) (insecure : bool)
    (s : W) :
  let evs := emitted (perform_on_project B admin_name password project
                        auth_url endpoint_type region_name action insecure
                        s) in
  StronglySorted le (request_positions evs)
  /\ forall evs1 q1 x1 evs2 q2 x2 evs3,
       evs = (evs1 ++ EvRequest q1 x1 :: evs2 ++ EvRequest q2 x2 :: evs3)%list ->
       (plan_position (issuer q1) <= plan_position (issuer q2))%nat.
Proof.
  intros evs.
  assert (Hsorted : StronglySorted le (request_positions evs)).
  { subst evs. rewrite perform_on_project_eq.
    destruct (Session_init_emitted B admin_name password project auth_url
                endpoint_type region_name insecure s) as (_ & Hreq & _).
    destruct (res (Session_init B admin_name password project auth_url
                     endpoint_type region_name insecure s))
      as [session|e]; cbn [emitted].
    - rewrite request_positions_app, (no_request_positions _ Hreq).
      cbn [app].
      apply (perform_loop_positions B session action RESOURCES_CLASSES 0).
      apply plan_positions.
    - rewrite (no_request_positions _ Hreq). constructor. }
  split; [exact Hsorted|].
  intros evs1 q1 x1 evs2 q2 x2 evs3 Hev. rewrite Hev in Hsorted.
  rewrite request_positions_app in Hsorted.
  apply StronglySorted_app in Hsorted as (_ & _ & Hsorted).
  change (EvRequest q1 x1 :: evs2 ++ EvRequest q2 x2 :: evs3)
    with ([EvRequest q1 x1] ++ evs2 ++ EvRequest q2 x2 :: evs3)%list
    in Hsorted.
  rewrite !request_positions_app in Hsorted.
  apply StronglySorted_app in Hsorted as (Hle & _ & _).
  apply Hle; [left|]. apply elem_of_app. right. left.
Qed.

Lemma requests_follow_plan_order_witness :
  let evs := emitted (perform_on_project cloud "operator" "secret" "p1"
                        "http://keystone" "publicURL" None "purge" false
                        cloud0) in
  evs = (take 16 evs ++ EvRequest (servers_delete "s2") (Ok tt)
         :: take 27 (drop 17 evs)
         ++ EvRequest (delete_security_group "g1") (Ok tt) :: drop 45 evs)%list
  /\ (plan_position (issuer (servers_delete "s2"))
      <= plan_position (issuer (delete_security_group "g1")))%nat.
Proof.
  intros evs.
  assert (Hsplit :
    evs = (take 16 evs ++ EvRequest (servers_delete "s2") (Ok tt)
           :: take 27 (drop 17 evs)
           ++ EvRequest (delete_security_group "g1") (Ok tt)
           :: drop 45 evs)%list)
    by (vm_compute; reflexivity).
  split; [exact Hsplit|].
  exact (proj2 (requests_follow_plan_order cloud "operator" "secret" "p1"
                  "http://keystone" "publicURL" None "purge" false cloud0)
           _ _ _ _ _ _ _ Hsplit).
Defined.

(** ** More on main *)

Section MainEvents.

Context {W : Type} (B : Backend W).

Lemma emits_keystone {A} Q c (reply : A -> keystone_reply) run :
  (forall r, Q (EvKeystone c r)) -> emits Q (keystone (W:=W) c reply run).
Proof. intros H s. unfold keystone. destruct (run s). simpl. auto. Qed.

Lemma emits_keystone_client_Client Q project :
  (forall r, Q (EvAuthenticate project r)) ->
  emits Q (keystone_client_Client B project).
Proof.
  intros H s. unfold keystone_client_Client.
  destruct (authenticate B project s). simpl. auto.
Qed.

Ltac emits_keystone_step :=
  first
    [ apply emits_ret | apply emits_raise
    | apply emits_bind | apply emits_emit
    | apply emits_keystone | apply emits_keystone_client_Client
    | progress intros ].

Lemma get_admin_role_id_emits Q km :
  (forall r, Q (EvKeystone roles_list r)) ->
  emits Q (get_admin_role_id B km).
Proof.
  intros H. unfold get_admin_role_id, client_roles_list.
  destruct (admin_role_id km) as [ro|]; [destruct (decide (ro = ""))|];
    repeat emits_keystone_step; try apply H;
    destruct (filter _ _); repeat emits_keystone_step.
Qed.

Lemma get_project_id_emits km ref :
  emits setup_event (get_project_id B km ref).
Proof.
  unfold get_project_id, client_tenants_get, client_tenants_list.
  destruct ref as [ref|]; [|apply emits_ret].
  apply emits_bind.
  - apply emits_try_except; [repeat emits_keystone_step; exact I|].
    intros e k Hk. destruct e; try discriminate. injection Hk as <-.
    apply emits_try_except.
    + apply emits_bind; [apply emits_keystone; intros; exact I|].
      intros ts. destruct (filter _ ts); repeat emits_keystone_step.
    + intros e k Hk. destruct e; try discriminate. injection Hk as <-.
      apply emits_raise.
  - intros [pid km']. destruct (tenant_info km');
      repeat emits_keystone_step; exact I.
Qed.

Lemma elevate_emits args km : emits setup_event (elevate B args km).
Proof.
  unfold elevate. apply emits_bind; [apply get_project_id_emits|].
  intros [pid km1]. destruct (negb (own_project args)); [|apply emits_ret].
  apply emits_bind.
  - unfold try_become_project_admin, become_project_admin,
      client_add_user_role, logging_info.
    apply emits_try_except.
    + apply emits_bind; [|intros; apply emits_ret].
      apply emits_bind; [apply get_admin_role_id_emits; intros; exact I|].
      intros [ro km2]. repeat emits_keystone_step; exact I.
    + intros e k Hk. destruct e; try discriminate. injection Hk as <-.
      apply emits_ret.
  - intros [r km2]. destruct (tenant_info km2) as [info|];
      [|apply emits_raise].
    destruct (negb (enabled info)); [|apply emits_ret].
    unfold enable_project, client_tenants_update, logging_info.
    repeat emits_keystone_step; exact I.
Qed.

Lemma setup_emits args : emits setup_event (setup B args).
Proof.
  unfold setup, parse_args_checks, KeystoneManager_init, sys_exit, print.
  apply emits_bind.
  { destruct (negb _), (_ && _); repeat emits_keystone_step. }
  intros _. apply emits_bind.
  - apply emits_try_except; [repeat emits_keystone_step; exact I|].
    intros e k Hk. destruct e; try discriminate. injection Hk as <-.
    repeat emits_keystone_step. exact I.
  - intros km. apply emits_try_except; [apply elevate_emits|].
    intros e k Hk.
    destruct e; try discriminate; injection Hk as <-;
      repeat emits_keystone_step; exact I.
Qed.

Lemma unwind_emits km pid r d : emits unwind_event (unwind B km pid r d).
Proof.
  unfold unwind, disable_project, undo_become_project_admin,
    client_tenants_update, client_remove_user_role, logging_info.
  apply emits_bind.
  - destruct d; repeat emits_keystone_step; exact I.
  - intros km1. destruct r; [|apply emits_ret].
    apply emits_bind; [|intros; apply emits_ret].
    apply emits_bind; [apply get_admin_role_id_emits; intros; exact I|].
    intros [ro km2]. repeat emits_keystone_step; exact I.
Qed.

Lemma dump_run_no_request u p project url et rn ins :
  emits no_request (perform_on_project B u p project url et rn "dump" ins).
Proof.
  unfold perform_on_project. apply emits_bind.
  - unfold Session_init.
    repeat emits_keystone_step. exact I.
  - intros session. apply emits_bind;
      [|intros [e|]; [apply emits_raise|apply emits_ret]].
    generalize (@None exn). generalize RESOURCES_CLASSES.
    induction l as [|rc rcs IH]; intros error; cbn [perform_loop].
    + apply emits_ret.
    + apply emits_bind; [|intros; apply IH].
      unfold perform_on_class, process_class. apply emits_try_except.
      * apply emits_bind; [|intros; apply emits_ret].
        apply emits_bind; [apply emits_emit; exact I|]. intros _.
        destruct (globals rc) as [k|]; [|apply emits_raise].
        apply emits_bind.
        -- eapply emits_weaken; [|apply Resources_init_emits].
           intros []; simpl; tauto.
        -- intros self. destruct (decide ("dump" = "purge")); [discriminate|].
           destruct (decide ("dump" = "dump")); [|apply emits_raise].
           eapply emits_weaken; [|apply dump_emits].
           intros []; simpl; tauto.
      * intros e k Hk. destruct (ignored_exception e).
        -- injection Hk as <-. apply emits_ret.
        -- destruct (invalid_endpoint_exception e); [|discriminate].
           injection Hk as <-. apply emits_bind; [apply emits_emit; exact I|].
           intros; apply emits_ret.
Qed.

End MainEvents.

Lemma emits_and {W A} (Q1 Q2 : event -> Prop) (m : M W A) :
  emits Q1 m -> emits Q2 m -> emits (fun ev => Q1 ev /\ Q2 ev) m.
Proof. intros H1 H2 s. apply Forall_and. split; [apply H1|apply H2]. Qed.

Lemma dry_events_harmless evs :
  Forall dry_event evs ->
  requests evs = [] /\ forall p, tenants_delete p ∉ keystone_calls evs.
Proof.
  intros H. split.
  - induction H as [|ev evs Hev _ IH]; [reflexivity|].
    destruct ev; simpl in *; try assumption; contradiction.
  - intros p Hin. apply list_elem_of_omap in Hin as (ev & Hin & Hev).
    rewrite Forall_forall in H. specialize (H _ Hin).
    destruct ev; try discriminate. injection Hev as ->. exact H.
Qed.

(** X9.  A dry run deletes nothing.  [perform_on_project] with the
    action [dump] issues no request at all, and [main] with [--dry-run]
    issues no request and never deletes the project, whatever the
    backend answers and however the run ends. *)
Theorem dry_run_deletes_nothing {W} (B : Backend W) :
  (forall admin_name password project auth_url endpoint_type region_name
          insecure s,
      requests (emitted (perform_on_project B admin_name password project
                           auth_url endpoint_type region_name "dump"
                           insecure s)) = [])
  /\ (forall args s,
        dry_run args = true ->
        requests (emitted (main B args s)) = []
        /\ forall p,
             tenants_delete p ∉ keystone_calls (emitted (main B args s))).
Proof.
  split.
  - intros. apply no_request_requests, dump_run_no_request.
  - intros args s Hdry. apply dry_events_harmless.
    unfold main. apply emits_bind.
    + eapply emits_weaken; [|apply setup_emits].
      intros [| | | |[]| | | |]; simpl; tauto.
    + intros [[[pid r] d] km]. apply emits_bind.
      * unfold proper_cleanup. rewrite Hdry. apply emits_try_except.
        -- eapply emits_weaken;
             [|apply emits_and;
               [apply dump_run_no_request
               |apply perform_on_project_not_keystone]].
           intros []; simpl; tauto.
        -- intros e k Hk. unfold print, sys_exit.
           destruct e; try discriminate; injection Hk as <-;
             repeat first [apply emits_bind | apply emits_emit
                          | apply emits_raise | intro | exact I].
      * intros _. unfold finish, deletes_project. rewrite Hdry.
        cbn [negb andb]. apply emits_bind; [|intros; apply emits_raise].
        eapply emits_weaken; [|apply unwind_emits].
        intros [| | | |[]| | | |]; simpl; tauto.
Qed.

Lemma dry_run_deletes_nothing_witness :
  let args := {| verbose := false; dry_run := true;
                 dont_delete_project := false;
                 arg_region_name := None; arg_endpoint_type := "publicURL";
                 arg_username := "operator"; arg_password := "secret";
                 admin_project := "admin"; arg_auth_url := "http://keystone";
                 cleanup_project := Some "tenant"; own_project := false;
                 arg_insecure := false |} in
  res (main cloud args cloud0) = Raise (SystemExit 0)
  /\ requests (emitted (main cloud args cloud0)) = []
  /\ cloud_alive (final (main cloud args cloud0)) = cloud_alive cloud0.
Proof.
  intros args. split; [vm_compute; reflexivity|]. split.
  - apply (proj2 (dry_run_deletes_nothing cloud) args cloud0). reflexivity.
  - vm_compute. reflexivity.
Defined.

Lemma keystone_calls_app evs evs' :
  keystone_calls (evs ++ evs')
  = (keystone_calls evs ++ keystone_calls evs')%list.
Proof. apply omap_app. Qed.

Lemma not_keystone_calls evs :
  Forall not_keystone evs -> keystone_calls evs = [].
Proof.
  induction 1 as [|ev evs Hev _ IH]; [reflexivity|].
  destruct ev; simpl in *; try assumption; contradiction.
Qed.

Lemma setup_events_no_deletion evs p :
  Forall setup_event evs -> tenants_delete p ∉ keystone_calls evs.
Proof.
  intros H Hin. apply list_elem_of_omap in Hin as (ev & Hin & Hev).
  rewrite Forall_forall in H. specialize (H _ Hin).
  destruct ev; try discriminate. injection Hev as ->. exact H.
Qed.

Lemma unwind_events_no_deletion evs p :
  Forall unwind_event evs -> tenants_delete p ∉ keystone_calls evs.
Proof.
  intros H Hin. apply list_elem_of_omap in Hin as (ev & Hin & Hev).
  rewrite Forall_forall in H. specialize (H _ Hin).
  destruct ev; try discriminate. injection Hev as ->. exact H.
Qed.

(** X10.  [main] deletes a project only at the end of a run that is no
    dry run, without [--dont-delete-project] and without
    [--own-project], whose setup succeeded and whose purge returned
    normally; the project deleted is the one the setup resolved. *)
Theorem project_deleted_only_after_purge {W} (B : Backend W) (args : Args)
    (s : W) (p : string) :
  tenants_delete p ∈ keystone_calls (emitted (main B args s)) ->
  deletes_project args = true
  /\ exists r d km,
      res (setup B args s) = Ok (p, r, d, km)
      /\ res (perform_on_project B (arg_username args) (arg_password args)
                p (arg_auth_url args) (arg_endpoint_type args)
                (arg_region_name args)
                (if dry_run args then "dump" else "purge")
                (arg_insecure args) (final (setup B args s))) = Ok tt.
Proof.
  pose proof (setup_emits B args s) as Hsetup.
  destruct (res (setup B args s)) as [[[[pid r] d] km]|e] eqn:Hs.
  2:{ unfold main. rewrite (bind_Raise _ _ _ _ Hs). cbn [emitted].
      intros Hin. now apply setup_events_no_deletion in Hin. }
  rewrite (main_eq B args s pid r d km Hs). unfold prepend. cbn [emitted].
  rewrite keystone_calls_app, emitted_bind, keystone_calls_app.
  rewrite (not_keystone_calls _ (proper_cleanup_not_keystone B args pid _)).
  cbn [app]. intros [Hin|Hin]%elem_of_app;
    [now apply setup_events_no_deletion in Hin|].
  destruct (proper_cleanup_res B args pid (final (setup B args s)))
    as [Hres _].
  destruct (res (proper_cleanup B args pid (final (setup B args s))))
    as [[]|e]; [|inversion Hin].
  destruct (res (perform_on_project B _ _ pid _ _ _ _ _ _)) as [[]|e] eqn:Hop;
    [|discriminate].
  revert Hin. unfold finish.
  destruct (deletes_project args).
  - unfold delete_project, client_tenants_delete, keystone, logging_info,
      emit, sys_exit, bind, raise.
    destruct (run_tenants_delete B pid _) as [[[]|e] s2]; cbn;
      intros Hin; apply list_elem_of_singleton in Hin;
      injection Hin as ->; (split; [reflexivity|]);
      exists r, d, km; auto.
  - rewrite emitted_bind, keystone_calls_app.
    intros [Hin|Hin]%elem_of_app.
    + now apply unwind_events_no_deletion in Hin; [|apply unwind_emits].
    + destruct (res (unwind B km pid r d _)); inversion Hin.
Qed.

Lemma project_deleted_only_after_purge_witness :
  let args := {| verbose := false; dry_run := false;
                 dont_delete_project := false;
                 arg_region_name := None; arg_endpoint_type := "publicURL";
                 arg_username := "operator"; arg_password := "secret";
                 admin_project := "admin"; arg_auth_url := "http://keystone";
                 cleanup_project := Some "tenant"; own_project := false;
                 arg_insecure := false |} in
  tenants_delete "p1" ∈ keystone_calls (emitted (main cloud args cloud0))
  /\ deletes_project args = true.
Proof.
  intros args.
  assert (Hin : tenants_delete "p1"
                ∈ keystone_calls (emitted (main cloud args cloud0)))
    by (apply list_elem_of_In; vm_compute; tauto).
  split; [exact Hin|].
  exact (proj1 (project_deleted_only_after_purge cloud args cloud0 "p1" Hin)).
Defined.

Section SetupSteps.

Context {W : Type} (B : Backend W).

Lemma parse_args_checks_pass args (s : W) :
  truthy (cleanup_project args) = negb (own_project args) ->
  parse_args_checks args s = Out (Ok tt) s [].
Proof.
  intros H. unfold parse_args_checks, sys_exit, bind, ret, raise.
  rewrite H. destruct (own_project args); reflexivity.
Qed.

Lemma setup_not_authenticated args s e s' :
  truthy (cleanup_project args) = negb (own_project args) ->
  authenticate B (admin_project args) s = (Raise e, s') ->
  setup B args s
  = Out (Raise match e with
               | Unauthorized _ => SystemExit AUTHENTICATION_FAILED_ERROR_CODE
               | _ => e
               end)
        s'
        (EvAuthenticate (admin_project args) (Raise e)
         :: match e with
            | Unauthorized msg => [EvPrint ("Authentication failed: " +:+ msg)]
            | _ => []
            end).
Proof.
  intros H Hauth. unfold setup.
  rewrite (bind_Ok _ _ _ tt (f_equal res (parse_args_checks_pass args s H))).
  rewrite (parse_args_checks_pass args s H). cbn [emitted final].
  rewrite prepend_nil.
  match goal with
  | |- bind ?m _ s = _ =>
      assert (Hm : m s
                   = Out (Raise match e with
                                | Unauthorized _ =>
                                    SystemExit AUTHENTICATION_FAILED_ERROR_CODE
                                | _ => e
                                end)
                         s'
                         (EvAuthenticate (admin_project args) (Raise e)
                          :: match e with
                             | Unauthorized msg =>
                                 [EvPrint ("Authentication failed: " +:+ msg)]
                             | _ => []
                             end))
  end.
  { unfold try_except, KeystoneManager_init, keystone_client_Client, print,
      sys_exit, emit, bind, raise, ret.
    rewrite Hauth. destruct e; reflexivity. }
  rewrite (bind_Raise _ _ _ _ (f_equal res Hm)), Hm. reflexivity.
Qed.

(** Once authenticated, [setup] is the elevation on a manager that has
    fetched nothing yet, under the two handlers of [main]. *)
Lemma setup_elevate args s c s0 :
  truthy (cleanup_project args) = negb (own_project args) ->
  authenticate B (admin_project args) s = (Ok c, s0) ->
  let el := elevate B args
              {| client := c; admin_role_id := None; tenant_info := None |}
              s0 in
  setup B args s
  = prepend [EvAuthenticate (admin_project args) (Ok c)]
      match res el with
      | Raise (Forbidden msg) =>
          Out (Raise (SystemExit NOT_AUTHORIZED)) (final el)
              (emitted el ++ [EvPrint ("Not authorized: " +:+ msg)])
      | Raise (NoSuchProject p) =>
          Out (Raise (SystemExit NoSuchProject_ERROR_CODE)) (final el)
              (emitted el ++ [EvPrint ("Project " +:+ p +:+ " doesn't exist")])
      | _ => el
      end.
Proof.
  intros H Hauth el. unfold setup.
  rewrite (bind_Ok _ _ _ tt (f_equal res (parse_args_checks_pass args s H))).
  rewrite (parse_args_checks_pass args s H). cbn [emitted final].
  rewrite prepend_nil.
  match goal with
  | |- bind ?m _ s = _ =>
      assert (Hm : m s
                   = Out (Ok {| client := c; admin_role_id := None;
                                tenant_info := None |})
                         s0 [EvAuthenticate (admin_project args) (Ok c)])
  end.
  { unfold try_except, KeystoneManager_init, keystone_client_Client, bind,
      ret.
    rewrite Hauth. reflexivity. }
  rewrite (bind_Ok _ _ _ _ (f_equal res Hm)), Hm. cbn [emitted final].
  f_equal. unfold try_except. fold el.
  generalize el. intros [[x|e] s1 evs]; [reflexivity|].
  destruct e; reflexivity.
Qed.

End SetupSteps.



Section OwnProject.

Context {W : Type} (B : Backend W).

Lemma setup_own_project args s c s0 :
  own_project args = true -> cleanup_project args = None ->
  authenticate B (admin_project args) s = (Ok c, s0) ->
  setup B args s
  = Out (Ok (auth_tenant_id c, false, false,
             {| client := c; admin_role_id := None; tenant_info := None |}))
        s0 [EvAuthenticate (admin_project args) (Ok c)].
Proof.
  intros Hown Hcp Hauth.
  assert (Hargs : truthy (cleanup_project args) = negb (own_project args))
    by now rewrite Hown, Hcp.
  pose proof (setup_elevate B args s c s0 Hargs Hauth) as Hsetup.
  cbv zeta in Hsetup. rewrite Hsetup.
  unfold elevate, get_project_id. rewrite Hown, Hcp. reflexivity.
Qed.

End OwnProject.

(** X12.  With [--own-project] (and no [--cleanup-project]) [main] makes
    no keystone call besides authenticating: it resolves the project to
    the tenant of the caller's own token, grants and enables nothing,
    and at the end neither deletes nor disables the project nor removes
    a role. *)
Theorem own_project_makes_no_keystone_call {W} (B : Backend W)
    (args : Args) (s : W) :
  own_project args = true -> cleanup_project args = None ->
  keystone_calls (emitted (main B args s)) = []
  /\ forall c s0,
       authenticate B (admin_project args) s = (Ok c, s0) ->
       exists km,
         res (setup B args s) = Ok (auth_tenant_id c, false, false, km).
Proof.
  intros Hown Hcp.
  assert (Hargs : truthy (cleanup_project args) = negb (own_project args))
    by now rewrite Hown, Hcp.
  split.
  - destruct (authenticate B (admin_project args) s) as [[c|e] s0] eqn:Hauth.
    + pose proof (setup_own_project B args s c s0 Hown Hcp Hauth) as Hsetup.
      rewrite (main_eq B args s (auth_tenant_id c) false false
                 {| client := c; admin_role_id := None;
                    tenant_info := None |})
        by (rewrite Hsetup; reflexivity).
      rewrite Hsetup. unfold prepend. cbn [emitted final].
      rewrite keystone_calls_app, emitted_bind, keystone_calls_app.
      rewrite (not_keystone_calls _
                 (proper_cleanup_not_keystone B args _ s0)).
      cbn [app keystone_calls omap].
      destruct (res (proper_cleanup B args (auth_tenant_id c) s0));
        [|reflexivity].
      unfold finish, deletes_project. rewrite Hown.
      rewrite !andb_false_r. reflexivity.
    + pose proof (setup_not_authenticated B args s e s0 Hargs Hauth)
        as Hsetup.
      unfold main. rewrite (bind_Raise _ _ _ _ (f_equal res Hsetup)).
      rewrite Hsetup. cbn [emitted]. destruct e; reflexivity.
  - intros c s0 Hauth.
    rewrite (setup_own_project B args s c s0 Hown Hcp Hauth). eauto.
Qed.

Lemma own_project_makes_no_keystone_call_witness :
  let own := {| verbose := false; dry_run := false;
                dont_delete_project := false;
                arg_region_name := None; arg_endpoint_type := "publicURL";
                arg_username := "operator"; arg_password := "secret";
                admin_project := "admin"; arg_auth_url := "http://keystone";
                cleanup_project := None; own_project := true;
                arg_insecure := false |} in
  keystone_calls (emitted (main cloud own cloud0)) = []
  /\ res (main cloud own cloud0) = Raise (SystemExit 0).
Proof.
  intros own. split; [|vm_compute; reflexivity].
  apply (own_project_makes_no_keystone_call cloud own cloud0); reflexivity.
Defined.

(** ** KeystoneManager.get_project_id *)

(** X13.  On a manager that has fetched no tenant yet, a successful
    [get_project_id] of a reference has made one of two sequences of
    calls: [tenants.get] of the reference answered, and the reference is
    the id returned; or it raised [NotFound], the tenants were listed,
    the id returned is that of the first tenant so named and
    [tenants.get] was called once more, on that id.  Either way the
    manager keeps the tenant of the last answer. *)
Theorem get_project_id_resolves {W} (B : Backend W) (km : KeystoneManager)
    (ref : string) (s : W) (pid : string) (km' : KeystoneManager) :
  tenant_info km = None ->
  res (get_project_id B km (Some ref) s) = Ok (pid, km') ->
  let evs := emitted (get_project_id B km (Some ref) s) in
  (exists t,
      evs = [EvKeystone (tenants_get ref) (Ok (TenantReply t))]
      /\ pid = ref /\ tenant_info km' = Some t)
  \/ (exists ts x t,
        evs = [EvKeystone (tenants_get ref) (Raise NotFound);
               EvKeystone tenants_list (Ok (TenantsReply ts));
               EvKeystone (tenants_get pid) (Ok (TenantReply t))]
        /\ head (filter (fun y => t_name y = ref) ts) = Some x
        /\ pid = t_id x /\ tenant_info km' = Some t).
Proof.
  destruct km as [c a ti]. simpl. intros ->.
  unfold get_project_id, try_except, set_tenant_info, client_tenants_get,
    client_tenants_list, keystone, bind, ret, raise.
  simpl.
  destruct (run_tenants_get B ref s) as [[t|e] s1]; simpl.
  - intros [= <- <-]. left. exists t. auto.
  - destruct e; simpl; try discriminate.
    destruct (run_tenants_list B s1) as [[ts|e2] s2]; simpl.
    + destruct (filter (fun x => t_name x = ref) ts) as [|x xs] eqn:Hf; simpl;
        [discriminate|].
      destruct (run_tenants_get B (t_id x) s2) as [[t|e] s3]; simpl;
        [|discriminate].
      intros [= <- <-]. right. exists ts, x, t. rewrite Hf. auto.
    + destruct e2; discriminate.
Qed.

Lemma get_project_id_resolves_witness :
  emitted (get_project_id cloud
             {| client := client manager0; admin_role_id := None;
                tenant_info := None |} (Some "tenant") cloud0)
  = [EvKeystone (tenants_get "tenant") (Raise NotFound);
     EvKeystone tenants_list (Ok (TenantsReply [cloud_tenant cloud0]));
     EvKeystone (tenants_get "p1") (Ok (TenantReply (cloud_tenant cloud0)))]
  /\ ((exists t,
         emitted (get_project_id cloud
                    {| client := client manager0; admin_role_id := None;
                       tenant_info := None |} (Some "tenant") cloud0)
         = [EvKeystone (tenants_get "tenant") (Ok (TenantReply t))]
         /\ "p1" = "tenant"
         /\ tenant_info (set_tenant_info
                           {| client := client manager0;
                              admin_role_id := None; tenant_info := None |}
                           (cloud_tenant cloud0)) = Some t)
      \/ (exists ts x t,
            emitted (get_project_id cloud
                       {| client := client manager0; admin_role_id := None;
                          tenant_info := None |} (Some "tenant") cloud0)
            = [EvKeystone (tenants_get "tenant") (Raise NotFound);
               EvKeystone tenants_list (Ok (TenantsReply ts));
               EvKeystone (tenants_get "p1") (Ok (TenantReply t))]
            /\ head (filter (fun y => t_name y = "tenant") ts) = Some x
            /\ "p1" = t_id x
            /\ tenant_info (set_tenant_info
                              {| client := client manager0;
                                 admin_role_id := None;
                                 tenant_info := None |}
                              (cloud_tenant cloud0)) = Some t)).
Proof.
  split; [vm_compute; reflexivity|].
  apply (get_project_id_resolves cloud
           {| client := client manager0; admin_role_id := None;
              tenant_info := None |} "tenant" cloud0 "p1");
    [reflexivity|vm_compute; reflexivity].
Defined.



(** ** The cached role id *)

Section CachedRole.

Context {W : Type} (B : Backend W).

Lemma get_admin_role_id_caches km s ro km' :
  res (get_admin_role_id B km s) = Ok (ro, km') ->
  admin_role_id km' = Some ro /\ client km' = client km
  /\ tenant_info km' = tenant_info km.
Proof.
  unfold get_admin_role_id, client_roles_list, keystone, bind, ret, raise.
  destruct (admin_role_id km) as [r|] eqn:Hr;
    [destruct (decide (r = "")) as [Hempty|Hfull]|]; simpl.
  2:{ intros [= <- <-]. auto. }
  all: destruct (run_roles_list B s) as [[roles|err] s1]; simpl;
    [|discriminate];
    destruct (filter (fun x => role_name x = "admin") roles) as [|x xs];
    simpl; [discriminate|];
    intros [= <- <-]; auto.
Qed.

Lemma become_project_admin_grants km pid s km' :
  res (become_project_admin B km pid s) = Ok km' ->
  exists ro,
    admin_role_id km' = Some ro /\ client km' = client km
    /\ tenant_info km' = tenant_info km
    /\ EvKeystone (add_user_role (auth_user_id (client km)) ro pid)
                  (Ok NoReply)
       ∈ emitted (become_project_admin B km pid s).
Proof.
  unfold become_project_admin. cbv zeta.
  rewrite res_bind, emitted_bind.
  destruct (res (get_admin_role_id B km s)) as [[ro km1]|e] eqn:Hg;
    [|discriminate].
  destruct (get_admin_role_id_caches km s ro km1 Hg) as (Ha & Hc & Hi).
  unfold client_add_user_role, keystone, logging_info, emit, bind, ret.
  simpl.
  destruct (run_add_user_role B (auth_user_id (client km)) ro pid _)
    as [[[]|e] s2]; simpl; [|discriminate].
  intros [= <-]. exists ro. repeat split; auto.
  apply elem_of_app. right. right. left.
Qed.

Lemma try_become_project_admin_grants km pid s km' :
  res (try_become_project_admin B km pid s) = Ok (true, km') ->
  exists ro,
    admin_role_id km' = Some ro /\ client km' = client km
    /\ tenant_info km' = tenant_info km
    /\ EvKeystone (add_user_role (auth_user_id (client km)) ro pid)
                  (Ok NoReply)
       ∈ emitted (try_become_project_admin B km pid s).
Proof.
  unfold try_become_project_admin.
  destruct (res (become_project_admin B km pid s)) as [km1|e] eqn:Hr.
  - rewrite try_except_Ok with (a := (true, km1));
      rewrite (bind_Ok _ _ _ _ Hr); [|reflexivity].
    unfold prepend. cbn [ret res emitted final]. rewrite app_nil_r.
    intros [= <-]. now apply become_project_admin_grants.
  - assert (Hb : bind (become_project_admin B km pid)
                   (fun km0 => ret (true, km0)) s
                 = Out (Raise e) (final (become_project_admin B km pid s))
                       (emitted (become_project_admin B km pid s))).
    { now rewrite (bind_Raise _ _ _ _ Hr). }
    destruct (decide (e = Conflict)) as [->|Hne].
    + erewrite try_except_caught; [|rewrite Hb; reflexivity|reflexivity].
      rewrite Hb. unfold prepend. cbn [ret res emitted final]. discriminate.
    + rewrite try_except_uncaught with (e := e);
        [|rewrite Hb; reflexivity|destruct e; congruence].
      rewrite Hb. discriminate.
Qed.

Lemma elevate_grants args km s pid d km' :
  tenant_info km = None ->
  res (elevate B args km s) = Ok (pid, true, d, km') ->
  exists ro,
    admin_role_id km' = Some ro
    /\ EvKeystone (add_user_role (auth_user_id (client km')) ro pid)
                  (Ok NoReply)
       ∈ emitted (elevate B args km s).
Proof.
  intros Hti. unfold elevate. cbv zeta.
  rewrite res_bind, emitted_bind.
  destruct (get_project_id_shape B km (cleanup_project args) s Hti)
    as (_ & _ & Hshape).
  destruct (res (get_project_id B km (cleanup_project args) s))
    as [[pid0 km1]|e]; [|discriminate].
  destruct (Hshape pid0 km1 eq_refl) as (Hc1 & _ & _). clear Hshape.
  set (s1 := final (get_project_id B km (cleanup_project args) s)).
  destruct (own_project args); cbn [negb]; [discriminate|].
  rewrite res_bind, emitted_bind.
  destruct (res (try_become_project_admin B km1 pid0 s1))
    as [[r1 km2]|e] eqn:Htry; [|discriminate].
  set (s2 := final (try_become_project_admin B km1 pid0 s1)).
  destruct (tenant_info km2) as [info|] eqn:Hinfo; [|discriminate].
  assert (Hr1 : forall km3, client km3 = client km2 ->
                  admin_role_id km3 = admin_role_id km2 ->
                  r1 = true -> pid0 = pid -> km3 = km' ->
                  exists ro,
                    admin_role_id km' = Some ro
                    /\ EvKeystone
                         (add_user_role (auth_user_id (client km')) ro pid)
                         (Ok NoReply)
                       ∈ emitted (try_become_project_admin B km1 pid0 s1)).
  { intros km3 Hc3 Ha3 -> <- <-.
    destruct (try_become_project_admin_grants km1 pid0 s1 km2 Htry)
      as (ro & Ha & Hc & _ & Hin).
    exists ro. rewrite Ha3, Hc3, Hc. auto. }
  destruct (enabled info); cbn [negb].
  - cbn [ret res emitted]. intros [= <- -> <- <-].
    destruct (Hr1 km2 eq_refl eq_refl eq_refl eq_refl eq_refl)
      as (ro & Ha & Hin).
    exists ro. split; [exact Ha|].
    apply elem_of_app. right. apply elem_of_app. now left.
  - rewrite res_bind, emitted_bind.
    destruct (res (enable_project B km2 pid0 s2)) as [km3|e] eqn:Hen;
      [|discriminate].
    cbn [ret res emitted]. intros [= <- -> <- <-].
    assert (Hkm3 : client km3 = client km2
                   /\ admin_role_id km3 = admin_role_id km2).
    { revert Hen.
      unfold enable_project, client_tenants_update, keystone, logging_info,
        emit, bind, ret. simpl.
      destruct (run_tenants_update B pid0 true _) as [[t|e] s3]; simpl;
        [|discriminate].
      intros [= <-]. auto. }
    destruct Hkm3 as [Hc3 Ha3].
    destruct (Hr1 km3 Hc3 Ha3 eq_refl eq_refl eq_refl) as (ro & Ha & Hin).
    exists ro. split; [exact Ha|].
    apply elem_of_app. right. apply elem_of_app. now left.
Qed.

Lemma undo_uses_cached_role km pid ro s :
  admin_role_id km = Some ro -> ro <> "" ->
  keystone_calls (emitted (undo_become_project_admin B km pid s))
  = [remove_user_role (auth_user_id (client km)) ro pid].
Proof.
  intros Ha Hne.
  unfold undo_become_project_admin, get_admin_role_id. rewrite Ha.
  destruct (decide (ro = "")) as [|_]; [contradiction|].
  unfold client_remove_user_role, keystone, logging_info, emit, bind, ret.
  simpl.
  destruct (run_remove_user_role B (auth_user_id (client km)) ro pid s)
    as [[[]|e] s2]; reflexivity.
Qed.

Lemma disable_project_calls km pid s :
  keystone_calls (emitted (disable_project B km pid s))
  = [tenants_update pid false]
  /\ forall km', res (disable_project B km pid s) = Ok km' ->
       client km' = client km /\ admin_role_id km' = admin_role_id km.
Proof.
  unfold disable_project, client_tenants_update, keystone, logging_info,
    emit, bind, ret.
  simpl. destruct (run_tenants_update B pid false s) as [[t|err] s1]; simpl;
    (split; [reflexivity|]); [|discriminate].
  intros km' [= <-]. auto.
Qed.

Lemma unwind_uses_cached_role km pid ro d s :
  admin_role_id km = Some ro -> ro <> "" ->
  keystone_calls (emitted (unwind B km pid true d s))
    `prefix_of` unwind_calls (auth_user_id (client km)) ro pid true d
  /\ (res (unwind B km pid true d s) = Ok tt ->
      keystone_calls (emitted (unwind B km pid true d s))
      = unwind_calls (auth_user_id (client km)) ro pid true d).
Proof.
  intros Ha Hne. unfold unwind, unwind_calls.
  rewrite res_bind, emitted_bind, keystone_calls_app.
  destruct d.
  - destruct (disable_project_calls km pid s) as [Hcalls Hkm].
    rewrite Hcalls.
    destruct (res (disable_project B km pid s)) as [km1|err].
    + destruct (Hkm km1 eq_refl) as [Hc1 Ha1].
      rewrite emitted_bind, keystone_calls_app, res_bind.
      rewrite (undo_uses_cached_role km1 pid ro _ (eq_trans Ha1 Ha) Hne).
      rewrite Hc1.
      destruct (res (undo_become_project_admin B km1 pid _)); simpl;
        split; reflexivity.
    + split; [|discriminate]. now apply prefix_cons, prefix_nil.
  - cbn [ret res emitted final keystone_calls omap app].
    rewrite emitted_bind, keystone_calls_app, res_bind.
    rewrite (undo_uses_cached_role km pid ro s Ha Hne).
    destruct (res (undo_become_project_admin B km pid s)); simpl;
      split; reflexivity.
Qed.

End CachedRole.

(** X15.  The role [main] removes is the role it granted: after a
    setup that granted the role, the manager holds the id of the very
    role of the successful [add_user_role] call, and, this id not being
    empty, the unwind removes that role from that user on that project
    without listing the roles again; its keystone calls are the
    disabling, if due, and this removal, as far as they return. *)
Theorem role_removed_is_role_granted {W} (B : Backend W) (args : Args)
    (s : W) (pid : string) (d : bool) (km : KeystoneManager) :
  res (setup B args s) = Ok (pid, true, d, km) ->
  exists ro,
    admin_role_id km = Some ro
    /\ EvKeystone (add_user_role (auth_user_id (client km)) ro pid)
                  (Ok NoReply)
       ∈ emitted (setup B args s)
    /\ (ro <> "" ->
        forall s2,
          keystone_calls (emitted (unwind B km pid true d s2))
            `prefix_of` unwind_calls (auth_user_id (client km)) ro pid true d
          /\ (res (unwind B km pid true d s2) = Ok tt ->
              keystone_calls (emitted (unwind B km pid true d s2))
              = unwind_calls (auth_user_id (client km)) ro pid true d)).
Proof.
  intros Hsetup.
  destruct (setup_Ok B args s _ Hsetup) as (km0 & s0 & a & Hti & Hel & Hev & _).
  destruct (elevate_grants B args km0 s0 pid d km Hti Hel) as (ro & Ha & Hin).
  exists ro. split; [exact Ha|]. split.
  - rewrite Hev. now right.
  - intros Hne s2. now apply unwind_uses_cached_role.
Qed.

Lemma role_removed_is_role_granted_witness :
  EvKeystone (add_user_role "operator" "r1" "p1") (Ok NoReply)
    ∈ emitted (setup cloud args0 cloud0)
  /\ keystone_calls
       (emitted (unwind cloud manager0 "p1" true true
                   (final (setup cloud args0 cloud0))))
     = [tenants_update "p1" false; remove_user_role "operator" "r1" "p1"].
Proof.
  destruct (role_removed_is_role_granted cloud args0 cloud0 "p1" true manager0)
    as (ro & Ha & Hin & Hun); [vm_compute; reflexivity|].
  injection Ha as <-.
  split; [exact Hin|].
  apply (Hun ltac:(discriminate)). vm_compute. reflexivity.
Defined.

Section GrantedRole.

Context {W : Type} (B : Backend W).

Lemma admin_role_listed_app_l ro evs evs' :
  admin_role_listed ro evs -> admin_role_listed ro (evs ++ evs').
Proof.
  intros (roles & x & Hin & Hx). exists roles, x.
  split; [apply elem_of_app; now left|exact Hx].
Qed.

Lemma admin_role_listed_app_r ro evs evs' :
  admin_role_listed ro evs' -> admin_role_listed ro (evs ++ evs').
Proof.
  intros (roles & x & Hin & Hx). exists roles, x.
  split; [apply elem_of_app; now right|exact Hx].
Qed.

Lemma get_admin_role_id_listed km s ro km' :
  admin_role_id km = None ->
  res (get_admin_role_id B km s) = Ok (ro, km') ->
  admin_role_listed ro (emitted (get_admin_role_id B km s)).
Proof.
  intros Hnone.
  unfold get_admin_role_id, client_roles_list, keystone, bind, ret, raise.
  rewrite Hnone.
  destruct (run_roles_list B s) as [[roles|err] s1]; simpl; [|discriminate].
  destruct (filter (fun x => role_name x = "admin") roles) as [|x xs] eqn:Hf;
    simpl; [discriminate|].
  intros [= <- <-]. exists roles, x. rewrite Hf.
  split; [left|]. auto.
Qed.

Lemma become_project_admin_listed km pid s km' ro :
  admin_role_id km = None ->
  res (become_project_admin B km pid s) = Ok km' ->
  admin_role_id km' = Some ro ->
  admin_role_listed ro (emitted (become_project_admin B km pid s)).
Proof.
  intros Hnone. unfold become_project_admin. cbv zeta.
  rewrite res_bind, emitted_bind.
  destruct (res (get_admin_role_id B km s)) as [[ro0 km1]|e] eqn:Hg;
    [|discriminate].
  destruct (get_admin_role_id_caches B km s ro0 km1 Hg) as (Ha & _).
  pose proof (get_admin_role_id_listed km s ro0 km1 Hnone Hg) as Hl.
  unfold client_add_user_role, keystone, logging_info, emit, bind, ret.
  simpl.
  destruct (run_add_user_role B (auth_user_id (client km)) ro0 pid _)
    as [[[]|e] s2]; simpl; [|discriminate].
  intros [= <-] Hro. rewrite Ha in Hro. injection Hro as <-.
  now apply admin_role_listed_app_l.
Qed.

Lemma try_become_project_admin_listed km pid s km' ro :
  admin_role_id km = None ->
  res (try_become_project_admin B km pid s) = Ok (true, km') ->
  admin_role_id km' = Some ro ->
  admin_role_listed ro (emitted (try_become_project_admin B km pid s)).
Proof.
  intros Hnone. unfold try_become_project_admin.
  destruct (res (become_project_admin B km pid s)) as [km1|e] eqn:Hr.
  - rewrite try_except_Ok with (a := (true, km1));
      rewrite (bind_Ok _ _ _ _ Hr); [|reflexivity].
    unfold prepend. cbn [ret res emitted final]. rewrite app_nil_r.
    intros [= <-]. now apply become_project_admin_listed.
  - assert (Hb : bind (become_project_admin B km pid)
                   (fun km0 => ret (true, km0)) s
                 = Out (Raise e) (final (become_project_admin B km pid s))
                       (emitted (become_project_admin B km pid s))).
    { now rewrite (bind_Raise _ _ _ _ Hr). }
    destruct (decide (e = Conflict)) as [->|Hne].
    + erewrite try_except_caught; [|rewrite Hb; reflexivity|reflexivity].
      rewrite Hb. unfold prepend. cbn [ret res emitted final]. discriminate.
    + rewrite try_except_uncaught with (e := e);
        [|rewrite Hb; reflexivity|destruct e; congruence].
      rewrite Hb. discriminate.
Qed.

Lemma elevate_listed args km s pid d km' ro :
  tenant_info km = None -> admin_role_id km = None ->
  res (elevate B args km s) = Ok (pid, true, d, km') ->
  admin_role_id km' = Some ro ->
  admin_role_listed ro (emitted (elevate B args km s)).
Proof.
  intros Hti Hnone. unfold elevate. cbv zeta.
  rewrite res_bind, emitted_bind.
  destruct (get_project_id_shape B km (cleanup_project args) s Hti)
    as (_ & _ & Hshape).
  destruct (res (get_project_id B km (cleanup_project args) s))
    as [[pid0 km1]|e]; [|discriminate].
  destruct (Hshape pid0 km1 eq_refl) as (_ & Ha1 & _). clear Hshape.
  rewrite Hnone in Ha1.
  set (s1 := final (get_project_id B km (cleanup_project args) s)).
  destruct (own_project args); cbn [negb]; [discriminate|].
  rewrite res_bind, emitted_bind.
  destruct (res (try_become_project_admin B km1 pid0 s1))
    as [[r1 km2]|e] eqn:Htry; [|discriminate].
  set (s2 := final (try_become_project_admin B km1 pid0 s1)).
  destruct (tenant_info km2) as [info|] eqn:Hinfo; [|discriminate].
  assert (Hr1 : r1 = true -> admin_role_id km2 = Some ro ->
                admin_role_listed ro
                  (emitted (try_become_project_admin B km1 pid0 s1))).
  { intros ->. now apply try_become_project_admin_listed. }
  destruct (enabled info); cbn [negb].
  - cbn [ret res emitted]. intros [= <- -> <- <-] Hro.
    apply admin_role_listed_app_r, admin_role_listed_app_l. auto.
  - rewrite res_bind, emitted_bind.
    destruct (res (enable_project B km2 pid0 s2)) as [km3|e] eqn:Hen;
      [|discriminate].
    cbn [ret res emitted]. intros [= <- -> <- <-] Hro.
    assert (Ha3 : admin_role_id km3 = admin_role_id km2).
    { revert Hen.
      unfold enable_project, client_tenants_update, keystone, logging_info,
        emit, bind, ret. simpl.
      destruct (run_tenants_update B pid0 true _) as [[t|e] s3]; simpl;
        [|discriminate].
      intros [= <-]. auto. }
    rewrite Ha3 in Hro.
    apply admin_role_listed_app_r, admin_role_listed_app_l. auto.
Qed.

Lemma unwind_calls_mutations user ro pid r d :
  List.filter is_mutation (unwind_calls user ro pid r d)
  = unwind_calls user ro pid r d.
Proof. destruct r, d; reflexivity. Qed.

Lemma unwind_keystone_calls km pid ro r d s :
  (r = true -> admin_role_id km = Some ro /\ ro <> "") ->
  keystone_calls (emitted (unwind B km pid r d s))
    `prefix_of` unwind_calls (auth_user_id (client km)) ro pid r d
  /\ (res (unwind B km pid r d s) = Ok tt ->
      keystone_calls (emitted (unwind B km pid r d s))
      = unwind_calls (auth_user_id (client km)) ro pid r d).
Proof.
  intros Hro. destruct r.
  - destruct (Hro eq_refl) as [Ha Hne]. now apply unwind_uses_cached_role.
  - unfold unwind, unwind_calls.
    rewrite res_bind, emitted_bind, keystone_calls_app.
    destruct d.
    + destruct (disable_project_calls B km pid s) as [Hcalls _].
      rewrite Hcalls.
      destruct (res (disable_project B km pid s)); cbn;
        split; reflexivity.
    + cbn. split; reflexivity.
Qed.

End GrantedRole.

(** C4.  After a setup that returned the flags [r]
    ([remove_admin_role_after_purge]) and [d]
    ([disable_project_after_purge]): [r] holds exactly when the one call
    granting the role returned normally, and not when it raised
    [Conflict]; [d] holds exactly when the elevation ran and keystone
    reported the project disabled.  When [r] holds, the role granted is
    the one the manager keeps, the first role named admin that keystone
    listed.  The unwind disables the project if [d] and then removes
    that very role from the user if [r], in this order and with no
    other keystone call; it gets as far as its calls return.  This is
    what [main] runs once the purge has returned and the project is
    kept.  (The id of the role is taken not to be empty: an empty id is
    looked up again.) *)
Theorem unwind_restores_what_setup_changed {W} (B : Backend W)
    (args : Args) (s : W) (pid : string) (r d : bool)
    (km : KeystoneManager) :
  res (setup B args s) = Ok (pid, r, d, km) ->
  let evs := emitted (setup B args s) in
  let s1 := final (setup B args s) in
  let op := perform_on_project B (arg_username args) (arg_password args)
              pid (arg_auth_url args) (arg_endpoint_type args)
              (arg_region_name args)
              (if dry_run args then "dump" else "purge")
              (arg_insecure args) s1 in
  let user := auth_user_id (client km) in
  let ro := default "" (admin_role_id km) in
  (r = true <-> grant_outcomes evs = [Ok NoReply])
  /\ (grant_outcomes evs = [Raise Conflict] -> r = false)
  /\ (d = true <->
      own_project args = false
      /\ exists t, tenant_reports evs = [t] /\ enabled t = false)
  /\ (r = true ->
      admin_role_id km = Some ro /\ admin_role_listed ro evs
      /\ EvKeystone (add_user_role user ro pid) (Ok NoReply) ∈ evs)
  /\ ((r = true -> ro <> "") ->
      (forall s2,
          keystone_calls (emitted (unwind B km pid r d s2))
            `prefix_of` unwind_calls user ro pid r d
          /\ (res (unwind B km pid r d s2) = Ok tt ->
              keystone_calls (emitted (unwind B km pid r d s2))
              = unwind_calls user ro pid r d))
      /\ (res op = Ok tt -> deletes_project args = false ->
          res (unwind B km pid r d (final op)) = Ok tt ->
          res (main B args s) = Raise (SystemExit 0)
          /\ mutations (emitted (main B args s))
             = (mutations evs ++ unwind_calls user ro pid r d)%list)).
Proof.
  intros Hsetup evs s1 op user ro.
  destruct (setup_Ok B args s _ Hsetup)
    as (km0 & s0 & a & Hti & Hel & Hev & _ & Hnone).
  destruct (elevate_flags B args km0 s0 pid r d km Hti Hel)
    as (_ & Hr & _ & Hd & _).
  assert (Hg : grant_outcomes evs
               = grant_outcomes (emitted (elevate B args km0 s0)))
    by (unfold evs; rewrite Hev; reflexivity).
  assert (Ht : tenant_reports evs
               = tenant_reports (emitted (elevate B args km0 s0)))
    by (unfold evs; rewrite Hev; reflexivity).
  rewrite Hg, Ht.
  split; [exact Hr|]. split.
  { intros Hc. destruct r; [|reflexivity].
    destruct Hr as [Hr _]. rewrite (Hr eq_refl) in Hc. discriminate. }
  split; [exact Hd|].
  assert (Hgranted : r = true ->
                     admin_role_id km = Some ro /\ admin_role_listed ro evs
                     /\ EvKeystone (add_user_role user ro pid) (Ok NoReply)
                        ∈ evs).
  { intros ->.
    destruct (elevate_grants B args km0 s0 pid d km Hti Hel)
      as (ro' & Ha & Hin).
    assert (Hro : ro = ro') by (unfold ro; now rewrite Ha).
    subst ro'. split; [exact Ha|]. unfold evs. rewrite Hev. split.
    - destruct (elevate_listed B args km0 s0 pid d km ro Hti Hnone Hel Ha)
        as (roles & x & Hl & Hx).
      exists roles, x. split; [now right|exact Hx].
    - now right. }
  split; [exact Hgranted|].
  intros Hne.
  assert (Hcached : r = true -> admin_role_id km = Some ro /\ ro <> "").
  { intros Hrt. split; [apply (Hgranted Hrt)|apply (Hne Hrt)]. }
  split; [intros s2; now apply (unwind_keystone_calls B)|].
  intros Hop Hdel Hu.
  destruct (unwind_keystone_calls B km pid ro r d (final op) Hcached)
    as [_ Heq].
  rewrite (main_keeps_project B args s pid r d km Hsetup Hop Hdel).
  fold s1 op. unfold prepend. cbn [res emitted].
  rewrite res_bind, emitted_bind, Hu. cbn [sys_exit raise res emitted].
  split; [reflexivity|].
  rewrite app_nil_r, !mutations_app.
  rewrite (not_keystone_mutations _
             (proper_cleanup_not_keystone B args pid s1)).
  rewrite app_nil_r. f_equal.
  unfold mutations. rewrite (Heq Hu). apply unwind_calls_mutations.
Qed.

Lemma unwind_restores_what_setup_changed_witness :
  (* disabled project, operator not yet admin: both are undone, and the
     role removed is the admin role [r1] that was granted *)
  (admin_role_listed "r1" (emitted (setup cloud args0 cloud0))
   /\ res (main cloud args0 cloud0) = Raise (SystemExit 0)
   /\ mutations (emitted (main cloud args0 cloud0))
      = [add_user_role "operator" "r1" "p1"; tenants_update "p1" true;
         tenants_update "p1" false; remove_user_role "operator" "r1" "p1"])
  (* enabled project, operator already admin: nothing to undo *)
  /\ grant_outcomes (emitted (setup cloud args0 settled)) = [Raise Conflict]
  /\ res (main cloud args0 settled) = Raise (SystemExit 0)
  /\ mutations (emitted (main cloud args0 settled))
     = [add_user_role "operator" "r1" "p1"].
Proof.
  split; [|split; [vm_compute; reflexivity|]].
  - destruct (unwind_restores_what_setup_changed cloud args0 cloud0
                "p1" true true manager0)
      as (_ & _ & _ & Hgranted & Hunwind); [vm_compute; reflexivity|].
    destruct (Hgranted eq_refl) as (_ & Hlisted & _).
    destruct Hunwind as [_ Hmain]; [discriminate|].
    destruct Hmain as [Hres Hmut];
      [vm_compute; reflexivity|reflexivity|vm_compute; reflexivity|].
    split; [exact Hlisted|]. split; [exact Hres|].
    rewrite Hmut. vm_compute. reflexivity.
  - destruct (unwind_restores_what_setup_changed cloud args0 settled
                "p1" false false manager1)
      as (_ & _ & _ & _ & Hunwind); [vm_compute; reflexivity|].
    destruct Hunwind as [_ Hmain]; [discriminate|].
    destruct Hmain as [Hres Hmut];
      [vm_compute; reflexivity|reflexivity|vm_compute; reflexivity|].
    split; [exact Hres|]. rewrite Hmut. vm_compute. reflexivity.
Defined.

(** ** Ports and interfaces *)

(** X16.  No port is listed both as an interface and as a port,
    whatever neutron answers to the two listings.  What
    [NeutronInterfaces.list] returns belongs to the project and is a
    router interface, so that its deletion always starts by clearing
    the routes of its router; what [NeutronPorts.list] returns belongs
    to the project and is unbound or bound to a server. *)
Theorem interfaces_and_ports_are_apart {W} (B : Backend W)
    (self : Resources) (s s' : W) (l l' : list resource) :
  res (NeutronInterfaces_list B self s) = Ok l ->
  res (NeutronPorts_list B self s') = Ok l' ->
  (forall r, r ∈ l -> r ∉ l')
  /\ (forall r, r ∈ l ->
        tenant_id r = self_project_id self
        /\ forall s2,
             head (requests
                     (emitted (Resources_delete B
                                 {| cls := NeutronInterfaces;
                                    self_project_id := self_project_id self |}
                                 r s2)))
             = Some (update_router_no_routes (device_id r)))
  /\ (forall r, r ∈ l' ->
        tenant_id r = self_project_id self
        /\ (device_owner r = ""
            \/ String.prefix "compute:" (device_owner r) = true)).
Proof.
  unfold NeutronInterfaces_list, NeutronPorts_list, client_list, bind, ret.
  destruct (run_listing B list_ports s) as [[ports|e] s1]; simpl;
    [|discriminate].
  destruct (run_listing B list_ports s') as [[ports'|e] s1']; simpl;
    [|discriminate].
  intros [= <-] [= <-].
  assert (Hi : forall r,
            r ∈ filter (_owned_resource self)
                  (filter is_router_interface ports) ->
            tenant_id r = self_project_id self
            /\ device_owner r = "network:router_interface").
  { intros r Hr. apply list_elem_of_filter in Hr as [Ho Hr].
    apply list_elem_of_filter in Hr as [Hd _]. auto. }
  assert (Hp : forall r,
            r ∈ filter (_owned_resource self)
                  (filter is_unbound_or_compute ports') ->
            tenant_id r = self_project_id self
            /\ (device_owner r = ""
                \/ String.prefix "compute:" (device_owner r) = true)).
  { intros r Hr. apply list_elem_of_filter in Hr as [Ho Hr].
    apply list_elem_of_filter in Hr as [Hd _]. auto. }
  split; [|split].
  - intros r Hr Hr'. destruct (Hi r Hr) as [_ Hd].
    destruct (Hp r Hr') as [_ [Hd'|Hd']]; rewrite Hd in Hd'; discriminate.
  - intros r Hr. destruct (Hi r Hr) as [Ho Hd]. split; [exact Ho|].
    intros s2.
    unfold Resources_delete, Resources_base_delete, logging_info, emit,
      client_call, bind, ret.
    cbn [cls]. destruct (decide _) as [_|Hn]; [|contradiction].
    destruct (run_request B (update_router_no_routes (device_id r)) s2)
      as [[[]|e] s3]; reflexivity.
  - exact Hp.
Qed.

Lemma interfaces_and_ports_are_apart_witness :
  let neutron := {| cls := NeutronPorts; self_project_id := "p1" |} in
  res (NeutronInterfaces_list cloud neutron wired)
  = Ok [port_ "q1" "p1" "network:router_interface" "r9"]
  /\ res (NeutronPorts_list cloud neutron wired)
     = Ok [port_ "q2" "p1" "compute:nova" "s1"; port_ "q3" "p1" "" ""]
  /\ port_ "q1" "p1" "network:router_interface" "r9"
     ∉ [port_ "q2" "p1" "compute:nova" "s1"; port_ "q3" "p1" "" ""].
Proof.
  intros neutron.
  split; [vm_compute; reflexivity|]. split; [vm_compute; reflexivity|].
  apply (proj1 (interfaces_and_ports_are_apart cloud neutron wired wired
                  [port_ "q1" "p1" "network:router_interface" "r9"]
                  [port_ "q2" "p1" "compute:nova" "s1"; port_ "q3" "p1" "" ""]
                  ltac:(vm_compute; reflexivity)
                  ltac:(vm_compute; reflexivity))).
  left.
Defined.

(** ** Swift objects *)

Section Swift.

Context {W : Type} (B : Backend W).

Lemma SwiftObjects_list_loop_Ok conts : forall acc s objs,
  res (SwiftObjects_list_loop B conts acc s) = Ok objs ->
  exists contents,
    length contents = length conts
    /\ emitted (SwiftObjects_list_loop B conts acc s)
       = container_listings conts contents
    /\ objs = (acc ++ objects_by_container conts contents)%list.
Proof.
  induction conts as [|cont conts IH]; intros acc s objs;
    cbn [SwiftObjects_list_loop].
  - intros [= <-]. exists []. rewrite app_nil_r. auto.
  - rewrite res_bind, emitted_bind.
    unfold client_list.
    destruct (run_listing B (get_container cont) s) as [[raw|e] s1];
      cbn [res final emitted]; [|discriminate].
    intros Hrest. destruct (IH _ _ _ Hrest) as (contents & Hlen & Hev & ->).
    exists (raw :: contents). split; [simpl; now rewrite Hlen|].
    split; [rewrite Hev; reflexivity|].
    unfold objects_by_container. simpl. now rewrite app_assoc.
Qed.

End Swift.

(** X17.  [SwiftObjects.list], when it returns, has listed the account
    once and then each of its containers once, in the order of the
    account, and returns the objects of the containers in that order,
    each under the name of the container it was listed in; deleting
    such an object names that container, which is one of the
    account. *)
Theorem SwiftObjects_listed_by_container {W} (B : Backend W) (s : W)
    (objs : list resource) :
  res (SwiftObjects_list B s) = Ok objs ->
  exists (account : list resource) (contents : list (list resource)),
    length contents = length account
    /\ emitted (SwiftObjects_list B s)
       = EvListing get_account (Ok account)
         :: container_listings (name <$> account) contents
    /\ objs = objects_by_container (name <$> account) contents
    /\ forall obj, obj ∈ objs ->
         delete_requests SwiftObjects obj
         = [delete_object (container obj) (name obj)]
         /\ container obj ∈ (name <$> account).
Proof.
  unfold SwiftObjects_list, list_containers.
  rewrite res_bind, emitted_bind, res_bind, emitted_bind.
  unfold client_list.
  destruct (run_listing B get_account s) as [[account|e] s1];
    cbn [ret res final emitted app]; [|discriminate].
  intros Hloop.
  destruct (SwiftObjects_list_loop_Ok B _ _ _ _ Hloop)
    as (contents & Hlen & Hev & ->).
  exists account, contents. rewrite length_fmap in Hlen.
  split; [exact Hlen|]. split; [now rewrite Hev|]. split; [reflexivity|].
  intros obj Hobj. split; [reflexivity|].
  cbn [app] in Hobj. unfold objects_by_container in Hobj.
  apply list_elem_of_join in Hobj as (group & Hobj & Hgroup).
  apply elem_of_zip_with in Hgroup as (cont & raw & -> & Hcont & _).
  apply list_elem_of_fmap in Hobj as (o & -> & _).
  exact Hcont.
Qed.

Lemma SwiftObjects_listed_by_container_witness :
  exists account contents,
    length contents = length account
    /\ emitted (SwiftObjects_list cloud stocked)
       = EvListing get_account (Ok account)
         :: container_listings (name <$> account) contents
    /\ [object_handle "logs" "a.log"; object_handle "logs" "b.log";
        object_handle "www" "index.html"]
       = objects_by_container (name <$> account) contents
    /\ forall obj,
         obj ∈ [object_handle "logs" "a.log"; object_handle "logs" "b.log";
                object_handle "www" "index.html"] ->
         delete_requests SwiftObjects obj
         = [delete_object (container obj) (name obj)]
         /\ container obj ∈ (name <$> account).
Proof.
  apply (SwiftObjects_listed_by_container cloud stocked). vm_compute.
  reflexivity.
Defined.
